(** * Tixel: the terrain generation engine of [tixel.py]

    A shallow embedding of the terrain core of [tixel.py] (class [Terrain]
    and the module-level helper functions) together with the properties of
    it that are checked against the specification.

    Conventions of the embedding.
    - Python [int]s that the user can type in (terrain sizes, elevation,
      iteration count) are [Z]; loop indices and array positions are [nat].
    - Python [float]s (seed draws, weights, heightmap values) are exact
      rationals [Q]; comparisons are the boolean ones of [Q].
    - A [dict] is an association list in insertion order, which is the
      order Python iterates it in.
    - A numpy 2D array is its shape together with its rows.
    - [Tile] objects live in a heap and are referred to by address, so that
      [self.tiles], [self.selected_tiles] and [self.pointed_tile] alias the
      same objects; [list.remove] and [in] compare addresses, as Python
      does for a class without [__eq__].
    - A raised exception aborts the method; the embedding reports which
      exception it is and says nothing about the half-updated object. *)

From Stdlib Require Import String ZArith QArith Bool Lia Arith List Permutation.
Import ListNotations.
Open Scope nat_scope.

Set Implicit Arguments.

(** ** The fragment of the Python runtime the code relies on *)

Module Py.

Inductive exn : Type :=
| KeyError (key : string)
| IndexError
| ValueError.

Inductive result (A : Type) : Type :=
| Ok (a : A)
| Raise (e : exn).
Arguments Ok {A} a.
Arguments Raise {A} e.

Definition bind {A B} (m : result A) (k : A -> result B) : result B :=
  match m with
  | Ok a => k a
  | Raise e => Raise e
  end.
Arguments bind : simpl never.

(** [for x in l: s = body(x, s)] over an immutable sequence (a [range],
    or the items of a dict that the body does not modify). *)
Fixpoint for_each {A S} (l : list A) (body : A -> S -> result S) (s : S)
  : result S :=
  match l with
  | [] => Ok s
  | x :: l' => bind (body x s) (for_each l' body)
  end.

(** [range(n)] for a Python int [n]: empty when [n <= 0]. *)
Definition range (n : Z) : list nat := seq 0 (Z.to_nat n).

(** [l[i]] for a non-negative [i]. *)
Definition list_get {A} (l : list A) (i : nat) : result A :=
  match nth_error l i with
  | Some x => Ok x
  | None => Raise IndexError
  end.

(** [l.remove(x)] on a list of object references: drops the first
    occurrence, [ValueError] when there is none. *)
Fixpoint list_remove (x : nat) (l : list nat) : result (list nat) :=
  match l with
  | [] => Raise ValueError
  | y :: l' =>
      if Nat.eqb x y then Ok l'
      else bind (list_remove x l') (fun r => Ok (y :: r))
  end.

(** [x in l] on a list of object references. *)
Definition list_in (x : nat) (l : list nat) : bool :=
  existsb (Nat.eqb x) l.

(** Dictionaries, in insertion order. *)
Definition dict (V : Type) : Type := list (string * V).

Fixpoint dict_get {V} (d : dict V) (k : string) : result V :=
  match d with
  | [] => Raise (KeyError k)
  | (k', v) :: d' => if String.eqb k k' then Ok v else dict_get d' k
  end.

(** [d[k] = v]: overwrites in place when the key exists, appends it
    otherwise. *)
Fixpoint dict_set {V} (d : dict V) (k : string) (v : V) : dict V :=
  match d with
  | [] => [(k, v)]
  | (k', v') :: d' =>
      if String.eqb k k' then (k', v) :: d' else (k', v') :: dict_set d' k v
  end.

Definition keys {V} (d : dict V) : list string := map fst d.

(** Comparisons of floats. *)
Definition flt (x y : Q) : bool := negb (Qle_bool y x).
Definition fgt (x y : Q) : bool := flt y x.
Definition feq (x y : Q) : bool := Qeq_bool x y.

End Py.

Import Py.

Declare Scope py_scope.
Delimit Scope py_scope with py.
Notation "x <- m ;; k" := (Py.bind m (fun x => k))
  (at level 61, m at next level, right associativity) : py_scope.
Notation "m ;;; k" := (Py.bind m (fun _ => k))
  (at level 61, right associativity) : py_scope.
Open Scope py_scope.

(** ** numpy 2D arrays *)

Module Np.

Record ndarray (A : Type) : Type := mk_ndarray {
  nrows : nat;
  ncols : nat;
  rows : list (list A)
}.
Arguments mk_ndarray {A} nrows ncols rows.

Definition shape {A} (a : ndarray A) : nat * nat := (nrows a, ncols a).

(** The array of shape [(r, c)] whose cell [(i, j)] is [f i j]. *)
Definition tabulate {A} (r c : nat) (f : nat -> nat -> A) : ndarray A :=
  mk_ndarray r c (map (fun i => map (f i) (seq 0 c)) (seq 0 r)).

(** [np.full((r, c), v)] and [np.zeros((r, c))]. *)
Definition full {A} (r c : nat) (v : A) : ndarray A :=
  tabulate r c (fun _ _ => v).
Definition zeros (r c : nat) : ndarray Q := full r c 0%Q.

(** [a[i, j]] for non-negative indices. *)
Definition get {A} (a : ndarray A) (i j : nat) : result A :=
  if (i <? nrows a)%nat && (j <? ncols a)%nat then
    match nth_error (rows a) i with
    | Some row => list_get row j
    | None => Raise IndexError
    end
  else Raise IndexError.

Fixpoint list_update {A} (l : list A) (i : nat) (v : A) : list A :=
  match l, i with
  | [], _ => []
  | _ :: l', O => v :: l'
  | x :: l', S i' => x :: list_update l' i' v
  end.

(** [a[i, j] = v] for non-negative indices. *)
Definition set {A} (a : ndarray A) (i j : nat) (v : A) : result (ndarray A) :=
  if (i <? nrows a)%nat && (j <? ncols a)%nat then
    match nth_error (rows a) i with
    | Some row =>
        Ok (mk_ndarray (nrows a) (ncols a)
              (list_update (rows a) i (list_update row j v)))
    | None => Raise IndexError
    end
  else Raise IndexError.

(** The pattern [a = np.empty((w, h)); for i in range(w): for j in
    range(h): a[i, j] = f(i, j)]: every cell is assigned once, in
    row-major order, before anything reads it, and the first exception
    that [f] raises aborts the loops.  [np.empty] itself raises
    [ValueError] on a negative dimension. *)
Fixpoint fill_row {A} (f : nat -> result A) (js : list nat)
  : result (list A) :=
  match js with
  | [] => Ok []
  | j :: js' => v <- f j ;; r <- fill_row f js' ;; Ok (v :: r)
  end.

Fixpoint fill_rows {A} (f : nat -> nat -> result A) (ris cjs : list nat)
  : result (list (list A)) :=
  match ris with
  | [] => Ok []
  | i :: ris' =>
      row <- fill_row (f i) cjs ;; r <- fill_rows f ris' cjs ;; Ok (row :: r)
  end.

Definition empty_then_fill {A} (w h : Z) (f : nat -> nat -> result A)
  : result (ndarray A) :=
  if (w <? 0)%Z || (h <? 0)%Z then Raise ValueError
  else
    rs <- fill_rows f (range w) (range h) ;;
    Ok (mk_ndarray (Z.to_nat w) (Z.to_nat h) rs).

(** [np.max(a)]: [ValueError] on an array without cells. *)
Definition fmax (x y : Q) : Q := if flt x y then y else x.

Definition max (a : ndarray Q) : result Q :=
  match concat (rows a) with
  | [] => Raise ValueError
  | x :: l => Ok (fold_left fmax l x)
  end.

(** [np.trunc]: rounding towards zero, cell by cell. *)
Definition trunc_float (x : Q) : Q :=
  inject_Z (Z.quot (Qnum x) (Zpos (Qden x))).

Definition trunc (a : ndarray Q) : ndarray Q :=
  mk_ndarray (nrows a) (ncols a) (map (map trunc_float) (rows a)).

(** Rows and shape agree. *)
Definition wf {A} (a : ndarray A) : Prop :=
  length (rows a) = nrows a /\
  Forall (fun row => length row = ncols a) (rows a).

End Np.

(** ** Tile types, tiles and the terrain object *)

Definition TileType : Type := string.
Definition EMPTY : TileType := "0"%string.

(** The attributes of a [Tile] object that the terrain logic reads or
    writes; images, masks and scaled geometry belong to the renderer. *)
Record Tile : Type := mk_Tile {
  tile_type : TileType;
  coordinates : Q * Q;
  index : nat * nat;
  tile_elevation : nat;
  selected_tile : bool
}.

(** A reference to a [Tile] object: its address in the heap. *)
Definition ref : Type := nat.

Record Terrain : Type := mk_Terrain {
  terrain_width : Z;
  terrain_height : Z;
  tile_width : Z;
  tile_height : Z;
  tile_thickness : Z;
  elevation_symbol : option TileType;
  elevation : Z;
  elevation_iterations : Z;
  heap : list Tile;
  tiles : list ref;
  selected_tiles : list ref;
  pointed_tile : option ref;
  base_layer : Np.ndarray TileType;
  heightmap : option (Np.ndarray Q);
  terrain : list (Np.ndarray TileType)
}.


(** Field updates of the terrain object. *)
Definition with_tiles (s : Terrain) (hp : list Tile) (ts : list ref) : Terrain :=
  mk_Terrain (terrain_width s) (terrain_height s) (tile_width s)
    (tile_height s) (tile_thickness s) (elevation_symbol s) (elevation s)
    (elevation_iterations s) hp ts (selected_tiles s) (pointed_tile s)
    (base_layer s) (heightmap s) (terrain s).

Definition with_selected_tiles (s : Terrain) (sel : list ref) : Terrain :=
  mk_Terrain (terrain_width s) (terrain_height s) (tile_width s)
    (tile_height s) (tile_thickness s) (elevation_symbol s) (elevation s)
    (elevation_iterations s) (heap s) (tiles s) sel (pointed_tile s)
    (base_layer s) (heightmap s) (terrain s).

Definition with_pointed_tile (s : Terrain) (p : option ref) : Terrain :=
  mk_Terrain (terrain_width s) (terrain_height s) (tile_width s)
    (tile_height s) (tile_thickness s) (elevation_symbol s) (elevation s)
    (elevation_iterations s) (heap s) (tiles s) (selected_tiles s) p
    (base_layer s) (heightmap s) (terrain s).

Definition with_base_layer (s : Terrain) (b : Np.ndarray TileType) : Terrain :=
  mk_Terrain (terrain_width s) (terrain_height s) (tile_width s)
    (tile_height s) (tile_thickness s) (elevation_symbol s) (elevation s)
    (elevation_iterations s) (heap s) (tiles s) (selected_tiles s)
    (pointed_tile s) b (heightmap s) (terrain s).

Definition with_terrain (s : Terrain) (t : list (Np.ndarray TileType)) : Terrain :=
  mk_Terrain (terrain_width s) (terrain_height s) (tile_width s)
    (tile_height s) (tile_thickness s) (elevation_symbol s) (elevation s)
    (elevation_iterations s) (heap s) (tiles s) (selected_tiles s)
    (pointed_tile s) (base_layer s) (heightmap s) t.

Definition with_heightmap (s : Terrain) (h : Np.ndarray Q) : Terrain :=
  mk_Terrain (terrain_width s) (terrain_height s) (tile_width s)
    (tile_height s) (tile_thickness s) (elevation_symbol s) (elevation s)
    (elevation_iterations s) (heap s) (tiles s) (selected_tiles s)
    (pointed_tile s) (base_layer s) (Some h) (terrain s).

Definition with_elevation (s : Terrain) (e : Z) : Terrain :=
  mk_Terrain (terrain_width s) (terrain_height s) (tile_width s)
    (tile_height s) (tile_thickness s) (elevation_symbol s) e
    (elevation_iterations s) (heap s) (tiles s) (selected_tiles s)
    (pointed_tile s) (base_layer s) (heightmap s) (terrain s).

Definition with_elevation_symbol (s : Terrain) (sym : option TileType) : Terrain :=
  mk_Terrain (terrain_width s) (terrain_height s) (tile_width s)
    (tile_height s) (tile_thickness s) sym (elevation s)
    (elevation_iterations s) (heap s) (tiles s) (selected_tiles s)
    (pointed_tile s) (base_layer s) (heightmap s) (terrain s).

(** [tile.selected_tile = b] on the object at address [r]. *)
Definition set_selected (b : bool) (t : Tile) : Tile :=
  mk_Tile (tile_type t) (coordinates t) (index t) (tile_elevation t) b.

Definition heap_update (hp : list Tile) (r : ref) (f : Tile -> Tile) : list Tile :=
  match nth_error hp r with
  | Some t => Np.list_update hp r (f t)
  | None => hp
  end.

(** Reading an attribute through a reference.  Python has no dangling
    references: the [IndexError] case does not arise in a state whose
    lists only hold addresses of allocated tiles. *)
Definition deref (hp : list Tile) (r : ref) : result Tile := list_get hp r.

(** [for x in l: body] where [l] is a live list attribute that the body
    may shorten: the iterator keeps a position, reads the list as it is
    now, and stops once the position is past its end.  [fuel] bounds the
    number of rounds; the length of the list at entry is enough for a body
    that never lengthens the list. *)
Fixpoint for_live {St} (fuel pos : nat) (live : St -> list ref)
  (body : ref -> St -> result St) (s : St) : result St :=
  match fuel with
  | O => Ok s
  | S fuel' =>
      match nth_error (live s) pos with
      | None => Ok s
      | Some x => s' <- body x s ;; for_live fuel' (S pos) live body s'
      end
  end.

(** The source of randomness: [random.random()] draws, consumed in order. *)
Definition rng : Type := nat -> Q.
Definition random (r : rng) : Q * rng := (r O, fun n => r (S n)).

(** ** Helper functions of [tixel.py] *)

Definition _accumulate_probabilities (probabilities : dict Q) : dict Q :=
  snd (fold_left
         (fun (st : Q * dict Q) (item : string * Q) =>
            let accum_probability := (fst st + snd item)%Q in
            (accum_probability, dict_set (snd st) (fst item) accum_probability))
         probabilities (0%Q, [])).

(** Returns [None] when no accumulated probability exceeds [number]. *)
Fixpoint _assign_tile (number : Q) (accum_probabilities : dict Q)
  : option TileType :=
  match accum_probabilities with
  | [] => None
  | (key, value) :: rest =>
      if flt number value then Some key else _assign_tile number rest
  end.

(** Row-major list of the coordinates of [terrain], then [random.shuffle],
    which is the permutation [shuffle] picked by the random source. *)
Definition all_coordinates {A} (terrain : Np.ndarray A) : list (nat * nat) :=
  flat_map (fun i => map (fun j => (i, j)) (seq 0 (Np.ncols terrain)))
           (seq 0 (Np.nrows terrain)).

Definition _generate_unchecked_tiles {A} (terrain : Np.ndarray A)
  (shuffle : list (nat * nat) -> list (nat * nat)) : list (nat * nat) :=
  shuffle (all_coordinates terrain).

(** [[terrain[p] for p in ps]], evaluated left to right. *)
Fixpoint get_all {A} (terrain : Np.ndarray A) (ps : list (nat * nat))
  : result (list A) :=
  match ps with
  | [] => Ok []
  | (i, j) :: ps' =>
      v <- Np.get terrain i j ;; r <- get_all terrain ps' ;; Ok (v :: r)
  end.

Definition _get_neighbor_tiles {A} (terrain : Np.ndarray A)
  (position : nat * nat) : result (list A) :=
  let height := Z.of_nat (Np.nrows terrain) in
  let width := Z.of_nat (Np.ncols terrain) in
  let '(i, j) := position in
  let zi := Z.of_nat i in
  let zj := Z.of_nat j in
  if (zi =? 0)%Z then
    if (zj =? 0)%Z then
      get_all terrain [(i, j + 1); (i + 1, j); (i + 1, j + 1)]%nat
    else if (zj =? width - 1)%Z then
      get_all terrain [(i, j - 1); (i + 1, j); (i + 1, j - 1)]%nat
    else
      get_all terrain [(i, j - 1); (i + 1, j); (i + 1, j - 1);
                       (i + 1, j + 1); (i, j + 1)]%nat
  else if (zi =? height - 1)%Z then
    if (zj =? 0)%Z then
      get_all terrain [(i, j + 1); (i - 1, j); (i - 1, j + 1)]%nat
    else if (zj =? width - 1)%Z then
      get_all terrain [(i, j - 1); (i - 1, j); (i - 1, j - 1)]%nat
    else
      get_all terrain [(i, j - 1); (i - 1, j); (i - 1, j - 1);
                       (i - 1, j + 1); (i, j + 1)]%nat
  else if (zj =? 0)%Z then
    get_all terrain [(i - 1, j); (i - 1, j + 1); (i, j + 1);
                     (i + 1, j + 1); (i + 1, j)]%nat
  else if (zj =? width - 1)%Z then
    get_all terrain [(i - 1, j); (i - 1, j - 1); (i, j - 1);
                     (i + 1, j - 1); (i + 1, j)]%nat
  else
    get_all terrain [(i, j - 1); (i + 1, j - 1); (i + 1, j); (i + 1, j + 1);
                     (i, j + 1); (i - 1, j + 1); (i - 1, j); (i - 1, j - 1)]%nat.

(** [{tile_type: 0 for tile_type in tiles}] *)
Definition zero_counts (tiles : list TileType) : dict Z :=
  fold_left (fun d tile_type => dict_set d tile_type 0%Z) tiles [].

(** [for neighbor in neighbors: tile_count[neighbor] += 1] *)
Definition count_neighbors (neighbors : list TileType) (tile_count : dict Z)
  : result (dict Z) :=
  for_each neighbors
    (fun neighbor d => c <- dict_get d neighbor ;;
                       Ok (dict_set d neighbor (c + 1)%Z))
    tile_count.

(** One round of the scan for the most frequent type; every tie draws a
    fresh random number. *)
Definition scan_step (tile_count : dict Z) (tile : TileType)
  (st : TileType * rng) : result (TileType * rng) :=
  let '(most_frequent, r) := st in
  ct <- dict_get tile_count tile ;;
  cm <- dict_get tile_count most_frequent ;;
  if (ct >? cm)%Z then Ok (tile, r)
  else if (ct =? cm)%Z then
    let '(x, r') := random r in
    if fgt x (1 # 2) then Ok (tile, r') else Ok (most_frequent, r')
  else Ok (most_frequent, r).

Definition scan_most_frequent (tile_count : dict Z) (first : TileType)
  (r : rng) : result (TileType * rng) :=
  for_each (keys tile_count) (scan_step tile_count) (first, r).

Definition _set_to_neighbor_type (neighbors : list TileType)
  (tiles : list TileType) (r : rng) : result (TileType * rng) :=
  tile_count <- count_neighbors neighbors (zero_counts tiles) ;;
  most_frequent <- list_get (keys tile_count) 0 ;;
  scan_most_frequent tile_count most_frequent r.

(** [sum(values) / len(values)] *)
Definition mean (values : list Q) : Q :=
  (fold_left Qplus values 0 / inject_Z (Z.of_nat (length values)))%Q.

(** One visit of the smoothing loop of the heightmap. *)
Definition diffuse_cell (p : nat * nat) (heightmap : Np.ndarray Q)
  : result (Np.ndarray Q) :=
  let '(i, j) := p in
  v <- Np.get heightmap i j ;;
  if feq v 0 then Ok heightmap
  else
    values <- _get_neighbor_tiles heightmap (i, j) ;;
    Np.set heightmap i j (mean (values ++ [v])).

Definition seed_cell (terrain : Np.ndarray TileType)
  (elevation_symbol : TileType) (elevation : Z) (p : nat * nat)
  (heightmap : Np.ndarray Q) : result (Np.ndarray Q) :=
  let '(i, j) := p in
  t <- Np.get terrain i j ;;
  if String.eqb t elevation_symbol
  then Np.set heightmap i j (inject_Z elevation)
  else Ok heightmap.

Definition _generate_heightmap (terrain : Np.ndarray TileType)
  (elevation_symbol : TileType) (elevation : Z) (iterations : Z)
  : result (Np.ndarray Q) :=
  let width := Np.nrows terrain in
  let height := Np.ncols terrain in
  let cells := all_coordinates terrain in
  seeded <- for_each cells (seed_cell terrain elevation_symbol elevation)
              (Np.zeros width height) ;;
  smoothed <- for_each (range iterations)
                (fun _ hm => for_each cells diffuse_cell hm) seeded ;;
  Ok (Np.trunc smoothed).

Definition _cart_to_iso (x y : Q) : Q * Q := ((x - y)%Q, ((x + y) / 2)%Q).

(** ** Methods of [Terrain] *)

(** [Terrain.__init__]; [np.full] refuses a negative dimension. *)
Definition Terrain_init (terrain_width terrain_height tile_width tile_height
  tile_thickness : Z) : result Terrain :=
  if (terrain_width <? 0)%Z || (terrain_height <? 0)%Z then Raise ValueError
  else
    Ok (mk_Terrain terrain_width terrain_height tile_width tile_height
          tile_thickness None 1 1 [] [] [] None
          (Np.full (Z.to_nat terrain_width) (Z.to_nat terrain_height) EMPTY)
          None []).

(** The body of the innermost loop of [generate_tiles] for layer [i],
    cell [(j, k)]; the state is the heap and the list [self.tiles].  The
    image path is looked up (a missing tile type is a [KeyError]) and
    handed to the image loader, which is outside the model. *)
Definition make_tile (s : Terrain) (tile_images : dict string)
  (elevation_offset : Z) (i j k : nat) (st : list Tile * list ref)
  : result (list Tile * list ref) :=
  layer <- list_get (terrain s) i ;;
  tile_type <- Np.get layer j k ;;
  if String.eqb tile_type EMPTY then Ok st
  else
    _ <- dict_get tile_images tile_type ;;
    let cart_x := (inject_Z (Z.of_nat j) * inject_Z (tile_width s) / 2)%Q in
    let cart_y := (inject_Z (Z.of_nat k) * inject_Z (tile_height s))%Q in
    let '(iso_x, iso_y) := _cart_to_iso cart_x cart_y in
    let tile := mk_Tile tile_type (iso_x, (iso_y - inject_Z elevation_offset)%Q)
                  (j, k) (i + 1) false in
    Ok (fst st ++ [tile], snd st ++ [length (fst st)]).

Definition generate_tiles (s : Terrain) (tile_images : dict string)
  : result Terrain :=
  let s := with_selected_tiles (with_tiles s (heap s) []) [] in
  st <- for_each (seq 0 (length (terrain s)))
          (fun i (st : list Tile * list ref * Z) =>
             let '(objs, elevation_offset) := st in
             objs' <- for_each (range (terrain_width s))
                        (fun j => for_each (range (terrain_height s))
                                    (make_tile s tile_images elevation_offset i j))
                        objs ;;
             Ok (objs', (elevation_offset + tile_thickness s)%Z))
          (heap s, [], 0%Z) ;;
  Ok (with_tiles s (fst (fst st)) (snd (fst st))).

(** The fallback of [generate_base_layer] for a cell that [_assign_tile]
    left unassigned. *)
Definition most_probable_tile_type (tile_probabilities : dict Q)
  : result TileType :=
  for_each tile_probabilities
    (fun (item : string * Q) most_probable_tile_type =>
       pk <- dict_get tile_probabilities (fst item) ;;
       pm <- dict_get tile_probabilities most_probable_tile_type ;;
       if fgt pk pm then Ok (fst item) else Ok most_probable_tile_type)
    "1"%string.

Definition base_layer_cell (tile_probabilities accumulated_probabilities : dict Q)
  (seed : nat -> nat -> Q) (i j : nat) : result TileType :=
  match _assign_tile (seed i j) accumulated_probabilities with
  | Some key => Ok key
  | None => most_probable_tile_type tile_probabilities
  end.

(** [seed] is the array of uniform draws that [_generate_seed] returns. *)
Definition generate_base_layer (s : Terrain) (tile_probabilities : dict Q)
  (tile_images : dict string) (seed : nat -> nat -> Q) : result Terrain :=
  if (terrain_height s <? 0)%Z || (terrain_width s <? 0)%Z then Ok s
  else
    let accumulated_probabilities :=
      _accumulate_probabilities tile_probabilities in
    layer <- Np.empty_then_fill (terrain_width s) (terrain_height s)
               (base_layer_cell tile_probabilities accumulated_probabilities
                  seed) ;;
    generate_tiles (with_terrain (with_base_layer s layer) [layer]) tile_images.

(** One visit of the smoothing loop; the state is the base layer, which is
    updated in place, and the random source. *)
Definition smooth_cell (tile_types : list TileType) (coordinates : nat * nat)
  (st : Np.ndarray TileType * rng) : result (Np.ndarray TileType * rng) :=
  let '(layer, r) := st in
  let '(i, j) := coordinates in
  neighbors <- _get_neighbor_tiles layer coordinates ;;
  res <- _set_to_neighbor_type neighbors tile_types r ;;
  layer' <- Np.set layer i j (fst res) ;;
  Ok (layer', snd res).

Definition smooth_base_layer (s : Terrain) (tile_types : list TileType)
  (tile_images : dict string)
  (shuffle : list (nat * nat) -> list (nat * nat)) (r : rng)
  : result Terrain :=
  match tiles s with
  | [] => Ok s
  | _ :: _ =>
      if (terrain_width s =? 1)%Z || (terrain_height s =? 1)%Z then Ok s
      else
        let unchecked_tiles :=
          _generate_unchecked_tiles (base_layer s) shuffle in
        st <- for_each unchecked_tiles (smooth_cell tile_types)
                (base_layer s, r) ;;
        generate_tiles (with_terrain (with_base_layer s (fst st)) [fst st])
          tile_images
  end.

(** [int(x)] of a float: rounding towards zero. *)
Definition int_of_float (x : Q) : Z := Z.quot (Qnum x) (Zpos (Qden x)).

(** The layer of level [i] (0-based) of [generate_elevation]. *)
Definition elevation_layer (s : Terrain) (hm : Np.ndarray Q)
  (symbol : TileType) (i : nat) : result (Np.ndarray TileType) :=
  Np.empty_then_fill (terrain_width s) (terrain_height s)
    (fun j k =>
       h <- Np.get hm j k ;;
       if fgt h (inject_Z (Z.of_nat i)) then Ok symbol else Ok EMPTY).

(** [for tile in self.tiles: if tile.elevation > 1: self.tiles.remove(tile)] *)
Definition drop_elevated (s : Terrain) : result Terrain :=
  for_live (length (tiles s)) 0 tiles
    (fun tile s =>
       t <- deref (heap s) tile ;;
       if (1 <? tile_elevation t)%nat then
         ts <- list_remove tile (tiles s) ;; Ok (with_tiles s (heap s) ts)
       else Ok s)
    s.

Definition generate_elevation (s : Terrain) (tile_images : dict string)
  : result Terrain :=
  match tiles s, elevation_symbol s with
  | [], _ => Ok s
  | _ :: _, None => Ok s
  | _ :: _, Some symbol =>
      if (terrain_width s =? 1)%Z || (terrain_height s =? 1)%Z then Ok s
      else if (elevation s <=? 0)%Z || (elevation_iterations s <? 0)%Z
      then Ok s
      else
        s <- drop_elevated s ;;
        ground <- list_get (terrain s) 0 ;;
        let s := with_terrain s [ground] in
        hm <- _generate_heightmap (base_layer s) symbol (elevation s)
                (elevation_iterations s) ;;
        let s := with_heightmap s hm in
        top <- Np.max hm ;;
        let s := with_elevation s (int_of_float top) in
        s <- for_each (range (elevation s))
               (fun i s => layer <- elevation_layer s hm symbol i ;;
                           Ok (with_terrain s (terrain s ++ [layer])))
               s ;;
        generate_tiles s tile_images
  end.

(** [is_hovering] is the renderer's hit test of the current frame. *)
Definition update_pointed_tile (s : Terrain) (is_hovering : Tile -> bool)
  : result Terrain :=
  st <- for_each (tiles s)
          (fun tile (st : option ref * Z) =>
             t <- deref (heap s) tile ;;
             if is_hovering t then
               let m := (Z.of_nat (fst (index t) + snd (index t))
                         * Z.of_nat (tile_elevation t))%Z in
               if (m >? snd st)%Z then Ok (Some tile, m) else Ok st
             else Ok st)
          (None, (-1)%Z) ;;
  Ok (with_pointed_tile s (fst st)).

Definition update_terrain_info (s : Terrain) (terrain_width terrain_height
  tile_width tile_height tile_thickness elevation elevation_iterations : Z)
  : Terrain :=
  mk_Terrain terrain_width terrain_height tile_width tile_height
    tile_thickness (elevation_symbol s) elevation elevation_iterations
    (heap s) (tiles s) (selected_tiles s) (pointed_tile s) (base_layer s)
    (heightmap s) (terrain s).

Definition update_selected_tiles (s : Terrain)
  (control_pressed left_mouse_pressed : bool) : result Terrain :=
  match tiles s with
  | [] => Ok s
  | _ :: _ =>
      match pointed_tile s with
      | Some pointed =>
          if left_mouse_pressed then
            if control_pressed then
              if list_in pointed (selected_tiles s) then
                sel <- list_remove pointed (selected_tiles s) ;;
                Ok (with_selected_tiles
                      (with_tiles s
                         (heap_update (heap s) pointed (set_selected false))
                         (tiles s))
                      sel)
              else Ok s
            else
              Ok (with_selected_tiles
                    (with_tiles s
                       (heap_update (heap s) pointed (set_selected true))
                       (tiles s))
                    (selected_tiles s ++ [pointed]))
          else Ok s
      | None =>
          if left_mouse_pressed && control_pressed then
            Ok (with_selected_tiles
                  (with_tiles s
                     (fold_left (fun hp tile =>
                                   heap_update hp tile (set_selected false))
                        (selected_tiles s) (heap s))
                     (tiles s))
                  [])
          else Ok s
      end
  end.

(** The events [delete_tiles] distinguishes. *)
Inductive event : Type :=
| KeyDownDelete
| OtherEvent.

(** [for tile2 in self.tiles: if tile.index == tile2.index and
    tile.elevation == tile2.elevation: self.tiles.remove(tile2)] *)
Definition remove_matching (t : Tile) (s : Terrain) : result Terrain :=
  for_live (length (tiles s)) 0 tiles
    (fun tile2 s =>
       t2 <- deref (heap s) tile2 ;;
       if (fst (index t) =? fst (index t2))%nat
          && (snd (index t) =? snd (index t2))%nat
          && (tile_elevation t =? tile_elevation t2)%nat
       then ts <- list_remove tile2 (tiles s) ;; Ok (with_tiles s (heap s) ts)
       else Ok s)
    s.

Definition delete_selected (tile : ref) (s : Terrain) : result Terrain :=
  t <- deref (heap s) tile ;;
  if (1 <? tile_elevation t)%nat then
    s <- remove_matching t s ;;
    layer <- list_get (terrain s) (tile_elevation t - 1) ;;
    layer' <- Np.set layer (fst (index t)) (snd (index t)) EMPTY ;;
    let s := with_terrain s
               (Np.list_update (terrain s) (tile_elevation t - 1) layer') in
    sel <- list_remove tile (selected_tiles s) ;;
    Ok (with_selected_tiles s sel)
  else Ok s.

Definition delete_tiles (s : Terrain) (ev : event) : result Terrain :=
  match ev with
  | KeyDownDelete =>
      for_live (length (selected_tiles s)) 0 selected_tiles delete_selected s
  | OtherEvent => Ok s
  end.

(** ** Scenarios

    Runs of the operations on small terrains, used to evaluate the code on
    concrete inputs. *)

Open Scope string_scope.

Definition demo_images : dict string :=
  [("1", "tiles/1.png"); ("2", "tiles/2.png")].

(** The hit test of a frame in which the mouse is over the tile at grid
    index [idx] of layer [elev] only. *)
Definition hovering_at (idx : nat * nat) (elev : nat) (t : Tile) : bool :=
  (fst (index t) =? fst idx)%nat && (snd (index t) =? snd idx)%nat
  && (tile_elevation t =? elev)%nat.

(** A [w] x [h] terrain whose base layer is all ["1"]: the whole weight is
    on ["1"]. *)
Definition plain (w h : Z) : result Terrain :=
  s <- Terrain_init w h 32 16 7 ;;
  generate_base_layer s [("1", 1%Q)] demo_images (fun _ _ => 1 # 4).

(** The plain 2 x 2 terrain raised by one level everywhere: the elevation
    symbol is ["1"], the elevation 1 and there is no smoothing. *)
Definition two_floors : result Terrain :=
  s <- plain 2 2 ;;
  generate_elevation
    (with_elevation_symbol (update_terrain_info s 2 2 32 16 7 1 0) (Some "1"))
    demo_images.

(** A 3 x 3 terrain with ["1"] on the diagonal and ["2"] elsewhere, about
    to be raised by 3 levels on ["1"] without smoothing. *)
Definition diagonal : result Terrain :=
  s <- Terrain_init 3 3 32 16 7 ;;
  s <- generate_base_layer s [("1", 1 # 2); ("2", 1 # 2)] demo_images
         (fun i j => if (i =? j)%nat then 1 # 4 else 3 # 4) ;;
  Ok (with_elevation_symbol (update_terrain_info s 3 3 32 16 7 3 0) (Some "1")).

(** A plain 3 x 3 terrain whose size boxes were then edited to 2 x 2, as
    [update_terrain_info] records every frame, before elevation 1 on ["1"]
    is requested. *)
Definition resized : result Terrain :=
  s <- plain 3 3 ;;
  Ok (with_elevation_symbol (update_terrain_info s 2 2 32 16 7 1 0) (Some "1")).

(** On [two_floors], the two upper tiles at [(0, 0)] and [(0, 1)] are
    clicked one after the other, without the control key. *)
Definition two_selected : result Terrain :=
  s <- two_floors ;;
  s <- update_pointed_tile s (hovering_at (0, 0) 2) ;;
  s <- update_selected_tiles s false true ;;
  s <- update_pointed_tile s (hovering_at (0, 1) 2) ;;
  update_selected_tiles s false true.

(** On [two_floors], the upper tile at [(0, 0)] is clicked and the button
    is still down in the next frame. *)
Definition clicked_twice : result Terrain :=
  s <- two_floors ;;
  s <- update_pointed_tile s (hovering_at (0, 0) 2) ;;
  s <- update_selected_tiles s false true ;;
  update_selected_tiles s false true.

(** The state a run ends in; [blank] stands in for a run that raised,
    which none of the runs above does. *)
Definition blank : Terrain :=
  mk_Terrain 0 0 0 0 0 None 1 1 [] [] [] None (Np.full 0 0 EMPTY) None [].

Definition final (run : result Terrain) : Terrain :=
  match run with
  | Ok s => s
  | Raise _ => blank
  end.

(** The heightmap of the diagonal terrain for elevation 3 after one
    smoothing iteration. *)
Definition diagonal_heightmap : Np.ndarray Q :=
  Np.mk_ndarray 3 3 [[1; 0; 0]; [0; 0; 0]; [0; 0; 0]]%Q.

Close Scope string_scope.

(** ** Predicates used in the statements *)

(** The cells of [hm] under which the base layer [terrain] does not hold
    the elevation symbol are zero, and [hm] has the shape of [terrain]. *)
Definition unseeded_zero (terrain : Np.ndarray TileType)
  (elevation_symbol : TileType) (hm : Np.ndarray Q) : Prop :=
  Np.nrows hm = Np.nrows terrain /\ Np.ncols hm = Np.ncols terrain /\
  forall i j t, Np.get terrain i j = Ok t -> t <> elevation_symbol ->
                Np.get hm i j = Ok 0%Q.

(** Every cell of [a] satisfies [P]. *)
Definition all_cells {A} (P : A -> Prop) (a : Np.ndarray A) : Prop :=
  Forall (Forall P) (Np.rows a).

(** A float that holds a non-negative whole number. *)
Definition whole (x : Q) : Prop := exists z : Z, x = inject_Z z /\ (0 <= z)%Z.

(** The state passes every guard of [generate_elevation], with [symbol]
    as the elevation symbol. *)
Definition elevation_requested (s : Terrain) (symbol : TileType) : Prop :=
  tiles s <> [] /\ elevation_symbol s = Some symbol /\
  terrain_width s <> 1%Z /\ terrain_height s <> 1%Z /\
  (0 < elevation s)%Z /\ (0 <= elevation_iterations s)%Z.

(** [t] can be drawn: it is EMPTY, which makes no tile, or has an image. *)
Definition drawable (tile_images : dict string) (t : TileType) : Prop :=
  t = EMPTY \/ exists path, dict_get tile_images t = Ok path.

(** The state of a terrain whose base layer was generated for the sizes
    it still has: the tile list refers to allocated tiles, the bottom of
    the stack is the base layer, which has [terrain_width] rows and
    [terrain_height] columns, two at least, and holds drawable types. *)
Definition consistent (s : Terrain) (tile_images : dict string) : Prop :=
  Forall (fun r => r < length (heap s)) (tiles s) /\
  nth_error (terrain s) 0 = Some (base_layer s) /\
  Np.wf (base_layer s) /\
  Np.nrows (base_layer s) = Z.to_nat (terrain_width s) /\
  Np.ncols (base_layer s) = Z.to_nat (terrain_height s) /\
  (2 <= terrain_width s)%Z /\ (2 <= terrain_height s)%Z /\
  all_cells (drawable tile_images) (base_layer s).

(** ** Reference notions for the further properties *)

(** The sum of the weights of a table, added up in iteration order. *)
Definition add_weight (a : Q) (item : string * Q) : Q := (a + snd item)%Q.


(** The running sums of a table from [acc] on. *)
Fixpoint running (acc : Q) (l : dict Q) : dict Q :=
  match l with
  | [] => []
  | (k, w) :: l' => (k, (acc + w)%Q) :: running (acc + w)%Q l'
  end.

(** Two different cells that are at most one row and one column apart. *)
Definition adjacent (p q : nat * nat) : Prop :=
  p <> q /\
  fst p <= fst q + 1 /\ fst q <= fst p + 1 /\
  snd p <= snd q + 1 /\ snd q <= snd p + 1.

(** The number of rows (or columns) within reach of position [i] on an
    axis of length [n]: two at either end, three in between. *)
Definition reach (n i : nat) : nat :=
  if (i =? 0) || (i =? n - 1) then 2 else 3.

(** A float that holds a whole number between 0 and [top]. *)
Definition whole_upto (top : Z) (x : Q) : Prop :=
  exists z : Z, x = inject_Z z /\ (0 <= z <= top)%Z.

(** The tile that [generate_tiles] makes for the cell [(j, k)] of layer
    [i] that holds [tile_type], with the layer drawn [elevation_offset]
    higher than the base layer. *)
Definition tile_at (s : Terrain) (elevation_offset : Z) (i j k : nat)
  (tile_type : TileType) : Tile :=
  let cart_x := (inject_Z (Z.of_nat j) * inject_Z (tile_width s) / 2)%Q in
  let cart_y := (inject_Z (Z.of_nat k) * inject_Z (tile_height s))%Q in
  mk_Tile tile_type
    (fst (_cart_to_iso cart_x cart_y),
     (snd (_cart_to_iso cart_x cart_y) - inject_Z elevation_offset)%Q)
    (j, k) (i + 1) false.

(** The tiles of one cell: none for a cell that is EMPTY (or cannot be
    read), one otherwise, raised by [i] times the tile thickness. *)
Definition cell_tiles (s : Terrain) (i : nat) (jk : nat * nat) : list Tile :=
  match nth_error (terrain s) i with
  | Some layer =>
      match Np.get layer (fst jk) (snd jk) with
      | Ok v =>
          if String.eqb v EMPTY then []
          else [tile_at s (Z.of_nat i * tile_thickness s) i (fst jk) (snd jk) v]
      | Raise _ => []
      end
  | None => []
  end.

(** The cells [generate_tiles] visits in a layer, row by row. *)
Definition visited_cells (s : Terrain) : list (nat * nat) :=
  flat_map (fun j => map (fun k => (j, k)) (range (terrain_height s)))
    (range (terrain_width s)).

(** The tiles of the whole stack, layer by layer from the base layer. *)
Definition expected_tiles (s : Terrain) : list Tile :=
  flat_map (fun i => flat_map (cell_tiles s i) (visited_cells s))
    (seq 0 (length (terrain s))).

(** Allocating [new] tiles and listing them. *)
Definition allocate (st : list Tile * list ref) (new : list Tile)
  : list Tile * list ref :=
  (fst st ++ new, snd st ++ seq (length (fst st)) (length new)).

(** The measure by which [update_pointed_tile] ranks the tiles under the
    mouse. *)
Definition closeness (t : Tile) : Z :=
  (Z.of_nat (fst (index t) + snd (index t)) * Z.of_nat (tile_elevation t))%Z.

(** What [delete_tiles] keeps of a terrain [s] in a later state [u]: the
    tile objects, the base layer, the bottom of the stack and the shapes
    of all layers; and every listed or selected tile of the base layer
    (elevation 1) is still listed or selected. *)
Definition base_kept (s u : Terrain) : Prop :=
  heap u = heap s /\
  base_layer u = base_layer s /\
  nth_error (terrain u) 0 = nth_error (terrain s) 0 /\
  map (@Np.shape TileType) (terrain u) = map (@Np.shape TileType) (terrain s) /\
  forall r t,
    nth_error (heap s) r = Some t -> tile_elevation t <= 1 ->
    (In r (tiles s) -> In r (tiles u)) /\
    (In r (selected_tiles s) -> In r (selected_tiles u)).

(** On [two_floors], the upper tile at [(0, 0)] is clicked once. *)
Definition one_selected : result Terrain :=
  s <- two_floors ;;
  s <- update_pointed_tile s (hovering_at (0, 0) 2) ;;
  update_selected_tiles s false true.

(** The test of the inner loop of [delete_tiles]: same index and same
    elevation. *)
Definition same_place (t t2 : Tile) : bool :=
  (fst (index t) =? fst (index t2))
  && (snd (index t) =? snd (index t2))
  && (tile_elevation t =? tile_elevation t2).

(** What the smoothing loop keeps true of its state, the layer it updates
    in place and the random source: the layer is a well-formed [R] x [C]
    array that holds types of [tile_types] only. *)
Definition within_types (tile_types : list TileType) (R C : nat)
  (st : Np.ndarray TileType * rng) : Prop :=
  Np.wf (fst st) /\ Np.nrows (fst st) = R /\ Np.ncols (fst st) = C /\
  all_cells (fun t => In t tile_types) (fst st).


(** ** Changing the type of the selected tiles *)

(** [tile.tile_type = ty] on a tile object. *)
Definition set_tile_type (ty : TileType) (t : Tile) : Tile :=
  mk_Tile ty (coordinates t) (index t) (tile_elevation t) (selected_tile t).

(** [self.terrain[level][i, j] = v].  The bottom of the stack is the base
    layer object itself: every method that assigns [self.terrain] puts
    [self.base_layer] first, so a write to layer 0 is seen through
    [self.base_layer] as well. *)
Definition write_cell (s : Terrain) (level i j : nat) (v : TileType)
  : result Terrain :=
  layer <- list_get (terrain s) level ;;
  layer' <- Np.set layer i j v ;;
  let s' := with_terrain s (Np.list_update (terrain s) level layer') in
  Ok (if (level =? 0)%nat then with_base_layer s' layer' else s').

(** The position [tile.elevation - 1] in the list [self.terrain]: for a
    tile of elevation 0 the index is [-1], the last layer. *)
Definition layer_of (s : Terrain) (t : Tile) : nat :=
  if (tile_elevation t =? 0)%nat then length (terrain s) - 1
  else tile_elevation t - 1.

(** One round of the loop of [change_selected_tile_type]; loading the
    image looks the type up in [tile_images]. *)
Definition retype_tile (tile_type : TileType) (tile_images : dict string)
  (tile : ref) (s : Terrain) : result Terrain :=
  t <- deref (heap s) tile ;;
  let s := with_tiles s (heap_update (heap s) tile (set_tile_type tile_type))
             (tiles s) in
  _ <- dict_get tile_images tile_type ;;
  let s := with_tiles s (heap_update (heap s) tile (set_selected false))
             (tiles s) in
  write_cell s (layer_of s t) (fst (index t)) (snd (index t)) tile_type.

Definition change_selected_tile_type (s : Terrain) (tile_type : TileType)
  (tile_images : dict string) : result Terrain :=
  match selected_tiles s with
  | [] => Ok s
  | _ :: _ =>
      s <- for_each (selected_tiles s) (retype_tile tile_type tile_images) s ;;
      Ok (with_selected_tiles s [])
  end.

(** [self.terrain[level][i, j]]. *)
Definition cell (s : Terrain) (level i j : nat) : result TileType :=
  layer <- list_get (terrain s) level ;; Np.get layer i j.

(** The tile [t] once it has been given the type [ty] and unselected. *)
Definition retyped (ty : TileType) (t : Tile) : Tile :=
  mk_Tile ty (coordinates t) (index t) (tile_elevation t) false.

(** The place of a tile in the stack: its layer and its cell. *)
Definition place (t : Tile) : nat * (nat * nat) :=
  (tile_elevation t - 1, index t).

(** What the loop of [change_selected_tile_type] has done to the terrain
    [s] when it has visited the tiles [visited] and reached the state
    [u]. *)
Definition retyping (s : Terrain) (ty : TileType) (visited : list ref)
  (u : Terrain) : Prop :=
  selected_tiles u = selected_tiles s /\ tiles u = tiles s /\
  (forall r, nth_error (heap u) r
             = if list_in r visited
               then option_map (retyped ty) (nth_error (heap s) r)
               else nth_error (heap s) r) /\
  (forall L i j v, cell s L i j = Ok v -> exists v', cell u L i j = Ok v') /\
  (forall r t, In r visited -> nth_error (heap s) r = Some t ->
               cell u (tile_elevation t - 1) (fst (index t)) (snd (index t))
               = Ok ty) /\
  (forall L i j,
      (forall r t, In r visited -> nth_error (heap s) r = Some t ->
                   place t <> (L, (i, j))) ->
      cell u L i j = cell s L i j) /\
  (nth_error (terrain s) 0 = Some (base_layer s) ->
   nth_error (terrain u) 0 = Some (base_layer u)).


(** ** Mouse events: zooming and the elevation checkboxes *)

(** The pygame events that [update_zoom], [CheckBox.on_click] and the
    elevation checkboxes distinguish: the type of the event, with the
    button and the position of a [MOUSEBUTTONDOWN]. *)
Inductive mouse_event : Type :=
| MouseButtonDown (button : Z) (pos : Z * Z)
| NoMouseButtonDown.

(** [Terrain.update_zoom]; the method reads and writes
    [self.zoom_factor] only, which is the state here. *)
Definition update_zoom (zoom_factor : Q) (ev : mouse_event) : Q :=
  match ev with
  | MouseButtonDown button _ =>
      if (button =? 4)%Z then (zoom_factor + (1 # 4))%Q
      else if (button =? 5)%Z then
        let zoom_factor :=
          if Qle_bool zoom_factor 1 then (zoom_factor - (1 # 10))%Q
          else (zoom_factor - (1 # 4))%Q in
        if flt zoom_factor (1 # 10) then (1 # 10)%Q else zoom_factor
      else zoom_factor
  | NoMouseButtonDown => zoom_factor
  end.

(** A pygame rectangle: left, top, width, height. *)
Definition Rect : Type := (Z * Z * Z * Z)%type.

(** The attributes of a [CheckBox] that its logic reads or writes; the
    images belong to the renderer. *)
Record CheckBox : Type := mk_CheckBox {
  rect : Rect;
  checked : bool
}.

Definition check (c : CheckBox) : CheckBox :=
  if negb (checked c) then mk_CheckBox (rect c) true else c.

Definition uncheck (c : CheckBox) : CheckBox :=
  if checked c then mk_CheckBox (rect c) false else c.

(** [CheckBox.on_click]: the checkbox afterwards, and whether the method
    returned [True] (it returns [None] otherwise).  [collidepoint] is
    pygame's hit test of a rectangle. *)
Definition on_click (collidepoint : Rect -> Z * Z -> bool) (c : CheckBox)
  (ev : mouse_event) : CheckBox * bool :=
  match ev with
  | MouseButtonDown button pos =>
      if (button =? 1)%Z then
        if collidepoint (rect c) pos then (check c, true) else (c, false)
      else (c, false)
  | NoMouseButtonDown => (c, false)
  end.

(** [for checkbox2 in self.tile_checkboxes.values(): if checkbox2 !=
    checkbox: checkbox2.uncheck()], where [checkbox] is the value at
    position [n]: the values of the dictionary are distinct objects and
    [!=] compares them by identity.  [m] is the position of the head of
    the list. *)
Fixpoint uncheck_others (n m : nat) (d : dict CheckBox) : dict CheckBox :=
  match d with
  | [] => []
  | (k, c) :: d' =>
      (k, if (m =? n)%nat then c else uncheck c) :: uncheck_others n (S m) d'
  end.

(** One round of the loop of [handle_checkbox_events], on the value at
    position [n]. *)
Definition click_round (collidepoint : Rect -> Z * Z -> bool)
  (ev : mouse_event) (d : dict CheckBox) (n : nat) : dict CheckBox :=
  match nth_error d n with
  | Some (k, c) =>
      let '(c', response) := on_click collidepoint c ev in
      let d := Np.list_update d n (k, c') in
      if response then uncheck_others n 0 d else d
  | None => d
  end.

(** [TileInformation.handle_checkbox_events] on [self.tile_checkboxes]. *)
Definition handle_checkbox_events (collidepoint : Rect -> Z * Z -> bool)
  (d : dict CheckBox) (ev : mouse_event) : dict CheckBox :=
  fold_left (click_round collidepoint ev) (seq 0 (length d)) d.

(** The loop of [main] that follows the checkboxes: [for key, value in
    tile_information.tile_checkboxes.items(): if value.checked:
    terrain.elevation_symbol = key]. *)
Definition follow_checkboxes (d : dict CheckBox) (s : Terrain) : Terrain :=
  fold_left (fun s (item : string * CheckBox) =>
               if checked (snd item)
               then with_elevation_symbol s (Some (fst item))
               else s)
    d s.

(** The event is a left click inside the rectangle of [c]. *)
Definition clicked (collidepoint : Rect -> Z * Z -> bool) (ev : mouse_event)
  (c : CheckBox) : bool :=
  match ev with
  | MouseButtonDown button pos => (button =? 1)%Z && collidepoint (rect c) pos
  | NoMouseButtonDown => false
  end.

(** The key and the rectangle of each checkbox, in order. *)
Definition boxes (d : dict CheckBox) : list (string * Rect) :=
  map (fun item : string * CheckBox => (fst item, rect (snd item))) d.


(** A hit test for the runs below: the point is inside the rectangle,
    whose right and bottom edges are outside. *)
Definition inside (r : Rect) (pos : Z * Z) : bool :=
  let '(x, y, w, h) := r in
  ((x <=? fst pos) && (fst pos <? x + w)
   && (y <=? snd pos) && (snd pos <? y + h))%Z.

(** Two checkboxes one below the other, the first one checked. *)
Definition demo_checkboxes : dict CheckBox :=
  [("1"%string, mk_CheckBox (0, 0, 10, 10)%Z true);
   ("2"%string, mk_CheckBox (0, 20, 10, 10)%Z false)].

(** * Properties *)

Unset Implicit Arguments.

(** ** Exceptions and loops *)

Lemma bind_Ok A B (m : result A) (k : A -> result B) (b : B) :
  bind m k = Ok b -> exists a, m = Ok a /\ k a = Ok b.
Proof.
  destruct m as [a | e]; unfold bind; intro H.
  - exists a. split; [reflexivity | exact H].
  - discriminate H.
Qed.

Ltac inv_bind H :=
  let x := fresh "x" in
  let E := fresh "E" in
  apply bind_Ok in H; destruct H as (x & E & H).

Tactic Notation "bind_inv" hyp(H) "as" ident(x) ident(E) :=
  apply bind_Ok in H; destruct H as (x & E & H).

Ltac inv_Ok H := injection H as H; try subst.

(** A property that every round preserves holds after the loop. *)
Lemma for_each_invariant A St (P : St -> Prop) (body : A -> St -> result St) :
  forall (l : list A) (s s' : St),
    (forall x t t', In x l -> P t -> body x t = Ok t' -> P t') ->
    P s -> for_each l body s = Ok s' -> P s'.
Proof.
  induction l as [| x l IH]; simpl; intros s s' Hbody Hs Hrun.
  - inv_Ok Hrun. exact Hs.
  - inv_bind Hrun. apply (IH x0 s'); auto.
    + intros y t t' Hy. apply Hbody. right. exact Hy.
    + apply (Hbody x s x0); auto.
Qed.

(** A loop whose rounds all return, returns. *)
Lemma for_each_total A St (P : St -> Prop) (body : A -> St -> result St) :
  forall (l : list A) (s : St),
    (forall x t, In x l -> P t -> exists t', body x t = Ok t' /\ P t') ->
    P s -> exists s', for_each l body s = Ok s' /\ P s'.
Proof.
  induction l as [| x l IH]; simpl; intros s Hbody Hs.
  - exists s. auto.
  - destruct (Hbody x s) as (t' & Ht' & HP); auto.
    rewrite Ht'. unfold bind. apply IH; auto.
Qed.

Lemma for_each_returns A St (body : A -> St -> result St) (l : list A) (s : St) :
  (forall x t, In x l -> exists t', body x t = Ok t') ->
  exists s', for_each l body s = Ok s'.
Proof.
  intro H.
  destruct (for_each_total A St (fun _ => True) body l s) as (s' & Hs' & _);
    [| exact I | eauto].
  intros x t Hx _. destruct (H x t Hx) as (t' & Ht'). eauto.
Qed.

Lemma bind_returns A B (m : result A) (k : A -> result B) :
  (exists a, m = Ok a) -> (forall a, exists b, k a = Ok b) ->
  exists b, bind m k = Ok b.
Proof. intros (a & ->) Hk. unfold bind. apply Hk. Qed.

Lemma for_live_invariant St (P : St -> Prop) (live : St -> list ref)
  (body : ref -> St -> result St) :
  (forall x t t', P t -> body x t = Ok t' -> P t') ->
  forall (fuel pos : nat) (s s' : St),
    P s -> for_live fuel pos live body s = Ok s' -> P s'.
Proof.
  intros Hbody. induction fuel as [| fuel IH]; simpl; intros pos s s' Hs Hrun.
  - inv_Ok Hrun. exact Hs.
  - destruct (nth_error (live s) pos) as [x |].
    + inv_bind Hrun. apply (IH (S pos) x0 s'); auto.
      apply (Hbody x s x0); auto.
    + inv_Ok Hrun. exact Hs.
Qed.

(** The fuel given to [for_live] is enough: when no round lengthens the
    list, the iterator is exhausted before the fuel is, so that more fuel
    gives the same result. *)
Lemma for_live_fuel St (live : St -> list ref) (body : ref -> St -> result St) :
  (forall x t t', body x t = Ok t' -> length (live t') <= length (live t)) ->
  forall (fuel pos : nat) (s : St) (extra : nat),
    length (live s) <= fuel + pos ->
    for_live (fuel + extra) pos live body s = for_live fuel pos live body s.
Proof.
  intros Hbody. induction fuel as [| fuel IH]; intros pos s extra Hlen.
  - simpl in Hlen. destruct extra as [| extra]; simpl; [reflexivity |].
    destruct (nth_error (live s) pos) eqn:E; [| reflexivity].
    apply nth_error_None in Hlen. congruence.
  - simpl. destruct (nth_error (live s) pos) as [x |]; [| reflexivity].
    destruct (body x s) as [t' | e] eqn:E; simpl; [| reflexivity].
    apply IH. apply Hbody in E. lia.
Qed.

(** ** Arrays *)

Lemma nth_error_list_update A (l : list A) (i i' : nat) (v : A) :
  nth_error (Np.list_update l i v) i' =
  if (i =? i')%nat then
    match nth_error l i with Some _ => Some v | None => None end
  else nth_error l i'.
Proof.
  revert i i'. induction l as [| x l IH]; intros [| i] [| i']; simpl;
    try reflexivity.
  - destruct (i =? i'); reflexivity.
  - apply IH.
Qed.

Lemma list_update_same A (l : list A) (i : nat) (v : A) :
  nth_error l i = Some v -> Np.list_update l i v = l.
Proof.
  revert i. induction l as [| x l IH]; intros [| i]; simpl; intro H;
    try discriminate.
  - congruence.
  - rewrite IH; auto.
Qed.

Lemma length_list_update A (l : list A) (i : nat) (v : A) :
  length (Np.list_update l i v) = length l.
Proof.
  revert i. induction l as [| x l IH]; intros [| i]; simpl; auto.
Qed.

Lemma get_in_bounds A (a : Np.ndarray A) (i j : nat) (v : A) :
  Np.get a i j = Ok v -> i < Np.nrows a /\ j < Np.ncols a.
Proof.
  unfold Np.get. intro H.
  destruct (i <? Np.nrows a) eqn:Ei; [| discriminate].
  destruct (j <? Np.ncols a) eqn:Ej; [| discriminate].
  apply Nat.ltb_lt in Ei. apply Nat.ltb_lt in Ej. auto.
Qed.

Lemma set_shape A (a a' : Np.ndarray A) (i j : nat) (v : A) :
  Np.set a i j v = Ok a' ->
  Np.nrows a' = Np.nrows a /\ Np.ncols a' = Np.ncols a.
Proof.
  unfold Np.set. intro H.
  destruct ((i <? Np.nrows a) && (j <? Np.ncols a)); [| discriminate].
  destruct (nth_error (Np.rows a) i); [| discriminate].
  inv_Ok H. simpl. auto.
Qed.

(** Writing a cell leaves every other cell as it was. *)
Lemma get_set_other A (a a' : Np.ndarray A) (i j i' j' : nat) (v : A) :
  Np.set a i j v = Ok a' -> (i, j) <> (i', j') ->
  Np.get a' i' j' = Np.get a i' j'.
Proof.
  unfold Np.set, Np.get. intros H Hne.
  destruct ((i <? Np.nrows a) && (j <? Np.ncols a)); [| discriminate].
  destruct (nth_error (Np.rows a) i) as [row |] eqn:Erow; [| discriminate].
  inv_Ok H. simpl.
  destruct ((i' <? Np.nrows a) && (j' <? Np.ncols a)); [| reflexivity].
  rewrite nth_error_list_update, Erow.
  destruct (i =? i')%nat eqn:Ei.
  - apply Nat.eqb_eq in Ei. subst i'. rewrite Erow.
    unfold list_get. rewrite nth_error_list_update.
    destruct (j =? j')%nat eqn:Ej; [| reflexivity].
    apply Nat.eqb_eq in Ej. subst j'. congruence.
  - reflexivity.
Qed.

Lemma get_tabulate A (r c : nat) (f : nat -> nat -> A) (i j : nat) :
  i < r -> j < c -> Np.get (Np.tabulate r c f) i j = Ok (f i j).
Proof.
  intros Hi Hj. unfold Np.get, Np.tabulate. simpl.
  apply Nat.ltb_lt in Hi as Hi'. apply Nat.ltb_lt in Hj as Hj'.
  rewrite Hi', Hj'. simpl.
  rewrite nth_error_map, nth_error_seq, Hi'. simpl.
  unfold list_get. rewrite nth_error_map, nth_error_seq, Hj'. reflexivity.
Qed.

Lemma get_full A (r c : nat) (v : A) (i j : nat) :
  i < r -> j < c -> Np.get (Np.full r c v) i j = Ok v.
Proof. intros. unfold Np.full. rewrite get_tabulate; auto. Qed.

Lemma get_trunc (a : Np.ndarray Q) (i j : nat) (v : Q) :
  Np.get a i j = Ok v -> Np.get (Np.trunc a) i j = Ok (Np.trunc_float v).
Proof.
  unfold Np.get, Np.trunc. simpl.
  destruct ((i <? Np.nrows a) && (j <? Np.ncols a)); [| discriminate].
  rewrite nth_error_map.
  destruct (nth_error (Np.rows a) i) as [row |]; simpl; [| discriminate].
  unfold list_get. rewrite nth_error_map.
  destruct (nth_error row j); simpl; [| discriminate].
  intro H. inv_Ok H. reflexivity.
Qed.

Lemma in_all_coordinates A (a : Np.ndarray A) (i j : nat) :
  In (i, j) (all_coordinates a) <-> i < Np.nrows a /\ j < Np.ncols a.
Proof.
  unfold all_coordinates. rewrite in_flat_map. split.
  - intros (x & Hx & Hin). apply in_map_iff in Hin.
    destruct Hin as (y & Heq & Hy). injection Heq as -> ->.
    apply in_seq in Hx. apply in_seq in Hy. lia.
  - intros (Hi & Hj). exists i. split.
    + apply in_seq. lia.
    + apply in_map_iff. exists j. split; [reflexivity |]. apply in_seq. lia.
Qed.

(** ** The heightmap: cells that are not seeded stay at zero *)

Section Heightmap_unseeded.

Variable terrain : Np.ndarray TileType.
Variable elevation_symbol : TileType.
Variable elevation : Z.

Lemma zeros_unseeded :
  unseeded_zero terrain elevation_symbol
    (Np.zeros (Np.nrows terrain) (Np.ncols terrain)).
Proof.
  repeat split. intros i j t Hget _.
  apply get_in_bounds in Hget. destruct Hget.
  unfold Np.zeros. apply get_full; assumption.
Qed.

Lemma seed_cell_unseeded (p : nat * nat) (hm hm' : Np.ndarray Q) :
  unseeded_zero terrain elevation_symbol hm ->
  seed_cell terrain elevation_symbol elevation p hm = Ok hm' ->
  unseeded_zero terrain elevation_symbol hm'.
Proof.
  destruct p as [i j]. intros (Hr & Hc & Hz) Hrun. unfold seed_cell in Hrun.
  inv_bind Hrun. destruct (String.eqb x elevation_symbol) eqn:Esym.
  - apply String.eqb_eq in Esym. subst x.
    destruct (set_shape _ _ _ _ _ _ Hrun) as [Hr' Hc'].
    split; [congruence | split; [congruence |]].
    intros i' j' t Hget Hne.
    rewrite (get_set_other _ _ _ _ _ i' j' _ Hrun).
    + eapply Hz; eauto.
    + intro Heq. injection Heq as <- <-. congruence.
  - inv_Ok Hrun. repeat split; auto.
Qed.

(** A cell at zero is skipped by the smoothing loop. *)
Lemma diffuse_cell_unseeded (p : nat * nat) (hm hm' : Np.ndarray Q) :
  unseeded_zero terrain elevation_symbol hm ->
  diffuse_cell p hm = Ok hm' ->
  unseeded_zero terrain elevation_symbol hm'.
Proof.
  destruct p as [i j]. intros (Hr & Hc & Hz) Hrun. unfold diffuse_cell in Hrun.
  inv_bind Hrun. destruct (feq x 0) eqn:Ezero.
  - inv_Ok Hrun. repeat split; auto.
  - inv_bind Hrun.
    destruct (set_shape _ _ _ _ _ _ Hrun) as [Hr' Hc'].
    split; [congruence | split; [congruence |]].
    intros i' j' t Hget Hne.
    rewrite (get_set_other _ _ _ _ _ i' j' _ Hrun).
    + eapply Hz; eauto.
    + intro Heq. injection Heq as <- <-.
      rewrite (Hz _ _ _ Hget Hne) in E. inv_Ok E.
      discriminate Ezero.
Qed.

Lemma trunc_unseeded (hm : Np.ndarray Q) :
  unseeded_zero terrain elevation_symbol hm ->
  unseeded_zero terrain elevation_symbol (Np.trunc hm).
Proof.
  intros (Hr & Hc & Hz). repeat split; auto.
  intros i j t Hget Hne.
  apply (get_trunc _ _ _ _ (Hz _ _ _ Hget Hne)).
Qed.

End Heightmap_unseeded.

(** C10. For every base layer, elevation symbol, elevation and iteration
    count, a heightmap that [_generate_heightmap] returns is zero at every
    cell whose base-layer tile is not the elevation symbol: the smoothing
    loop skips the cells at zero, so the nonzero cells never spread past
    the seeded ones, whatever the number of iterations. *)
Theorem generate_heightmap_unseeded_zero :
  forall (terrain : Np.ndarray TileType) (elevation_symbol : TileType)
         (elevation iterations : Z) (hm : Np.ndarray Q),
    _generate_heightmap terrain elevation_symbol elevation iterations = Ok hm ->
    forall (i j : nat) (t : TileType),
      Np.get terrain i j = Ok t -> t <> elevation_symbol ->
      Np.get hm i j = Ok 0%Q.
Proof.
  intros terrain sym elev iters hm Hrun.
  assert (H : unseeded_zero terrain sym hm).
  { unfold _generate_heightmap in Hrun.
    inv_bind Hrun. inv_bind Hrun. inv_Ok Hrun.
    apply trunc_unseeded.
    eapply for_each_invariant; [| | exact E0].
    - intros n t t' _ Ht Hpass.
      eapply for_each_invariant; [| exact Ht | exact Hpass].
      intros p u u' _. apply diffuse_cell_unseeded.
    - eapply for_each_invariant; [| apply zeros_unseeded | exact E].
      intros p u u' _. apply seed_cell_unseeded. }
  destruct H as (_ & _ & Hz). exact Hz.
Qed.

(** ** Properties of all cells of an array *)

Section All_cells.

Context {A : Type} (P : A -> Prop).

Lemma all_cells_tabulate (r c : nat) (f : nat -> nat -> A) :
  (forall i j, P (f i j)) -> all_cells P (Np.tabulate r c f).
Proof.
  intro H. unfold all_cells, Np.tabulate. simpl.
  apply Forall_forall. intros row Hrow. apply in_map_iff in Hrow.
  destruct Hrow as (i & <- & _). apply Forall_forall. intros v Hv.
  apply in_map_iff in Hv. destruct Hv as (j & <- & _). apply H.
Qed.

Lemma Forall_list_update (Q : A -> Prop) (l : list A) (i : nat) (v : A) :
  Forall Q l -> Q v -> Forall Q (Np.list_update l i v).
Proof.
  intros Hl Hv. revert i. induction Hl as [| x l Hx Hl IH]; intros [| i];
    simpl; auto.
Qed.

Lemma all_cells_get (a : Np.ndarray A) (i j : nat) (v : A) :
  all_cells P a -> Np.get a i j = Ok v -> P v.
Proof.
  unfold all_cells, Np.get. intros Ha H.
  destruct ((i <? Np.nrows a) && (j <? Np.ncols a)); [| discriminate].
  destruct (nth_error (Np.rows a) i) as [row |] eqn:Erow; [| discriminate].
  unfold list_get in H.
  destruct (nth_error row j) as [x |] eqn:Ex; [| discriminate].
  inv_Ok H. apply nth_error_In in Erow, Ex.
  rewrite Forall_forall in Ha. specialize (Ha _ Erow).
  rewrite Forall_forall in Ha. auto.
Qed.

Lemma all_cells_get_all (a : Np.ndarray A) (ps : list (nat * nat)) :
  all_cells P a -> forall vs, get_all a ps = Ok vs -> Forall P vs.
Proof.
  intro Ha. induction ps as [| [i j] ps IH]; simpl; intros vs H.
  - inv_Ok H. constructor.
  - inv_bind H. inv_bind H. inv_Ok H. constructor.
    + eapply all_cells_get; eauto.
    + auto.
Qed.

Lemma all_cells_neighbors (a : Np.ndarray A) (p : nat * nat) (vs : list A) :
  all_cells P a -> _get_neighbor_tiles a p = Ok vs -> Forall P vs.
Proof.
  intros Ha H. destruct p as [i j]. unfold _get_neighbor_tiles in H.
  repeat match type of H with
         | (if ?b then _ else _) = _ => destruct b
         end;
    eapply all_cells_get_all; eauto.
Qed.

End All_cells.

Lemma all_cells_set A (P : A -> Prop) (a a' : Np.ndarray A) (i j : nat) (v : A) :
  all_cells P a -> P v -> Np.set a i j v = Ok a' -> all_cells P a'.
Proof.
  unfold all_cells, Np.set. intros Ha Hv H.
  destruct ((i <? Np.nrows a) && (j <? Np.ncols a)); [| discriminate].
  destruct (nth_error (Np.rows a) i) as [row |] eqn:Erow; [| discriminate].
  inv_Ok H. simpl. apply Forall_list_update; auto.
  apply Forall_list_update; auto.
  apply nth_error_In in Erow. rewrite Forall_forall in Ha. auto.
Qed.

Lemma all_cells_max (P : Q -> Prop) (a : Np.ndarray Q) (top : Q) :
  all_cells P a -> Np.max a = Ok top -> P top.
Proof.
  unfold all_cells, Np.max. intros Ha H.
  assert (Hall : Forall P (concat (Np.rows a))).
  { apply Forall_forall. intros x Hx. apply in_concat in Hx.
    destruct Hx as (row & Hrow & Hx). rewrite Forall_forall in Ha.
    specialize (Ha _ Hrow). rewrite Forall_forall in Ha. auto. }
  destruct (concat (Np.rows a)) as [| x l]; [discriminate |].
  inv_Ok H. inversion Hall as [| ? ? Hx Hl]; subst. clear Hall Ha.
  revert x Hx. induction Hl as [| y l Hy Hl IH]; simpl; intros x Hx; auto.
  apply IH. unfold Np.fmax. destruct (flt x y); assumption.
Qed.

(** ** The heightmap holds non-negative whole numbers *)

Lemma Qnonneg_sum (l : list Q) (acc : Q) :
  (0 <= acc)%Q -> Forall (fun x => 0 <= x)%Q l ->
  (0 <= fold_left Qplus l acc)%Q.
Proof.
  intros Hacc Hl. revert acc Hacc.
  induction Hl as [| x l Hx Hl IH]; simpl; intros acc Hacc; auto.
  apply IH. replace 0%Q with (0 + 0)%Q by reflexivity.
  apply Qplus_le_compat; assumption.
Qed.

Lemma mean_nonneg (values : list Q) :
  Forall (fun x => 0 <= x)%Q values -> (0 <= mean values)%Q.
Proof.
  intro H. unfold mean, Qdiv. apply Qmult_le_0_compat.
  - apply Qnonneg_sum; [apply Qle_refl | exact H].
  - apply Qinv_le_0_compat. unfold Qle. simpl. lia.
Qed.

Lemma trunc_float_whole (x : Q) : (0 <= x)%Q -> whole (Np.trunc_float x).
Proof.
  intro H. exists (Z.quot (Qnum x) (Zpos (Qden x))). split; [reflexivity |].
  apply Z.quot_pos; [| lia]. unfold Qle in H. simpl in H. lia.
Qed.

Lemma trunc_whole (a : Np.ndarray Q) :
  all_cells (fun x => 0 <= x)%Q a -> all_cells whole (Np.trunc a).
Proof.
  unfold all_cells, Np.trunc. simpl. intro H.
  apply Forall_map. eapply Forall_impl; [| exact H].
  intros row Hrow. apply Forall_map. eapply Forall_impl; [| exact Hrow].
  intros x Hx. apply trunc_float_whole. exact Hx.
Qed.

Lemma generate_heightmap_whole (terrain : Np.ndarray TileType)
  (symbol : TileType) (elevation iterations : Z) (hm : Np.ndarray Q) :
  (0 <= elevation)%Z ->
  _generate_heightmap terrain symbol elevation iterations = Ok hm ->
  all_cells whole hm.
Proof.
  intros Helev Hrun. unfold _generate_heightmap in Hrun.
  inv_bind Hrun. inv_bind Hrun. inv_Ok Hrun. apply trunc_whole.
  eapply for_each_invariant; [| | exact E0].
  - intros n t t' _ Ht Hpass.
    eapply for_each_invariant; [| exact Ht | exact Hpass].
    intros [i j] u u' _ Hu Hcell. unfold diffuse_cell in Hcell.
    inv_bind Hcell. destruct (feq x1 0).
    + inv_Ok Hcell. exact Hu.
    + inv_bind Hcell. eapply all_cells_set; [exact Hu | | exact Hcell].
      apply mean_nonneg. apply Forall_app. split.
      * eapply all_cells_neighbors; eauto.
      * constructor; [| constructor]. eapply all_cells_get; eauto.
  - eapply for_each_invariant; [| | exact E].
    + intros [i j] u u' _ Hu Hcell. unfold seed_cell in Hcell.
      inv_bind Hcell. destruct (String.eqb x1 symbol).
      * eapply all_cells_set; [exact Hu | | exact Hcell].
        unfold Qle. simpl. lia.
      * inv_Ok Hcell. exact Hu.
    + unfold Np.zeros, Np.full. apply all_cells_tabulate.
      intros _ _. apply Qle_refl.
Qed.

(** ** Filling a fresh array *)

Lemma fill_row_nth A (g : nat -> result A) :
  forall (js : list nat) (row : list A),
    Np.fill_row g js = Ok row ->
    forall n x, nth_error js n = Some x ->
                exists v, g x = Ok v /\ nth_error row n = Some v.
Proof.
  induction js as [| j js IH]; simpl; intros row H n x Hn.
  - destruct n; discriminate.
  - inv_bind H. inv_bind H. inv_Ok H. destruct n as [| n]; simpl in *.
    + inv_Ok Hn. eauto.
    + eapply IH; eauto.
Qed.

Lemma fill_rows_nth A (f : nat -> nat -> result A) (cjs : list nat) :
  forall (ris : list nat) (rs : list (list A)),
    Np.fill_rows f ris cjs = Ok rs ->
    forall n x, nth_error ris n = Some x ->
                exists row, Np.fill_row (f x) cjs = Ok row /\
                            nth_error rs n = Some row.
Proof.
  induction ris as [| i ris IH]; simpl; intros rs H n x Hn.
  - destruct n; discriminate.
  - inv_bind H. inv_bind H. inv_Ok H. destruct n as [| n]; simpl in *.
    + inv_Ok Hn. eauto.
    + eapply IH; eauto.
Qed.

(** The cells of the filled array are the values the loop body computed. *)
Lemma empty_then_fill_get A (w h : Z) (f : nat -> nat -> result A)
  (a : Np.ndarray A) :
  Np.empty_then_fill w h f = Ok a ->
  forall i j, i < Z.to_nat w -> j < Z.to_nat h ->
              exists v, f i j = Ok v /\ Np.get a i j = Ok v.
Proof.
  unfold Np.empty_then_fill. intros H i j Hi Hj.
  destruct ((w <? 0)%Z || (h <? 0)%Z); [discriminate |].
  inv_bind H. inv_Ok H. unfold range in E.
  destruct (fill_rows_nth _ _ _ _ _ E i i) as (row & Hrow & Hnth).
  { rewrite nth_error_seq. apply Nat.ltb_lt in Hi. rewrite Hi. reflexivity. }
  destruct (fill_row_nth _ _ _ _ Hrow j j) as (v & Hv & Hnthv).
  { rewrite nth_error_seq. apply Nat.ltb_lt in Hj. rewrite Hj. reflexivity. }
  exists v. split; [exact Hv |].
  unfold Np.get. simpl.
  apply Nat.ltb_lt in Hi, Hj. rewrite Hi, Hj. simpl.
  rewrite Hnth. unfold list_get. rewrite Hnthv. reflexivity.
Qed.

Lemma empty_then_fill_shape A (w h : Z) (f : nat -> nat -> result A)
  (a : Np.ndarray A) :
  Np.empty_then_fill w h f = Ok a ->
  Np.shape a = (Z.to_nat w, Z.to_nat h).
Proof.
  unfold Np.empty_then_fill. intro H.
  destruct ((w <? 0)%Z || (h <? 0)%Z); [discriminate |].
  inv_bind H. inv_Ok H. reflexivity.
Qed.

(** ** What [generate_elevation] leaves behind *)

Lemma with_terrain_same (s : Terrain) : with_terrain s (terrain s) = s.
Proof. destruct s; reflexivity. Qed.

Lemma generate_tiles_frame (s s' : Terrain) (tile_images : dict string) :
  generate_tiles s tile_images = Ok s' ->
  exists hp ts, s' = with_selected_tiles (with_tiles s hp ts) [].
Proof.
  unfold generate_tiles. intro H. inv_bind H. inv_Ok H.
  exists (fst (fst x)), (snd (fst x)). destruct s; reflexivity.
Qed.

Lemma drop_elevated_frame (s s' : Terrain) :
  drop_elevated s = Ok s' -> exists ts, s' = with_tiles s (heap s) ts.
Proof.
  unfold drop_elevated.
  apply for_live_invariant
    with (P := fun t => exists ts, t = with_tiles s (heap s) ts).
  - intros x t t' (ts & ->) H. inv_bind H.
    destruct (1 <? tile_elevation x0).
    + inv_bind H. inv_Ok H. exists x1. destruct s; reflexivity.
    + inv_Ok H. exists ts. reflexivity.
  - exists (tiles s). destruct s; reflexivity.
Qed.

Lemma layers_loop (hm : Np.ndarray Q) (symbol : TileType) :
  forall (l : list nat) (s s' : Terrain),
    for_each l
      (fun i s => layer <- elevation_layer s hm symbol i ;;
                  Ok (with_terrain s (terrain s ++ [layer]))) s = Ok s' ->
    exists layers,
      s' = with_terrain s (terrain s ++ layers) /\
      Forall2 (fun i layer => elevation_layer s hm symbol i = Ok layer)
        l layers.
Proof.
  induction l as [| i l IH]; simpl; intros s s' H.
  - inv_Ok H. exists []. rewrite app_nil_r, with_terrain_same. auto.
  - inv_bind H. inv_bind E. inv_Ok E.
    destruct (IH _ _ H) as (layers & -> & Hall).
    exists (x0 :: layers). split.
    + simpl. rewrite <- app_assoc. destruct s; reflexivity.
    + constructor; assumption.
Qed.

(** The anatomy of a call that passes the guards and returns. *)
Lemma generate_elevation_anatomy (s s' : Terrain) (tile_images : dict string)
  (symbol : TileType) :
  elevation_requested s symbol ->
  generate_elevation s tile_images = Ok s' ->
  exists ground hm top layers,
    nth_error (terrain s) 0 = Some ground /\
    _generate_heightmap (base_layer s) symbol (elevation s)
      (elevation_iterations s) = Ok hm /\
    Np.max hm = Ok top /\
    heightmap s' = Some hm /\
    elevation s' = int_of_float top /\
    terrain s' = ground :: layers /\
    Forall2 (fun i layer => elevation_layer s hm symbol i = Ok layer)
      (range (int_of_float top)) layers.
Proof.
  intros (Htiles & Hsym & Hw & Hh & Helev & Hiter) H.
  unfold generate_elevation in H. rewrite Hsym in H.
  destruct (tiles s) as [| t0 ts0] eqn:Ets; [contradiction |].
  apply Z.eqb_neq in Hw, Hh. rewrite Hw, Hh in H. simpl in H.
  assert (Eel : (elevation s <=? 0)%Z = false) by (apply Z.leb_gt; lia).
  assert (Eit : (elevation_iterations s <? 0)%Z = false)
    by (apply Z.ltb_ge; lia).
  rewrite Eel, Eit in H. simpl in H.
  bind_inv H as s1 Edrop. apply drop_elevated_frame in Edrop.
  destruct Edrop as (ts & ->).
  bind_inv H as ground Eground. bind_inv H as hm Ehm.
  bind_inv H as top Etop. bind_inv H as s2 Eloop.
  apply layers_loop in Eloop. destruct Eloop as (layers & -> & Hall).
  apply generate_tiles_frame in H. destruct H as (hp & ts' & ->).
  exists ground, hm, top, layers.
  unfold list_get in Eground.
  destruct (nth_error (terrain (with_tiles s (heap s) ts)) 0) eqn:Eg;
    [| discriminate].
  inv_Ok Eground. destruct s; simpl in *. auto 10.
Qed.

Lemma int_of_float_whole (x : Q) :
  whole x -> (0 <= int_of_float x)%Z /\ x = inject_Z (int_of_float x).
Proof.
  intros (z & -> & Hz). unfold int_of_float. simpl.
  rewrite Z.quot_1_r. auto.
Qed.

(** C6. After a call of [generate_elevation] that passes the guards and
    returns, the stored elevation is the truncated maximum of the final
    heightmap and the terrain stack has one layer more than that maximum:
    the base layer and one layer per level. *)
Theorem generate_elevation_stack_height :
  forall (s s' : Terrain) (tile_images : dict string) (symbol : TileType),
    elevation_requested s symbol ->
    generate_elevation s tile_images = Ok s' ->
    exists hm top,
      heightmap s' = Some hm /\
      _generate_heightmap (base_layer s) symbol (elevation s)
        (elevation_iterations s) = Ok hm /\
      Np.max hm = Ok top /\
      elevation s' = int_of_float top /\
      Z.of_nat (length (terrain s')) = (1 + elevation s')%Z.
Proof.
  intros s s' imgs symbol Hreq Hrun.
  destruct (generate_elevation_anatomy _ _ _ _ Hreq Hrun)
    as (ground & hm & top & layers & _ & Hhm & Htop & Hs' & Hel & Hter & Hall).
  exists hm, top. repeat split; auto.
  destruct Hreq as (_ & _ & _ & _ & Helev & _).
  assert (Hwhole : whole top).
  { eapply all_cells_max; [| exact Htop].
    eapply generate_heightmap_whole; [| exact Hhm]. lia. }
  apply int_of_float_whole in Hwhole. destruct Hwhole as [Hpos _].
  rewrite Hter, Hel. simpl length.
  apply Forall2_length in Hall. rewrite <- Hall.
  unfold range. rewrite length_seq. lia.
Qed.

Lemma Forall2_nth_error_l A B (R : A -> B -> Prop) (l : list A) (l' : list B) :
  Forall2 R l l' ->
  forall n x, nth_error l n = Some x ->
              exists y, nth_error l' n = Some y /\ R x y.
Proof.
  induction 1 as [| a b l l' Hab Hl IH]; intros [| n] x Hn; simpl in *;
    try discriminate.
  - inv_Ok Hn. eauto.
  - eauto.
Qed.

(** On whole numbers, "higher than level [n]" is "at least level [n + 1]". *)
Lemma fgt_whole_level (h : Q) (n : nat) :
  whole h ->
  fgt h (inject_Z (Z.of_nat n)) = Qle_bool (inject_Z (Z.of_nat (S n))) h.
Proof.
  intros (z & -> & _). unfold fgt, flt, Qle_bool, inject_Z.
  cbn [Qnum Qden]. rewrite !Z.mul_1_r.
  destruct (Z.leb_spec z (Z.of_nat n));
    destruct (Z.leb_spec (Z.of_nat (S n)) z); simpl negb; try reflexivity;
    lia.
Qed.

(** C7. After a call of [generate_elevation] that passes the guards and
    returns, with corrected elevation [E], the layer of every level [L] in
    [1..E] holds, at every cell [(row, col)] of the terrain, the elevation
    symbol when [heightmap[row, col] >= L] and EMPTY otherwise.  Hence a
    cell of height 3 is occupied at levels 1, 2 and 3 and empty above, and
    a cell of height 1 is occupied at level 1 only. *)
Theorem generate_elevation_levels :
  forall (s s' : Terrain) (tile_images : dict string) (symbol : TileType),
    elevation_requested s symbol ->
    generate_elevation s tile_images = Ok s' ->
    exists hm,
      heightmap s' = Some hm /\
      forall L row col,
        1 <= L -> (Z.of_nat L <= elevation s')%Z ->
        row < Z.to_nat (terrain_width s) ->
        col < Z.to_nat (terrain_height s) ->
        exists layer h,
          nth_error (terrain s') L = Some layer /\
          Np.get hm row col = Ok h /\
          Np.get layer row col =
            Ok (if Qle_bool (inject_Z (Z.of_nat L)) h then symbol else EMPTY).
Proof.
  intros s s' imgs symbol Hreq Hrun.
  destruct (generate_elevation_anatomy _ _ _ _ Hreq Hrun)
    as (ground & hm & top & layers & _ & Hhm & Htop & Hs' & Hel & Hter & Hall).
  exists hm. split; [exact Hs' |].
  intros L row col HL HLE Hrow Hcol.
  destruct Hreq as (_ & _ & _ & _ & Helev & _).
  assert (Hwhole : all_cells whole hm).
  { eapply generate_heightmap_whole; [| exact Hhm]. lia. }
  destruct L as [| n]; [lia |].
  assert (Hn : nth_error (range (int_of_float top)) n = Some n).
  { unfold range. rewrite nth_error_seq.
    assert (Hlt : n < Z.to_nat (int_of_float top)) by lia.
    apply Nat.ltb_lt in Hlt. rewrite Hlt. reflexivity. }
  destruct (Forall2_nth_error_l _ _ _ _ _ Hall _ _ Hn) as (layer & Hlayer & Hfill).
  unfold elevation_layer in Hfill.
  destruct (empty_then_fill_get _ _ _ _ _ Hfill row col Hrow Hcol)
    as (v & Hv & Hget).
  bind_inv Hv as h Eh. exists layer, h.
  rewrite Hter. simpl nth_error. repeat split; auto.
  rewrite Hget. rewrite <- (fgt_whole_level h n).
  - destruct (fgt h (inject_Z (Z.of_nat n))); congruence.
  - eapply all_cells_get; eauto.
Qed.

(** ** Dictionaries *)

Lemma dict_get_set V (d : dict V) (k k' : string) (v : V) :
  dict_get (dict_set d k v) k' =
  if String.eqb k' k then Ok v else dict_get d k'.
Proof.
  induction d as [| [k0 v0] d IH]; simpl.
  - reflexivity.
  - destruct (String.eqb_spec k k0) as [-> | Hk]; simpl.
    + destruct (String.eqb k' k0); reflexivity.
    + rewrite IH. destruct (String.eqb_spec k' k0) as [-> | Hk'];
        [| reflexivity].
      destruct (String.eqb_spec k0 k); [congruence | reflexivity].
Qed.

Lemma in_keys_get V (d : dict V) (k : string) :
  In k (keys d) <-> exists v, dict_get d k = Ok v.
Proof.
  unfold keys. induction d as [| [k0 v0] d IH]; simpl.
  - split; [contradiction | intros (v & H); discriminate].
  - destruct (String.eqb_spec k k0) as [-> | Hk].
    + split; eauto.
    + rewrite <- IH. split; [intros [H | H]; congruence || auto | auto].
Qed.

Lemma in_keys_set V (d : dict V) (k k' : string) (v : V) :
  In k' (keys (dict_set d k v)) <-> k' = k \/ In k' (keys d).
Proof.
  rewrite !in_keys_get, dict_get_set.
  destruct (String.eqb_spec k' k) as [-> | Hk].
  - split; eauto.
  - split; [auto |]. intros [H | H]; [congruence | exact H].
Qed.

(** ** Smoothing a uniform layer *)

Lemma zero_counts_from (tiles : list TileType) :
  forall (d : dict Z) (t : TileType),
    (In t tiles ->
     dict_get (fold_left (fun d tile_type => dict_set d tile_type 0%Z) tiles d) t
     = Ok 0%Z) /\
    (~ In t tiles ->
     dict_get (fold_left (fun d tile_type => dict_set d tile_type 0%Z) tiles d) t
     = dict_get d t).
Proof.
  induction tiles as [| x tiles IH]; simpl; intros d t.
  - split; [contradiction | reflexivity].
  - destruct (IH (dict_set d x 0%Z) t) as [Hin Hout].
    destruct (in_dec string_dec t tiles) as [Ht | Ht].
    + split; [auto |]. intro H. exfalso. apply H. right. exact Ht.
    + split.
      * intros [-> | H]; [| contradiction].
        rewrite (Hout Ht), dict_get_set, String.eqb_refl. reflexivity.
      * intro H. rewrite (Hout Ht), dict_get_set.
        destruct (String.eqb_spec t x); [| reflexivity].
        subst. exfalso. auto.
Qed.

Lemma zero_counts_get (tiles : list TileType) (t : TileType) :
  (In t tiles -> dict_get (zero_counts tiles) t = Ok 0%Z) /\
  (~ In t tiles -> dict_get (zero_counts tiles) t = Raise (KeyError t)).
Proof. apply (zero_counts_from tiles [] t). Qed.

Section Uniform.

(** The type [T] that every cell holds. *)
Variable T : TileType.

Lemma count_uniform :
  forall (neighbors : list TileType) (d : dict Z) (c : Z),
    Forall (eq T) neighbors -> dict_get d T = Ok c ->
    exists d',
      count_neighbors neighbors d = Ok d' /\
      dict_get d' T = Ok (c + Z.of_nat (length neighbors))%Z /\
      forall t, t <> T -> dict_get d' t = dict_get d t.
Proof.
  unfold count_neighbors.
  induction neighbors as [| n neighbors IH]; intros d c Hall Hc.
  - exists d. simpl. rewrite Z.add_0_r. auto.
  - apply Forall_cons_iff in Hall. destruct Hall as [<- Hrest].
    cbn [for_each]. rewrite Hc. unfold bind at 2. unfold bind at 1.
    destruct (IH (dict_set d T (c + 1)%Z) (c + 1)%Z Hrest) as (d' & Hrun & HT & Hother).
    { rewrite dict_get_set, String.eqb_refl. reflexivity. }
    exists d'. split; [exact Hrun |]. split.
    + rewrite HT. f_equal. cbn [length]. lia.
    + intros t Ht. rewrite (Hother t Ht), dict_get_set.
      destruct (String.eqb_spec t T); [contradiction | reflexivity].
Qed.

(** The scan ends on [T] as soon as [T] is the only type with a positive
    count: before it meets [T] the ties among the zero counts may go
    either way, at [T] the leader becomes [T], and after it no type
    reaches the count of [T]. *)
Lemma scan_uniform (d : dict Z) (k : Z) :
  (0 < k)%Z -> dict_get d T = Ok k ->
  (forall t, In t (keys d) -> t <> T -> dict_get d t = Ok 0%Z) ->
  forall (l : list TileType) (most_frequent : TileType) (r : rng),
    (forall t, In t l -> In t (keys d)) -> In most_frequent (keys d) ->
    exists most_frequent' r',
      for_each l (scan_step d) (most_frequent, r) = Ok (most_frequent', r') /\
      In most_frequent' (keys d) /\
      (In T l \/ most_frequent = T -> most_frequent' = T).
Proof.
  intros Hk HT Hother.
  assert (HTin : In T (keys d)) by (apply in_keys_get; eauto).
  induction l as [| x l IH]; intros mf r Hl Hmf.
  - exists mf, r. simpl. repeat split; auto. intros [[] | H]; exact H.
  - assert (Hx : In x (keys d)) by (apply Hl; left; reflexivity).
    assert (Hl' : forall t, In t l -> In t (keys d))
      by (intros t Ht; apply Hl; right; exact Ht).
    cbn [for_each]. unfold scan_step at 1.
    destruct (string_dec x T) as [-> | HxT];
      destruct (string_dec mf T) as [-> | HmfT].
    + rewrite HT. unfold bind at 2 3. rewrite Z.gtb_ltb, Z.ltb_irrefl, Z.eqb_refl.
      destruct (random r) as [u r']. 
      destruct (IH T r' Hl' HTin) as (mf' & r'' & Hrun & Hin & Hend).
      exists mf', r''. repeat split; auto.
      destruct (fgt u (1 # 2)); exact Hrun.
    + rewrite HT, (Hother mf Hmf HmfT). unfold bind at 2 3.
      assert (E : (k >? 0)%Z = true) by (apply Z.gtb_lt; exact Hk).
      rewrite E.
      destruct (IH T r Hl' HTin) as (mf' & r'' & Hrun & Hin & Hend).
      exists mf', r''. repeat split; auto.
    + rewrite HT, (Hother x Hx HxT). unfold bind at 2 3.
      assert (E1 : (0 >? k)%Z = false) by (rewrite Z.gtb_ltb; apply Z.ltb_ge; lia).
      assert (E2 : (0 =? k)%Z = false) by (apply Z.eqb_neq; lia).
      rewrite E1, E2.
      destruct (IH T r Hl' HTin) as (mf' & r'' & Hrun & Hin & Hend).
      exists mf', r''. repeat split; auto.
    + rewrite (Hother x Hx HxT), (Hother mf Hmf HmfT). unfold bind at 2 3.
      change (0 >? 0)%Z with false. change (0 =? 0)%Z with true.
      destruct (random r) as [u r'].
      destruct (fgt u (1 # 2)).
      * destruct (IH x r' Hl' Hx) as (mf' & r'' & Hrun & Hin & Hend).
        exists mf', r''. repeat split; auto.
        intros [[H | H] | H]; try congruence. apply Hend. left. exact H.
      * destruct (IH mf r' Hl' Hmf) as (mf' & r'' & Hrun & Hin & Hend).
        exists mf', r''. repeat split; auto.
        intros [[H | H] | H]; try congruence. apply Hend. left. exact H.
Qed.

(** Whatever the coin flips, the majority among neighbours that all hold
    [T] is [T]. *)
Lemma set_to_neighbor_type_uniform (neighbors tile_types : list TileType)
  (r : rng) :
  Forall (eq T) neighbors -> neighbors <> [] -> In T tile_types ->
  exists r', _set_to_neighbor_type neighbors tile_types r = Ok (T, r').
Proof.
  intros Hall Hne HT. unfold _set_to_neighbor_type.
  destruct (zero_counts_get tile_types T) as [Hzero _].
  destruct (count_uniform neighbors (zero_counts tile_types) 0 Hall (Hzero HT))
    as (d & Hcount & HdT & Hother).
  rewrite Hcount. unfold bind at 1.
  assert (Hk : (0 < 0 + Z.of_nat (length neighbors))%Z).
  { destruct neighbors; [contradiction | cbn [length]; lia]. }
  assert (HTin : In T (keys d)) by (apply in_keys_get; eauto).
  destruct (keys d) as [| first rest] eqn:Ekeys; [contradiction |].
  cbn [list_get nth_error]. unfold bind at 1. unfold scan_most_frequent.
  destruct (scan_uniform d _ Hk HdT) with (l := keys d)
    (most_frequent := first) (r := r) as (mf' & r' & Hrun & _ & Hend).
  - intros t Ht HtT. rewrite (Hother t HtT).
    apply in_keys_get in Ht. destruct Ht as (v & Hv).
    rewrite (Hother t HtT) in Hv.
    destruct (in_dec string_dec t tile_types) as [Hin | Hout].
    + apply (zero_counts_get tile_types t). exact Hin.
    + apply (zero_counts_get tile_types t) in Hout. congruence.
  - auto.
  - rewrite Ekeys. left. reflexivity.
  - exists r'.
    assert (Hmf : mf' = T) by (apply Hend; left; rewrite Ekeys; exact HTin).
    rewrite Hmf in Hrun. exact Hrun.
Qed.

End Uniform.

Section Uniform_layer.

Variable T : TileType.
Variables r c : nat.
Hypothesis rows_ge_2 : 2 <= r.
Hypothesis cols_ge_2 : 2 <= c.

Lemma get_all_full (ps : list (nat * nat)) :
  Forall (fun p => fst p < r /\ snd p < c) ps ->
  get_all (Np.full r c T) ps = Ok (map (fun _ => T) ps).
Proof.
  induction 1 as [| [i j] ps [Hi Hj] Hps IH]; simpl.
  - reflexivity.
  - simpl in Hi, Hj. rewrite get_full, IH by assumption. reflexivity.
Qed.

Ltac uniform_neighbors :=
  rewrite get_all_full;
  [ eexists; split; [reflexivity | split; [repeat constructor | discriminate]]
  | repeat constructor; simpl; lia ].

(** Every cell of a uniform layer with two rows and two columns at least
    has neighbours, and they all hold [T]. *)
Lemma neighbors_uniform (i j : nat) :
  i < r -> j < c ->
  exists vs, _get_neighbor_tiles (Np.full r c T) (i, j) = Ok vs /\
             Forall (eq T) vs /\ vs <> [].
Proof.
  intros Hi Hj. unfold _get_neighbor_tiles.
  change (Np.nrows (Np.full r c T)) with r.
  change (Np.ncols (Np.full r c T)) with c.
  destruct (Z.eqb_spec (Z.of_nat i) 0);
    [| destruct (Z.eqb_spec (Z.of_nat i) (Z.of_nat r - 1))];
    (destruct (Z.eqb_spec (Z.of_nat j) 0);
     [| destruct (Z.eqb_spec (Z.of_nat j) (Z.of_nat c - 1))]);
    uniform_neighbors.
Qed.

Lemma set_full_same (i j : nat) :
  i < r -> j < c -> Np.set (Np.full r c T) i j T = Ok (Np.full r c T).
Proof.
  intros Hi Hj. unfold Np.set, Np.full, Np.tabulate. simpl.
  apply Nat.ltb_lt in Hi as Hi'. apply Nat.ltb_lt in Hj as Hj'.
  rewrite Hi', Hj'. simpl.
  rewrite nth_error_map, nth_error_seq, Hi'. simpl.
  rewrite (list_update_same _ (map (fun _ => T) (seq 0 c)) j T).
  - rewrite list_update_same; [reflexivity |].
    rewrite nth_error_map, nth_error_seq, Hi'. reflexivity.
  - rewrite nth_error_map, nth_error_seq, Hj'. reflexivity.
Qed.

Lemma smooth_cell_uniform (tile_types : list TileType) (p : nat * nat)
  (rnd : rng) :
  In T tile_types -> fst p < r -> snd p < c ->
  exists rnd',
    smooth_cell tile_types p (Np.full r c T, rnd) = Ok (Np.full r c T, rnd').
Proof.
  destruct p as [i j]. cbn [fst snd]. intros HT Hi Hj. unfold smooth_cell.
  destruct (neighbors_uniform i j Hi Hj) as (vs & Hvs & Hall & Hne).
  rewrite Hvs. unfold bind at 1.
  destruct (set_to_neighbor_type_uniform T vs tile_types rnd Hall Hne HT)
    as (rnd' & Hset).
  rewrite Hset. unfold bind at 1. simpl fst. simpl snd.
  rewrite set_full_same by assumption. exists rnd'. reflexivity.
Qed.

(** The smoothing loop over any list of cells of the layer, in any order
    and with any random draws, leaves the uniform layer as it is. *)
Lemma smooth_loop_uniform (tile_types : list TileType) :
  In T tile_types ->
  forall (cells : list (nat * nat)) (rnd : rng),
    Forall (fun p => fst p < r /\ snd p < c) cells ->
    exists rnd',
      for_each cells (smooth_cell tile_types) (Np.full r c T, rnd)
      = Ok (Np.full r c T, rnd').
Proof.
  intros HT. induction cells as [| p cells IH]; intros rnd Hcells.
  - exists rnd. reflexivity.
  - apply Forall_cons_iff in Hcells. destruct Hcells as [[Hi Hj] Hcells].
    destruct (smooth_cell_uniform tile_types p rnd HT Hi Hj) as (rnd1 & H1).
    cbn [for_each]. rewrite H1. unfold bind at 1. apply IH. exact Hcells.
Qed.

End Uniform_layer.

(** C9. One smoothing pass over a base layer whose cells all hold the same
    type [T], with two rows and two columns at least and [T] among the
    supplied tile types, leaves the layer unchanged, for every order the
    shuffle may produce and every outcome of the random tie-breaks: the
    loop of the pass runs to its end on the unchanged layer, and the layer
    of any state the method returns is the layer it started from. *)
Theorem smooth_base_layer_uniform_noop :
  forall (s : Terrain) (T : TileType) (r c : nat)
         (tile_types : list TileType) (tile_images : dict string)
         (shuffle : list (nat * nat) -> list (nat * nat)) (rnd : rng),
    base_layer s = Np.full r c T ->
    2 <= r -> 2 <= c ->
    In T tile_types ->
    (forall l, Permutation l (shuffle l)) ->
    (exists rnd',
        for_each (_generate_unchecked_tiles (base_layer s) shuffle)
          (smooth_cell tile_types) (base_layer s, rnd)
        = Ok (base_layer s, rnd')) /\
    (forall s',
        smooth_base_layer s tile_types tile_images shuffle rnd = Ok s' ->
        base_layer s' = base_layer s).
Proof.
  intros s T r c tile_types imgs shuffle rnd Hbase Hr Hc HT Hperm.
  assert (Hloop : exists rnd',
             for_each (_generate_unchecked_tiles (base_layer s) shuffle)
               (smooth_cell tile_types) (base_layer s, rnd)
             = Ok (base_layer s, rnd')).
  { rewrite Hbase. apply smooth_loop_uniform; auto.
    apply Forall_forall. intros [i j] Hin. unfold _generate_unchecked_tiles in Hin.
    apply (Permutation_in _ (Permutation_sym (Hperm _))) in Hin.
    apply in_all_coordinates in Hin. exact Hin. }
  split; [exact Hloop |].
  intros s' Hrun. unfold smooth_base_layer in Hrun.
  destruct (tiles s); [inv_Ok Hrun; reflexivity |].
  destruct ((terrain_width s =? 1)%Z || (terrain_height s =? 1)%Z);
    [inv_Ok Hrun; reflexivity |].
  destruct Hloop as (rnd' & Hloop). rewrite Hloop in Hrun.
  unfold bind in Hrun. simpl fst in Hrun.
  apply generate_tiles_frame in Hrun. destruct Hrun as (hp & ts & ->).
  destruct s; reflexivity.
Qed.

(** ** Building the tile list *)

(** [generate_tiles] returns when every cell it visits exists and is
    either empty or of a type that has an image. *)
Lemma generate_tiles_returns (s : Terrain) (tile_images : dict string) :
  (forall i j k,
      i < length (terrain s) ->
      j < Z.to_nat (terrain_width s) -> k < Z.to_nat (terrain_height s) ->
      exists layer t,
        nth_error (terrain s) i = Some layer /\
        Np.get layer j k = Ok t /\
        (t = EMPTY \/ exists path, dict_get tile_images t = Ok path)) ->
  exists s', generate_tiles s tile_images = Ok s'.
Proof.
  intro Hcells. unfold generate_tiles.
  apply bind_returns; [| eauto].
  apply for_each_returns. intros i [objs off] Hi. apply in_seq in Hi.
  apply bind_returns; [| eauto].
  apply for_each_returns. intros j st Hj. apply in_seq in Hj.
  apply for_each_returns. intros k st' Hk. apply in_seq in Hk.
  destruct (Hcells i j k) as (layer & t & Hlayer & Ht & Himg);
    [simpl in *; lia .. |].
  unfold make_tile, list_get. simpl terrain. rewrite Hlayer. unfold bind at 1.
  rewrite Ht. unfold bind at 1.
  destruct (String.eqb_spec t EMPTY) as [| Hne]; [eauto |].
  destruct Himg as [| (path & Hpath)]; [contradiction |].
  rewrite Hpath. unfold bind at 1.
  destruct (_cart_to_iso _ _). eauto.
Qed.

(** ** Base-layer generation on a degenerate probability table *)

Lemma fill_row_map A (g : nat -> result A) (v : nat -> A) (js : list nat) :
  (forall j, In j js -> g j = Ok (v j)) ->
  Np.fill_row g js = Ok (map v js).
Proof.
  induction js as [| j js IH]; simpl; intro H; [reflexivity |].
  rewrite (H j), IH by auto. reflexivity.
Qed.

Lemma fill_rows_map A (f : nat -> nat -> result A) (v : nat -> nat -> A)
  (ris cjs : list nat) :
  (forall i j, In i ris -> In j cjs -> f i j = Ok (v i j)) ->
  Np.fill_rows f ris cjs = Ok (map (fun i => map (v i) cjs) ris).
Proof.
  induction ris as [| i ris IH]; simpl; intro H; [reflexivity |].
  rewrite (fill_row_map _ (f i) (v i)), IH by auto. reflexivity.
Qed.

Lemma empty_then_fill_tabulate A (w h : Z) (f : nat -> nat -> result A)
  (v : nat -> nat -> A) :
  (0 <= w)%Z -> (0 <= h)%Z ->
  (forall i j, i < Z.to_nat w -> j < Z.to_nat h -> f i j = Ok (v i j)) ->
  Np.empty_then_fill w h f = Ok (Np.tabulate (Z.to_nat w) (Z.to_nat h) v).
Proof.
  intros Hw Hh H. unfold Np.empty_then_fill.
  apply Z.ltb_ge in Hw, Hh. rewrite Hw, Hh. simpl orb.
  rewrite (fill_rows_map _ f v).
  - reflexivity.
  - intros i j Hi Hj. apply in_seq in Hi, Hj. apply H; lia.
Qed.

Lemma Forall_dict_set V (P : V -> Prop) (d : dict V) (k : string) (v : V) :
  Forall (fun item => P (snd item)) d -> P v ->
  Forall (fun item => P (snd item)) (dict_set d k v).
Proof.
  intros Hd Hv. induction Hd as [| [k0 v0] d H0 Hd IH]; simpl.
  - constructor; [exact Hv | constructor].
  - destruct (String.eqb k k0); constructor; auto.
Qed.

Lemma dict_get_Forall V (P : V -> Prop) (d : dict V) (k : string) (v : V) :
  Forall (fun item => P (snd item)) d -> dict_get d k = Ok v -> P v.
Proof.
  induction 1 as [| [k0 v0] d H0 Hd IH]; simpl; intro H; [discriminate |].
  destruct (String.eqb k k0); [inv_Ok H; exact H0 | auto].
Qed.

Section Degenerate.

Variable tile_probabilities : dict Q.
Hypothesis all_zero :
  Forall (fun item => snd item == 0)%Q tile_probabilities.

Lemma accumulate_zero :
  Forall (fun item => snd item == 0)%Q
    (_accumulate_probabilities tile_probabilities).
Proof.
  unfold _accumulate_probabilities.
  assert (H : forall (l : dict Q) (st : Q * dict Q),
             Forall (fun item => snd item == 0)%Q l ->
             (fst st == 0)%Q ->
             Forall (fun item => snd item == 0)%Q (snd st) ->
             Forall (fun item => snd item == 0)%Q
               (snd (fold_left
                       (fun (st : Q * dict Q) (item : string * Q) =>
                          let accum_probability := (fst st + snd item)%Q in
                          (accum_probability,
                           dict_set (snd st) (fst item) accum_probability))
                       l st))).
  { induction l as [| item l IH]; intros st Hl Hacc Hcum; simpl; [exact Hcum |].
    apply Forall_cons_iff in Hl. destruct Hl as [Hitem Hl].
    assert (Hsum : (fst st + snd item == 0)%Q)
      by (rewrite Hacc, Hitem; reflexivity).
    apply IH; simpl; auto.
    apply (Forall_dict_set Q (fun v => v == 0)%Q); assumption. }
  apply H; [exact all_zero | reflexivity | constructor].
Qed.

(** No accumulated probability exceeds a draw, which is never negative. *)
Lemma assign_tile_zero (number : Q) (accum : dict Q) :
  Forall (fun item => snd item == 0)%Q accum -> (0 <= number)%Q ->
  _assign_tile number accum = None.
Proof.
  intros Hacc Hnum. induction Hacc as [| [k v] accum Hv Hacc IH]; simpl;
    [reflexivity |].
  simpl in Hv. unfold flt.
  assert (E : Qle_bool v number = true)
    by (apply Qle_bool_iff; rewrite Hv; exact Hnum).
  rewrite E. simpl. exact IH.
Qed.

(** The fallback never leaves its starting candidate ["1"]: no weight is
    greater than the weight of ["1"]. *)
Lemma most_probable_zero :
  tile_probabilities = [] \/ In "1"%string (keys tile_probabilities) ->
  most_probable_tile_type tile_probabilities = Ok "1"%string.
Proof.
  intros [-> | Hone]; [reflexivity |].
  unfold most_probable_tile_type.
  apply in_keys_get in Hone. destruct Hone as (p1 & Hp1).
  assert (H : forall l : dict Q,
             (forall item, In item l -> In item tile_probabilities) ->
             for_each l
               (fun (item : string * Q) most_probable_tile_type =>
                  pk <- dict_get tile_probabilities (fst item) ;;
                  pm <- dict_get tile_probabilities most_probable_tile_type ;;
                  if fgt pk pm then Ok (fst item)
                  else Ok most_probable_tile_type)
               "1"%string = Ok "1"%string).
  { induction l as [| item l IH]; intro Hl; [reflexivity |].
    cbn [for_each].
    assert (Hitem : In (fst item) (keys tile_probabilities))
      by (apply in_map; apply Hl; left; reflexivity).
    apply in_keys_get in Hitem. destruct Hitem as (pk & Hpk).
    rewrite Hpk, Hp1. unfold bind at 2 3.
    apply (dict_get_Forall Q (fun v => v == 0)%Q) in Hpk, Hp1; try exact all_zero.
    unfold fgt, flt.
    assert (E : Qle_bool pk p1 = true)
      by (apply Qle_bool_iff; rewrite Hpk, Hp1; apply Qle_refl).
    rewrite E. simpl negb. cbv iota. unfold bind at 1.
    apply IH. intros it Hit. apply Hl. right. exact Hit. }
  apply H. auto.
Qed.

End Degenerate.

(** C4 (as amended). On a degenerate probability table (no entry, or all
    weights zero) that is empty or has the key ["1"], base-layer
    generation raises nothing: with non-negative terrain sizes, draws that
    are not negative and an image for ["1"], it returns with every cell of
    the base layer set to ["1"]. *)
Theorem generate_base_layer_degenerate :
  forall (s : Terrain) (tile_probabilities : dict Q)
         (tile_images : dict string) (seed : nat -> nat -> Q) (path : string),
    Forall (fun item => snd item == 0)%Q tile_probabilities ->
    tile_probabilities = [] \/ In "1"%string (keys tile_probabilities) ->
    (0 <= terrain_width s)%Z -> (0 <= terrain_height s)%Z ->
    (forall i j, 0 <= seed i j)%Q ->
    dict_get tile_images "1"%string = Ok path ->
    exists s',
      generate_base_layer s tile_probabilities tile_images seed = Ok s' /\
      base_layer s' = Np.full (Z.to_nat (terrain_width s))
                        (Z.to_nat (terrain_height s)) "1"%string /\
      terrain s' = [base_layer s'].
Proof.
  intros s probs imgs seed path Hzero Hone Hw Hh Hseed Himg.
  unfold generate_base_layer.
  assert (Ew : (terrain_width s <? 0)%Z = false) by (apply Z.ltb_ge; exact Hw).
  assert (Eh : (terrain_height s <? 0)%Z = false) by (apply Z.ltb_ge; exact Hh).
  rewrite Ew, Eh. simpl orb. cbv iota.
  rewrite (empty_then_fill_tabulate _ _ _ _ (fun _ _ => "1"%string) Hw Hh).
  - unfold bind at 1. fold (Np.full (Z.to_nat (terrain_width s))
                              (Z.to_nat (terrain_height s)) "1"%string).
    destruct (generate_tiles_returns
                (with_terrain
                   (with_base_layer s
                      (Np.full (Z.to_nat (terrain_width s))
                         (Z.to_nat (terrain_height s)) "1"%string))
                   [Np.full (Z.to_nat (terrain_width s))
                      (Z.to_nat (terrain_height s)) "1"%string])
                imgs) as (s' & Hs').
    + intros i j k Hi Hj Hk. simpl in Hi, Hj, Hk.
      assert (i = 0) by lia. subst i.
      eexists. exists "1"%string. split; [reflexivity |]. split.
      * apply get_full; assumption.
      * right. exists path. exact Himg.
    + exists s'. split; [exact Hs' |].
      apply generate_tiles_frame in Hs'. destruct Hs' as (hp & ts & ->).
      split; reflexivity.
  - intros i j _ _. unfold base_layer_cell.
    rewrite (assign_tile_zero (seed i j) _ (accumulate_zero probs Hzero) (Hseed i j)).
    apply most_probable_zero; assumption.
Qed.

(** ** Base-layer generation on a negative terrain size *)

(** C5 (as amended). When the terrain width or the terrain height is
    negative, [generate_base_layer] is a complete no-op: it returns with
    the terrain object exactly as it was. *)
Theorem generate_base_layer_negative_noop :
  forall (s : Terrain) (tile_probabilities : dict Q)
         (tile_images : dict string) (seed : nat -> nat -> Q),
    (terrain_width s < 0)%Z \/ (terrain_height s < 0)%Z ->
    generate_base_layer s tile_probabilities tile_images seed = Ok s.
Proof.
  intros s probs imgs seed Hneg. unfold generate_base_layer.
  destruct (Z.ltb_spec (terrain_height s) 0) as [Hh | Hh]; [reflexivity |].
  destruct (Z.ltb_spec (terrain_width s) 0) as [Hw | Hw]; [reflexivity |].
  lia.
Qed.

(** ** The loops over live lists have fuel enough *)

Lemma list_remove_length (x : ref) :
  forall l l', list_remove x l = Ok l' -> S (length l') = length l.
Proof.
  induction l as [| y l IH]; simpl; intros l' H; [discriminate |].
  destruct (x =? y).
  - inv_Ok H. reflexivity.
  - bind_inv H as rest Erest. inv_Ok H. simpl. rewrite (IH _ Erest).
    reflexivity.
Qed.

Lemma remove_matching_selected (t : Tile) (s s' : Terrain) :
  remove_matching t s = Ok s' -> selected_tiles s' = selected_tiles s.
Proof.
  unfold remove_matching.
  apply for_live_invariant
    with (P := fun u => selected_tiles u = selected_tiles s);
    [| reflexivity].
  intros x u u' Hu H. bind_inv H as t2 Et2.
  destruct ((fst (index t) =? fst (index t2))
            && (snd (index t) =? snd (index t2))
            && (tile_elevation t =? tile_elevation t2)).
  - bind_inv H as ts Ets. inv_Ok H. exact Hu.
  - inv_Ok H. exact Hu.
Qed.

Lemma delete_selected_shrinks (x : ref) (t t' : Terrain) :
  delete_selected x t = Ok t' ->
  length (selected_tiles t') <= length (selected_tiles t).
Proof.
  unfold delete_selected. intro H. bind_inv H as tile Etile.
  destruct (1 <? tile_elevation tile).
  - bind_inv H as t1 Et1. bind_inv H as layer Elayer.
    bind_inv H as layer' Elayer'. bind_inv H as sel Esel. inv_Ok H.
    apply remove_matching_selected in Et1.
    apply list_remove_length in Esel. simpl in *. rewrite Et1 in Esel.
    unfold ref in *. lia.
  - inv_Ok H. lia.
Qed.

(** More rounds than [delete_tiles] allows itself change nothing: its loop
    ends because the iterator is exhausted. *)
Lemma delete_tiles_fuel (s : Terrain) (extra : nat) :
  for_live (length (selected_tiles s) + extra) 0 selected_tiles
    delete_selected s
  = delete_tiles s KeyDownDelete.
Proof.
  unfold delete_tiles. apply for_live_fuel.
  - exact delete_selected_shrinks.
  - lia.
Qed.

Lemma drop_elevated_fuel (s : Terrain) (extra : nat) :
  for_live (length (tiles s) + extra) 0 tiles
    (fun tile s =>
       t <- deref (heap s) tile ;;
       if 1 <? tile_elevation t then
         ts <- list_remove tile (tiles s) ;; Ok (with_tiles s (heap s) ts)
       else Ok s)
    s
  = drop_elevated s.
Proof.
  unfold drop_elevated. apply for_live_fuel; [| lia].
  intros x t t' H. bind_inv H as tile Etile.
  destruct (1 <? tile_elevation tile).
  - bind_inv H as ts Ets. inv_Ok H. apply list_remove_length in Ets.
    simpl. unfold ref in *. lia.
  - inv_Ok H. lia.
Qed.

(** ** The heightmap of a layer with two rows and two columns at least *)

Lemma tabulate_wf A (r c : nat) (f : nat -> nat -> A) :
  Np.wf (Np.tabulate r c f).
Proof.
  unfold Np.wf, Np.tabulate. simpl. split.
  - rewrite length_map, length_seq. reflexivity.
  - apply Forall_forall. intros row Hrow. apply in_map_iff in Hrow.
    destruct Hrow as (i & <- & _). rewrite length_map, length_seq.
    reflexivity.
Qed.

Lemma wf_row A (a : Np.ndarray A) (i : nat) :
  Np.wf a -> i < Np.nrows a ->
  exists row, nth_error (Np.rows a) i = Some row /\ length row = Np.ncols a.
Proof.
  intros [Hlen Hrows] Hi.
  destruct (nth_error (Np.rows a) i) as [row |] eqn:E.
  - exists row. split; [reflexivity |].
    apply nth_error_In in E. rewrite Forall_forall in Hrows. auto.
  - apply nth_error_None in E. lia.
Qed.

Lemma get_returns A (a : Np.ndarray A) (i j : nat) :
  Np.wf a -> i < Np.nrows a -> j < Np.ncols a ->
  exists v, Np.get a i j = Ok v.
Proof.
  intros Hwf Hi Hj. unfold Np.get.
  destruct (wf_row A a i Hwf Hi) as (row & Hrow & Hlen).
  apply Nat.ltb_lt in Hi as Hi'. apply Nat.ltb_lt in Hj as Hj'.
  rewrite Hi', Hj', Hrow. simpl. unfold list_get.
  destruct (nth_error row j) as [v |] eqn:E; [eauto |].
  apply nth_error_None in E. lia.
Qed.

Lemma set_returns A (a : Np.ndarray A) (i j : nat) (v : A) :
  Np.wf a -> i < Np.nrows a -> j < Np.ncols a ->
  exists a', Np.set a i j v = Ok a' /\ Np.wf a' /\
             Np.nrows a' = Np.nrows a /\ Np.ncols a' = Np.ncols a.
Proof.
  intros Hwf Hi Hj. unfold Np.set.
  destruct (wf_row A a i Hwf Hi) as (row & Hrow & Hlen).
  apply Nat.ltb_lt in Hi as Hi'. apply Nat.ltb_lt in Hj as Hj'.
  rewrite Hi', Hj', Hrow. simpl. eexists. split; [reflexivity |].
  destruct Hwf as [Hrows Hall]. unfold Np.wf. simpl.
  repeat split; auto.
  - rewrite length_list_update. exact Hrows.
  - apply Forall_list_update; [exact Hall |].
    rewrite length_list_update. exact Hlen.
Qed.

Lemma get_all_returns A (a : Np.ndarray A) (ps : list (nat * nat)) :
  Np.wf a ->
  Forall (fun p => fst p < Np.nrows a /\ snd p < Np.ncols a) ps ->
  exists vs, get_all a ps = Ok vs.
Proof.
  intros Hwf. induction 1 as [| [i j] ps [Hi Hj] Hps (vs & IH)]; simpl.
  - eauto.
  - simpl in Hi, Hj. destruct (get_returns A a i j Hwf Hi Hj) as (v & Hv).
    rewrite Hv, IH. unfold bind. eauto.
Qed.

Lemma neighbors_return A (a : Np.ndarray A) (i j : nat) :
  Np.wf a -> 2 <= Np.nrows a -> 2 <= Np.ncols a ->
  i < Np.nrows a -> j < Np.ncols a ->
  exists vs, _get_neighbor_tiles a (i, j) = Ok vs.
Proof.
  intros Hwf Hr Hc Hi Hj. unfold _get_neighbor_tiles.
  destruct (Z.eqb_spec (Z.of_nat i) 0);
    [| destruct (Z.eqb_spec (Z.of_nat i) (Z.of_nat (Np.nrows a) - 1))];
    (destruct (Z.eqb_spec (Z.of_nat j) 0);
     [| destruct (Z.eqb_spec (Z.of_nat j) (Z.of_nat (Np.ncols a) - 1))]);
    (apply get_all_returns; [exact Hwf | repeat constructor; simpl; lia]).
Qed.

(** On a well-formed layer with two rows and two columns at least,
    [_generate_heightmap] returns, whatever the symbol, the elevation and
    the number of iterations. *)
Lemma generate_heightmap_returns (terrain : Np.ndarray TileType)
  (symbol : TileType) (elevation iterations : Z) :
  Np.wf terrain -> 2 <= Np.nrows terrain -> 2 <= Np.ncols terrain ->
  exists hm,
    _generate_heightmap terrain symbol elevation iterations = Ok hm /\
    Np.wf hm /\ Np.nrows hm = Np.nrows terrain /\
    Np.ncols hm = Np.ncols terrain.
Proof.
  intros Hwf Hr Hc. unfold _generate_heightmap.
  pose (P := fun hm : Np.ndarray Q =>
               Np.wf hm /\ Np.nrows hm = Np.nrows terrain /\
               Np.ncols hm = Np.ncols terrain).
  destruct (for_each_total _ _ P
              (seed_cell terrain symbol elevation)
              (all_coordinates terrain)
              (Np.zeros (Np.nrows terrain) (Np.ncols terrain)))
    as (seeded & Hseeded & HP).
  { intros [i j] hm Hin (Hhm & Hrows & Hcols).
    apply in_all_coordinates in Hin. destruct Hin as [Hi Hj].
    unfold seed_cell.
    destruct (get_returns _ terrain i j Hwf Hi Hj) as (t & Ht).
    rewrite Ht. unfold bind. destruct (String.eqb t symbol).
    - destruct (set_returns _ hm i j (inject_Z elevation) Hhm)
        as (hm' & Hset & Hwf' & Hr' & Hc'); try lia.
      exists hm'. split; [exact Hset |]. unfold P. repeat split; try lia.
      + apply Hwf'.
      + apply Hwf'.
    - exists hm. split; [reflexivity |]. unfold P. auto. }
  { unfold P, Np.zeros, Np.full. split; [apply tabulate_wf | auto]. }
  rewrite Hseeded. unfold bind at 1.
  destruct (for_each_total _ _ P
              (fun (_ : nat) hm =>
                 for_each (all_coordinates terrain) diffuse_cell hm)
              (range iterations) seeded) as (smoothed & Hsmoothed & Hfinal).
  { intros n hm _ Hhm. apply for_each_total; [| exact Hhm].
    intros [i j] u Hin (Hu & Hrows & Hcols).
    apply in_all_coordinates in Hin. destruct Hin as [Hi Hj].
    unfold diffuse_cell.
    destruct (get_returns _ u i j Hu) as (v & Hv); try lia.
    rewrite Hv. unfold bind at 1. destruct (feq v 0).
    - exists u. split; [reflexivity |]. unfold P. auto.
    - destruct (neighbors_return _ u i j Hu) as (vs & Hvs); try lia.
      rewrite Hvs. unfold bind at 1.
      destruct (set_returns _ u i j (mean (vs ++ [v])) Hu)
        as (u' & Hset & Hwf' & Hr' & Hc'); try lia.
      exists u'. split; [exact Hset |]. unfold P. repeat split; try lia.
      + apply Hwf'.
      + apply Hwf'. }
  { exact HP. }
  rewrite Hsmoothed. unfold bind. eexists. split; [reflexivity |].
  destruct Hfinal as ((Hlen & Hall) & Hrows & Hcols).
  unfold Np.wf, Np.trunc. simpl. repeat split; auto.
  - rewrite length_map. exact Hlen.
  - apply Forall_map. eapply Forall_impl; [| exact Hall].
    intros row Hrow. rewrite length_map. exact Hrow.
Qed.

(** ** [generate_elevation] returns on a consistent terrain *)

Lemma list_remove_returns (x : ref) :
  forall l, In x l ->
            exists l', list_remove x l = Ok l' /\ forall y, In y l' -> In y l.
Proof.
  induction l as [| y l IH]; simpl; intro Hin; [contradiction |].
  destruct (Nat.eqb_spec x y) as [-> | Hne].
  - exists l. split; [reflexivity | auto].
  - destruct Hin as [Heq | Hin]; [congruence |].
    destruct (IH Hin) as (l' & Hl' & Hsub). rewrite Hl'. unfold bind.
    exists (y :: l'). split; [reflexivity |].
    intros z [Hz | Hz]; [left; exact Hz | right; auto].
Qed.

Lemma for_live_total St (P : St -> Prop) (live : St -> list ref)
  (body : ref -> St -> result St) :
  (forall x t, P t -> In x (live t) -> exists t', body x t = Ok t' /\ P t') ->
  forall (fuel pos : nat) (s : St),
    P s -> exists s', for_live fuel pos live body s = Ok s' /\ P s'.
Proof.
  intro Hbody. induction fuel as [| fuel IH]; simpl; intros pos s Hs.
  - eauto.
  - destruct (nth_error (live s) pos) as [x |] eqn:E; [| eauto].
    apply nth_error_In in E.
    destruct (Hbody x s Hs E) as (t' & Ht' & HP). rewrite Ht'. unfold bind.
    apply IH. exact HP.
Qed.

Lemma drop_elevated_returns (s : Terrain) :
  Forall (fun r => r < length (heap s)) (tiles s) ->
  exists s', drop_elevated s = Ok s'.
Proof.
  intro Hvalid. unfold drop_elevated.
  destruct (for_live_total Terrain
              (fun t => heap t = heap s /\
                        Forall (fun r => r < length (heap s)) (tiles t))
              tiles
              (fun tile s =>
                 t <- deref (heap s) tile ;;
                 if 1 <? tile_elevation t then
                   ts <- list_remove tile (tiles s) ;;
                   Ok (with_tiles s (heap s) ts)
                 else Ok s))
    with (fuel := length (tiles s)) (pos := 0) (s := s)
    as (s' & Hs' & _); [| auto | eauto].
  intros x t (Hheap & Hall) Hin.
  rewrite Forall_forall in Hall. specialize (Hall x Hin) as Hx.
  unfold deref, list_get. rewrite Hheap.
  destruct (nth_error (heap s) x) as [tile |] eqn:E;
    [| apply nth_error_None in E; lia].
  unfold bind at 1. destruct (1 <? tile_elevation tile).
  - destruct (list_remove_returns x (tiles t) Hin) as (ts & Hts & Hsub).
    rewrite Hts. unfold bind. eexists. split; [reflexivity |].
    simpl. split; [reflexivity |].
    apply Forall_forall. intros y Hy. apply Hall. apply Hsub. exact Hy.
  - exists t. split; [reflexivity |]. split; [exact Hheap |].
    apply Forall_forall. exact Hall.
Qed.

Lemma fill_row_returns A (g : nat -> result A) (js : list nat) :
  (forall j, In j js -> exists v, g j = Ok v) ->
  exists row, Np.fill_row g js = Ok row.
Proof.
  induction js as [| j js IH]; simpl; intro H; [eauto |].
  destruct (H j) as (v & Hv); [auto |].
  destruct IH as (row & Hrow); [auto |].
  rewrite Hv, Hrow. unfold bind. eauto.
Qed.

Lemma fill_rows_returns A (f : nat -> nat -> result A) (ris cjs : list nat) :
  (forall i j, In i ris -> In j cjs -> exists v, f i j = Ok v) ->
  exists rs, Np.fill_rows f ris cjs = Ok rs.
Proof.
  induction ris as [| i ris IH]; simpl; intro H; [eauto |].
  destruct (fill_row_returns A (f i) cjs) as (row & Hrow); [auto |].
  destruct IH as (rs & Hrs); [auto |].
  rewrite Hrow, Hrs. unfold bind. eauto.
Qed.

Lemma empty_then_fill_returns A (w h : Z) (f : nat -> nat -> result A) :
  (0 <= w)%Z -> (0 <= h)%Z ->
  (forall i j, i < Z.to_nat w -> j < Z.to_nat h -> exists v, f i j = Ok v) ->
  exists a, Np.empty_then_fill w h f = Ok a.
Proof.
  intros Hw Hh H. unfold Np.empty_then_fill.
  apply Z.ltb_ge in Hw, Hh. rewrite Hw, Hh. simpl orb.
  destruct (fill_rows_returns A f (range w) (range h)) as (rs & Hrs).
  - intros i j Hi Hj. apply in_seq in Hi, Hj. apply H; lia.
  - rewrite Hrs. unfold bind. eauto.
Qed.

Lemma max_returns (a : Np.ndarray Q) :
  Np.wf a -> 0 < Np.nrows a -> 0 < Np.ncols a ->
  exists top, Np.max a = Ok top.
Proof.
  intros [Hlen Hall] Hr Hc. unfold Np.max.
  destruct (Np.rows a) as [| row rs]; simpl in Hlen; [lia |].
  apply Forall_cons_iff in Hall. destruct Hall as [Hrow _].
  destruct row as [| x row]; simpl in Hrow; [lia |].
  simpl. eauto.
Qed.

(** A call that passes the guards on a consistent terrain, with a drawable
    elevation symbol, returns. *)
Lemma generate_elevation_returns (s : Terrain) (tile_images : dict string)
  (symbol : TileType) :
  elevation_requested s symbol -> consistent s tile_images ->
  drawable tile_images symbol ->
  exists s', generate_elevation s tile_images = Ok s'.
Proof.
  intros (Htiles & Hsym & Hw & Hh & Helev & Hiter)
         (Hvalid & Hground & Hwf & Hrows & Hcols & Hw2 & Hh2 & Hdraw) Hsymbol.
  unfold generate_elevation. rewrite Hsym.
  destruct (tiles s) as [| t0 ts0] eqn:Ets; [contradiction |].
  apply Z.eqb_neq in Hw, Hh. rewrite Hw, Hh. simpl orb.
  assert (Eel : (elevation s <=? 0)%Z = false) by (apply Z.leb_gt; lia).
  assert (Eit : (elevation_iterations s <? 0)%Z = false)
    by (apply Z.ltb_ge; lia).
  rewrite Eel, Eit. simpl orb. cbv iota.
  destruct (drop_elevated_returns s) as (s1 & Hs1);
    [rewrite Ets; exact Hvalid |].
  rewrite Hs1. unfold bind at 1.
  apply drop_elevated_frame in Hs1. destruct Hs1 as (ts & ->).
  unfold list_get. simpl terrain. rewrite Hground. unfold bind at 1.
  simpl base_layer. simpl elevation. simpl elevation_iterations.
  destruct (generate_heightmap_returns (base_layer s) symbol (elevation s)
              (elevation_iterations s) Hwf)
    as (hm & Hhm & Hhmwf & Hhmr & Hhmc); try lia.
  rewrite Hhm. unfold bind at 1.
  destruct (max_returns hm Hhmwf) as (top & Htop); try lia.
  rewrite Htop. unfold bind at 1.
  match goal with
  | |- context [for_each ?l ?body ?s0] =>
      destruct (for_each_total _ _
                  (fun u => terrain_width u = terrain_width s /\
                            terrain_height u = terrain_height s /\
                            forall i j k,
                              i < length (terrain u) ->
                              j < Z.to_nat (terrain_width s) ->
                              k < Z.to_nat (terrain_height s) ->
                              exists layer t,
                                nth_error (terrain u) i = Some layer /\
                                Np.get layer j k = Ok t /\
                                drawable tile_images t)
                  body l s0) as (s2 & Hs2 & Hw' & Hh' & Hcells)
  end.
  - intros i u _ (Hwu & Hhu & Hcells). unfold elevation_layer.
    rewrite Hwu, Hhu.
    destruct (empty_then_fill_returns TileType (terrain_width s)
                (terrain_height s)
                (fun j k =>
                   h <- Np.get hm j k ;;
                   if fgt h (inject_Z (Z.of_nat i)) then Ok symbol
                   else Ok EMPTY)) as (layer & Hlayer); try lia.
    { intros j k Hj Hk.
      destruct (get_returns Q hm j k Hhmwf) as (v & Hv); try lia.
      rewrite Hv. unfold bind.
      destruct (fgt v (inject_Z (Z.of_nat i))); eauto. }
    rewrite Hlayer. unfold bind. eexists. split; [reflexivity |].
    simpl. repeat split; auto.
    intros n j k Hn Hj Hk. rewrite length_app in Hn. simpl in Hn.
    destruct (Nat.eq_dec n (length (terrain u))) as [-> | Hne].
    + rewrite nth_error_app2, Nat.sub_diag by lia. simpl.
      destruct (empty_then_fill_get _ _ _ _ _ Hlayer j k Hj Hk)
        as (v & Hv & Hget).
      exists layer, v. repeat split; auto.
      bind_inv Hv as h Eh.
      destruct (fgt h (inject_Z (Z.of_nat i))); inv_Ok Hv;
        [exact Hsymbol | left; reflexivity].
    + rewrite nth_error_app1 by lia. apply Hcells; auto. lia.
  - simpl. repeat split; auto.
    intros i j k Hi Hj Hk. assert (i = 0) by lia. subst i.
    destruct (get_returns TileType (base_layer s) j k Hwf) as (t & Ht);
      try lia.
    exists (base_layer s), t. repeat split; auto.
    eapply all_cells_get; eauto.
  - rewrite Hs2. unfold bind. apply generate_tiles_returns.
    rewrite Hw', Hh'. exact Hcells.
Qed.

(** ** The fallback of base-layer generation when ["1"] is the first key *)

Lemma dict_get_NoDup V (d : dict V) (k : string) (v : V) :
  NoDup (keys d) -> In (k, v) d -> dict_get d k = Ok v.
Proof.
  unfold keys. induction d as [| [k0 v0] d IH]; simpl; intros Hnd Hin;
    [contradiction |].
  apply NoDup_cons_iff in Hnd. destruct Hnd as [Hfresh Hnd].
  destruct Hin as [Heq | Hin].
  - inv_Ok Heq. rewrite String.eqb_refl. reflexivity.
  - destruct (String.eqb_spec k k0) as [-> | Hne]; [| auto].
    exfalso. apply Hfresh. apply (in_map fst) in Hin. exact Hin.
Qed.

Section Fallback.

Variable tile_probabilities : dict Q.
Hypothesis distinct_keys : NoDup (keys tile_probabilities).

(** The scan keeps the first maximum of what it has seen: everything
    before the candidate weighs less, nothing after it weighs more. *)
Lemma most_probable_scan :
  forall (todo l1 l2 : dict Q) (m : string) (pm : Q),
    tile_probabilities = (l1 ++ (m, pm) :: l2) ++ todo ->
    Forall (fun item => snd item < pm)%Q l1 ->
    Forall (fun item => snd item <= pm)%Q l2 ->
    exists l1' k pk l2',
      tile_probabilities = l1' ++ (k, pk) :: l2' /\
      for_each todo
        (fun (item : string * Q) most_probable_tile_type =>
           pk <- dict_get tile_probabilities (fst item) ;;
           pm <- dict_get tile_probabilities most_probable_tile_type ;;
           if fgt pk pm then Ok (fst item) else Ok most_probable_tile_type)
        m = Ok k /\
      Forall (fun item => snd item < pk)%Q l1' /\
      Forall (fun item => snd item <= pk)%Q l2'.
Proof.
  induction todo as [| [x px] todo IH]; intros l1 l2 m pm Hsplit Hl1 Hl2.
  - exists l1, m, pm, l2. rewrite app_nil_r in Hsplit. auto.
  - cbn [for_each fst].
    assert (Hx : dict_get tile_probabilities x = Ok px).
    { apply dict_get_NoDup; [exact distinct_keys |]. rewrite Hsplit.
      apply in_or_app. right. left. reflexivity. }
    assert (Hm : dict_get tile_probabilities m = Ok pm).
    { apply dict_get_NoDup; [exact distinct_keys |]. rewrite Hsplit.
      apply in_or_app. left. apply in_or_app. right. left. reflexivity. }
    rewrite Hx, Hm. unfold bind at 2 3. unfold fgt, flt.
    destruct (Qle_bool px pm) eqn:E; simpl negb; cbv iota; unfold bind at 1.
    + apply Qle_bool_iff in E.
      apply (IH l1 (l2 ++ [(x, px)]) m pm).
      * rewrite Hsplit. repeat (rewrite <- app_assoc; simpl). reflexivity.
      * exact Hl1.
      * apply Forall_app. split; [exact Hl2 |]. constructor; [exact E | constructor].
    + assert (Hlt : (pm < px)%Q).
      { apply Qnot_le_lt. intro Hle. apply Qle_bool_iff in Hle. congruence. }
      apply (IH (l1 ++ (m, pm) :: l2) [] x px).
      * rewrite Hsplit. repeat (rewrite <- app_assoc; simpl). reflexivity.
      * apply Forall_app. split.
        -- eapply Forall_impl; [| exact Hl1]. intros item Hitem.
           simpl in Hitem. apply (Qlt_trans _ pm); assumption.
        -- constructor; [exact Hlt |].
           eapply Forall_impl; [| exact Hl2]. intros item Hitem.
           simpl in Hitem. apply (Qle_lt_trans _ pm); assumption.
      * constructor.
Qed.

(** When ["1"] is the first key, as in the tables the application builds,
    the fallback returns the first key of highest weight. *)
Lemma most_probable_with_key_1_first (p1 : Q) (rest : dict Q) :
  tile_probabilities = ("1"%string, p1) :: rest ->
  exists l1 k pk l2,
    tile_probabilities = l1 ++ (k, pk) :: l2 /\
    most_probable_tile_type tile_probabilities = Ok k /\
    Forall (fun item => snd item < pk)%Q l1 /\
    Forall (fun item => snd item <= pk)%Q l2.
Proof.
  intro Hfirst. unfold most_probable_tile_type.
  destruct (most_probable_scan rest [] [] "1"%string p1)
    as (l1 & k & pk & l2 & Hsplit & Hrun & Hl1 & Hl2);
    [exact Hfirst | constructor | constructor |].
  exists l1, k, pk, l2. repeat split; auto.
  rewrite Hfirst at 1. cbn [for_each fst].
  assert (H1 : dict_get tile_probabilities "1"%string = Ok p1).
  { apply dict_get_NoDup; [exact distinct_keys |]. rewrite Hfirst.
    left. reflexivity. }
  rewrite H1. unfold bind at 2 3. unfold fgt, flt.
  assert (E : Qle_bool p1 p1 = true) by (apply Qle_bool_iff; apply Qle_refl).
  rewrite E. simpl negb. cbv iota. unfold bind at 1. exact Hrun.
Qed.

End Fallback.

(** * The claims on concrete runs *)

Open Scope string_scope.

(** C10, on the diagonal terrain: the cell [(0, 1)] holds ["2"], which is
    not the elevation symbol, and is zero in the heightmap. *)
Lemma generate_heightmap_unseeded_zero_witness :
  Np.get diagonal_heightmap 0 1 = Ok 0%Q.
Proof.
  apply (generate_heightmap_unseeded_zero
           (base_layer (final diagonal)) "1" 3 1 diagonal_heightmap)
    with (t := "2").
  - vm_compute. reflexivity.
  - vm_compute. reflexivity.
  - discriminate.
Defined.

Lemma diagonal_requested : elevation_requested (final diagonal) "1".
Proof.
  unfold elevation_requested. repeat split; vm_compute; congruence.
Qed.

(** C6, on the diagonal terrain raised by 3: the elevation stays 3 and the
    stack has 4 layers. *)
Lemma generate_elevation_stack_height_witness :
  exists hm top,
    heightmap (final (generate_elevation (final diagonal) demo_images))
    = Some hm /\
    _generate_heightmap (base_layer (final diagonal)) "1"
      (elevation (final diagonal)) (elevation_iterations (final diagonal))
    = Ok hm /\
    Np.max hm = Ok top /\
    elevation (final (generate_elevation (final diagonal) demo_images))
    = int_of_float top /\
    Z.of_nat (length (terrain (final (generate_elevation (final diagonal)
                                        demo_images))))
    = (1 + elevation (final (generate_elevation (final diagonal)
                               demo_images)))%Z.
Proof.
  apply (generate_elevation_stack_height (final diagonal)
           (final (generate_elevation (final diagonal) demo_images))
           demo_images "1").
  - exact diagonal_requested.
  - vm_compute. reflexivity.
Defined.

(** C7, on the diagonal terrain raised by 3. *)
Lemma generate_elevation_levels_witness :
  exists hm,
    heightmap (final (generate_elevation (final diagonal) demo_images))
    = Some hm /\
    forall L row col,
      1 <= L ->
      (Z.of_nat L
       <= elevation (final (generate_elevation (final diagonal) demo_images)))%Z ->
      row < Z.to_nat (terrain_width (final diagonal)) ->
      col < Z.to_nat (terrain_height (final diagonal)) ->
      exists layer h,
        nth_error (terrain (final (generate_elevation (final diagonal)
                                     demo_images))) L = Some layer /\
        Np.get hm row col = Ok h /\
        Np.get layer row col =
          Ok (if Qle_bool (inject_Z (Z.of_nat L)) h then "1" else EMPTY).
Proof.
  apply (generate_elevation_levels (final diagonal)
           (final (generate_elevation (final diagonal) demo_images))
           demo_images "1").
  - exact diagonal_requested.
  - vm_compute. reflexivity.
Defined.

(** C9, on the plain 2 x 2 terrain, visiting the cells in reverse order
    with every draw at 3/4. *)
Lemma smooth_base_layer_uniform_noop_witness :
  (exists rnd',
      for_each (_generate_unchecked_tiles (base_layer (final (plain 2 2)))
                  (@rev (nat * nat)))
        (smooth_cell ["1"; "2"])
        (base_layer (final (plain 2 2)), fun _ => 3 # 4)
      = Ok (base_layer (final (plain 2 2)), rnd')) /\
  (forall s',
      smooth_base_layer (final (plain 2 2)) ["1"; "2"] demo_images
        (@rev (nat * nat)) (fun _ => 3 # 4) = Ok s' ->
      base_layer s' = base_layer (final (plain 2 2))).
Proof.
  apply (smooth_base_layer_uniform_noop (final (plain 2 2)) "1" 2 2
           ["1"; "2"] demo_images (@rev (nat * nat)) (fun _ => 3 # 4)).
  - vm_compute. reflexivity.
  - apply le_n.
  - apply le_n.
  - left. reflexivity.
  - intro l. apply Permutation_rev.
Defined.

(** C4 as claimed fails: on the empty table, and on a table whose weights
    are all zero, base-layer generation raises nothing and fills the
    2 x 2 base layer with ["1"]. *)
Lemma degenerate_table_fills_with_1 :
  (exists s',
      generate_base_layer (final (Terrain_init 2 2 32 16 7)) [] demo_images
        (fun _ _ => 1 # 4) = Ok s' /\
      base_layer s' = Np.full 2 2 "1") /\
  (exists s',
      generate_base_layer (final (Terrain_init 2 2 32 16 7))
        [("1", 0%Q); ("2", 0%Q)] demo_images (fun _ _ => 1 # 4) = Ok s' /\
      base_layer s' = Np.full 2 2 "1").
Proof.
  split; eexists; (split; [vm_compute; reflexivity | reflexivity]).
Qed.

Lemma generate_base_layer_degenerate_witness :
  exists s',
    generate_base_layer (final (Terrain_init 2 2 32 16 7))
      [("1", 0%Q); ("2", 0%Q)] demo_images (fun _ _ => 1 # 4) = Ok s' /\
    base_layer s' = Np.full 2 2 "1" /\
    terrain s' = [base_layer s'].
Proof.
  apply (generate_base_layer_degenerate (final (Terrain_init 2 2 32 16 7))
           [("1", 0%Q); ("2", 0%Q)] demo_images (fun _ _ => 1 # 4)
           "tiles/1.png").
  - repeat constructor.
  - right. left. reflexivity.
  - vm_compute. discriminate.
  - vm_compute. discriminate.
  - intros i j. vm_compute. discriminate.
  - reflexivity.
Defined.

(** The plain 2 x 2 terrain after the width box was set to -1. *)
Lemma generate_base_layer_negative_noop_witness :
  generate_base_layer
    (update_terrain_info (final (plain 2 2)) (-1) 2 32 16 7 1 1)
    [("1", 1%Q)] demo_images (fun _ _ => 1 # 4)
  = Ok (update_terrain_info (final (plain 2 2)) (-1) 2 32 16 7 1 1).
Proof.
  apply (generate_base_layer_negative_noop
           (update_terrain_info (final (plain 2 2)) (-1) 2 32 16 7 1 1)
           [("1", 1%Q)] demo_images (fun _ _ => 1 # 4)).
  left. vm_compute. reflexivity.
Defined.

(** C5 as claimed fails at a width of exactly 0: on the plain 2 x 2
    terrain with the width box set to 0, [generate_base_layer] replaces
    the 2 x 2 base layer by an array without rows and drops the four
    tiles. *)
Lemma generate_base_layer_zero_width_rebuilds :
  exists s',
    generate_base_layer
      (update_terrain_info (final (plain 2 2)) 0 2 32 16 7 1 1)
      [("1", 1%Q)] demo_images (fun _ _ => 1 # 4) = Ok s' /\
    tiles (update_terrain_info (final (plain 2 2)) 0 2 32 16 7 1 1)
    = [0; 1; 2; 3] /\
    tiles s' = [] /\
    Np.shape (base_layer (update_terrain_info (final (plain 2 2))
                            0 2 32 16 7 1 1)) = (2, 2) /\
    Np.shape (base_layer s') = (0, 2) /\
    s' <> update_terrain_info (final (plain 2 2)) 0 2 32 16 7 1 1.
Proof.
  eexists. split; [vm_compute; reflexivity |].
  repeat split. vm_compute. discriminate.
Qed.

(** C1 fails on the code.  The fallback starts its scan from the constant
    ["1"] instead of the first key.  On the table that only has ["2"] with
    weight 1/2 and a draw of 7/10, past the last cumulative boundary, it
    raises [KeyError] where the claim assigns ["2"]; and on a table where
    ["2"] comes first and ties with ["1"], it returns ["1"] where the
    first maximum in iteration order is ["2"]. *)
Theorem fallback_starts_from_key_1 :
  _assign_tile (7 # 10) (_accumulate_probabilities [("2", 1 # 2)]) = None /\
  generate_base_layer (final (Terrain_init 2 2 32 16 7)) [("2", 1 # 2)]
    demo_images (fun _ _ => 7 # 10) = Raise (KeyError "1") /\
  _assign_tile (7 # 10)
    (_accumulate_probabilities [("2", 3 # 10); ("1", 3 # 10)]) = None /\
  most_probable_tile_type [("2", 3 # 10); ("1", 3 # 10)] = Ok "1".
Proof. repeat split; vm_compute; reflexivity. Qed.

(** C2 fails on the code.  [generate_elevation] sizes the new layers by
    [terrain_width] and [terrain_height], not by the shape of the base
    layer: on a plain 3 x 3 terrain whose size was then set to 2 x 2, it
    returns with a 3 x 3 base layer under a 2 x 2 elevation layer. *)
Theorem resized_stack_shapes_differ :
  exists s s',
    resized = Ok s /\
    generate_elevation s demo_images = Ok s' /\
    map (@Np.shape TileType) (terrain s') = [(3, 3); (2, 2)].
Proof.
  eexists. eexists. split; [vm_compute; reflexivity |].
  split; [vm_compute; reflexivity | reflexivity].
Qed.

(** C3 fails on the code.  The loop of [delete_tiles] removes from
    [selected_tiles] while it iterates over it, so the tile after each
    deleted one is skipped: with the two upper tiles 8 and 9 selected,
    only tile 8 is deleted; tile 9 stays selected, stays in [tiles], and
    its cell [(0, 1)] of layer 1 still holds ["1"]. *)
Theorem delete_skips_next_selected :
  exists s s',
    two_selected = Ok s /\
    selected_tiles s = [8; 9] /\
    map (fun t => option_map tile_elevation (nth_error (heap s) t))
      (selected_tiles s) = [Some 2; Some 2] /\
    delete_tiles s KeyDownDelete = Ok s' /\
    selected_tiles s' = [9] /\
    tiles s' = [4; 5; 6; 7; 9; 10; 11] /\
    option_map (@Np.rows TileType) (nth_error (terrain s') 1)
    = Some [["0"; "1"]; ["1"; "1"]].
Proof.
  eexists. eexists. split; [vm_compute; reflexivity |].
  split; [reflexivity |]. split; [reflexivity |].
  split; [vm_compute; reflexivity |].
  repeat split.
Qed.

(** C8 fails on the code.  The click without the control key appends the
    pointed tile without looking whether it is selected already: two such
    calls on the same pointed tile leave it twice in [selected_tiles]. *)
Theorem click_twice_selects_twice :
  exists s',
    clicked_twice = Ok s' /\
    pointed_tile s' = Some 8 /\
    selected_tiles s' = [8; 8] /\
    ~ NoDup (selected_tiles s').
Proof.
  eexists. split; [vm_compute; reflexivity |].
  repeat split. simpl. intro H. inversion H as [| x l Hin _]; subst.
  apply Hin. left. reflexivity.
Qed.

(** The diagonal terrain is consistent, so that elevation generation
    returns on it. *)
Lemma diagonal_consistent : consistent (final diagonal) demo_images.
Proof.
  unfold consistent, Np.wf, all_cells, drawable. vm_compute.
  repeat apply conj; try reflexivity; try discriminate;
    repeat (apply Forall_cons || apply Forall_nil);
    try reflexivity; try (right; eexists; reflexivity);
    repeat constructor.
Qed.

Close Scope string_scope.

(** * Further properties of the code *)

(** ** Sampling a tile type *)

Lemma flt_lt (x y : Q) : flt x y = true <-> (x < y)%Q.
Proof.
  unfold flt. split.
  - intro H. apply Qnot_le_lt. intro Hle. apply Qle_bool_iff in Hle.
    rewrite Hle in H. discriminate.
  - intro H. destruct (Qle_bool y x) eqn:E; [| reflexivity].
    apply Qle_bool_iff in E. exfalso. apply (Qlt_not_le _ _ H). exact E.
Qed.

Lemma flt_ge (x y : Q) : flt x y = false <-> (y <= x)%Q.
Proof.
  unfold flt. rewrite negb_false_iff. apply Qle_bool_iff.
Qed.

Lemma dict_set_fresh V (d : dict V) (k : string) (v : V) :
  ~ In k (keys d) -> dict_set d k v = d ++ [(k, v)].
Proof.
  unfold keys. induction d as [| [k0 v0] d IH]; simpl; intro H.
  - reflexivity.
  - destruct (String.eqb_spec k k0) as [-> | Hne].
    + exfalso. apply H. left. reflexivity.
    + rewrite IH; [reflexivity |]. intro Hin. apply H. right. exact Hin.
Qed.

(** On a table with distinct keys the accumulated table lists the running
    sums, key by key, in the order of the table. *)
Lemma accumulate_running (probabilities : dict Q) :
  NoDup (keys probabilities) ->
  _accumulate_probabilities probabilities = running 0 probabilities.
Proof.
  intro Hnd. unfold _accumulate_probabilities.
  assert (H : forall (l : dict Q) (acc : Q) (cum : dict Q),
             NoDup (keys l) ->
             (forall k, In k (keys l) -> ~ In k (keys cum)) ->
             snd (fold_left
                    (fun (st : Q * dict Q) (item : string * Q) =>
                       let accum_probability := (fst st + snd item)%Q in
                       (accum_probability,
                        dict_set (snd st) (fst item) accum_probability))
                    l (acc, cum))
             = cum ++ running acc l).
  { induction l as [| [k w] l IH]; intros acc cum Hl Hfresh; simpl.
    - rewrite app_nil_r. reflexivity.
    - simpl in Hl. apply NoDup_cons_iff in Hl. destruct Hl as [Hk Hl].
      rewrite dict_set_fresh by (apply Hfresh; left; reflexivity).
      rewrite IH; [rewrite <- app_assoc; reflexivity | exact Hl |].
      intros k' Hk' Hin. unfold keys in Hin. rewrite map_app in Hin.
      apply in_app_or in Hin. destruct Hin as [Hin | [<- | []]].
      + apply (Hfresh k'); [right; exact Hk' | exact Hin].
      + apply Hk. exact Hk'. }
  change (running 0 probabilities) with ([] ++ running 0 probabilities).
  apply H; [exact Hnd | auto].
Qed.

Section Sampling.

(** The draw. *)
Variable x : Q.

Lemma assign_running_some (k : TileType) :
  forall (l : dict Q) (acc : Q),
    (acc <= x)%Q ->
    _assign_tile x (running acc l) = Some k ->
    exists l1 w l2,
      l = l1 ++ (k, w) :: l2 /\
      (fold_left add_weight l1 acc <= x)%Q /\
      (x < fold_left add_weight l1 acc + w)%Q.
Proof.
  induction l as [| [k0 w0] l IH]; simpl; intros acc Hacc H; [discriminate |].
  destruct (flt x (acc + w0)) eqn:E.
  - injection H as <-. exists [], w0, l. simpl.
    apply flt_lt in E. auto.
  - apply flt_ge in E.
    destruct (IH (acc + w0)%Q E H) as (l1 & w & l2 & -> & Hlo & Hhi).
    exists ((k0, w0) :: l1), w, l2. simpl. auto.
Qed.




End Sampling.


Lemma assign_some_positive (probabilities : dict Q) (x : Q) (k : TileType) :
  NoDup (keys probabilities) ->
  (0 <= x)%Q ->
  _assign_tile x (_accumulate_probabilities probabilities) = Some k ->
  exists w, dict_get probabilities k = Ok w /\ (0 < w)%Q.
Proof.
  intros Hnd Hx H. rewrite (accumulate_running probabilities Hnd) in H.
  destruct (assign_running_some x k probabilities 0%Q Hx H)
    as (l1 & w & l2 & Hsplit & Hlo & Hhi).
  exists w. split.
  - apply dict_get_NoDup; [exact Hnd |]. rewrite Hsplit.
    apply in_or_app. right. left. reflexivity.
  - assert (Hlt : (fold_left add_weight l1 0 < fold_left add_weight l1 0 + w)%Q)
      by (eapply Qle_lt_trans; eauto).
    rewrite <- (Qplus_0_r (fold_left add_weight l1 0%Q)) in Hlt at 1.
    apply Qplus_lt_r in Hlt. exact Hlt.
Qed.


(** X2. [_assign_tile] never returns a type whose weight is zero (or
    negative): on a table with distinct keys and a draw that is not
    negative, the type it returns has a positive weight in the table. *)
Theorem assign_tile_positive_weight :
  forall (probabilities : dict Q) (x : Q) (k : TileType),
    NoDup (keys probabilities) ->
    (0 <= x)%Q ->
    _assign_tile x (_accumulate_probabilities probabilities) = Some k ->
    exists w, dict_get probabilities k = Ok w /\ (0 < w)%Q.
Proof.
  intros probs x k Hnd Hx H.
  destruct (assign_some_positive probs x k Hnd Hx H) as (w & Hw & Hpos).
  exists w. split; assumption.
Qed.


(** ** What base-layer generation builds *)

Lemma keys_accumulate (probabilities : dict Q) (k : string) :
  In k (keys (_accumulate_probabilities probabilities)) ->
  In k (keys probabilities).
Proof.
  unfold _accumulate_probabilities.
  assert (H : forall (l : dict Q) (st : Q * dict Q),
             In k (keys (snd (fold_left
                                (fun (st : Q * dict Q) (item : string * Q) =>
                                   let accum_probability :=
                                     (fst st + snd item)%Q in
                                   (accum_probability,
                                    dict_set (snd st) (fst item)
                                      accum_probability))
                                l st))) ->
             In k (keys (snd st)) \/ In k (keys l)).
  { induction l as [| item l IH]; simpl; intros st Hin; [left; exact Hin |].
    apply IH in Hin. simpl in Hin. destruct Hin as [Hin | Hin].
    - apply in_keys_set in Hin. destruct Hin as [-> | Hin]; auto.
    - auto. }
  intro Hin. apply H in Hin. destruct Hin as [[] | Hin]. exact Hin.
Qed.

Lemma assign_tile_key (x : Q) (accum : dict Q) (k : TileType) :
  _assign_tile x accum = Some k -> In k (keys accum).
Proof.
  induction accum as [| [k0 v0] accum IH]; simpl; [discriminate |].
  destruct (flt x v0).
  - intro H. injection H as <-. left. reflexivity.
  - intro H. right. apply IH. exact H.
Qed.

Lemma most_probable_key (tile_probabilities : dict Q) (k : TileType) :
  most_probable_tile_type tile_probabilities = Ok k ->
  k = "1"%string \/ In k (keys tile_probabilities).
Proof.
  unfold most_probable_tile_type.
  apply for_each_invariant
    with (P := fun m => m = "1"%string \/ In m (keys tile_probabilities));
    [| left; reflexivity].
  intros item m m' Hin Hm H.
  bind_inv H as pk Epk. bind_inv H as pm Epm.
  destruct (fgt pk pm); inv_Ok H; [| exact Hm].
  right. apply in_map. exact Hin.
Qed.

Lemma generate_base_layer_anatomy (s s' : Terrain)
  (tile_probabilities : dict Q) (tile_images : dict string)
  (seed : nat -> nat -> Q) :
  (0 <= terrain_width s)%Z -> (0 <= terrain_height s)%Z ->
  generate_base_layer s tile_probabilities tile_images seed = Ok s' ->
  exists layer hp ts,
    Np.empty_then_fill (terrain_width s) (terrain_height s)
      (base_layer_cell tile_probabilities
         (_accumulate_probabilities tile_probabilities) seed) = Ok layer /\
    s' = with_selected_tiles
           (with_tiles (with_terrain (with_base_layer s layer) [layer]) hp ts)
           [].
Proof.
  intros Hw Hh H. unfold generate_base_layer in H.
  apply Z.ltb_ge in Hw, Hh. rewrite Hw, Hh in H. simpl orb in H. cbv iota in H.
  bind_inv H as layer Elayer.
  apply generate_tiles_frame in H. destruct H as (hp & ts & ->).
  exists layer, hp, ts. split; [exact Elayer | reflexivity].
Qed.

(** X4. A call of [generate_base_layer] that returns on non-negative
    terrain sizes builds a fresh stack of one layer: the base layer has
    [terrain_width] rows and [terrain_height] columns, the stack is that
    layer alone, the selection is empty, every cell holds a key of the
    probability table or the fallback type ["1"], and the heightmap and
    the elevation of an earlier elevation run stay as they were. *)
Theorem generate_base_layer_fresh_stack :
  forall (s s' : Terrain) (tile_probabilities : dict Q)
         (tile_images : dict string) (seed : nat -> nat -> Q),
    (0 <= terrain_width s)%Z -> (0 <= terrain_height s)%Z ->
    generate_base_layer s tile_probabilities tile_images seed = Ok s' ->
    Np.shape (base_layer s')
    = (Z.to_nat (terrain_width s), Z.to_nat (terrain_height s)) /\
    terrain s' = [base_layer s'] /\
    selected_tiles s' = [] /\
    heightmap s' = heightmap s /\ elevation s' = elevation s /\
    forall i j v,
      Np.get (base_layer s') i j = Ok v ->
      v = "1"%string \/ In v (keys tile_probabilities).
Proof.
  intros s s' probs imgs seed Hw Hh H.
  destruct (generate_base_layer_anatomy s s' probs imgs seed Hw Hh H)
    as (layer & hp & ts & Hlayer & ->).
  simpl. repeat split.
  - apply (empty_then_fill_shape _ _ _ _ _ Hlayer).
  - intros i j v Hget.
    pose proof (empty_then_fill_shape _ _ _ _ _ Hlayer) as Hshape.
    unfold Np.shape in Hshape. injection Hshape as Hr Hc.
    destruct (get_in_bounds _ _ _ _ _ Hget) as [Hi Hj].
    rewrite Hr in Hi. rewrite Hc in Hj.
    destruct (empty_then_fill_get _ _ _ _ _ Hlayer i j Hi Hj)
      as (v' & Hcell & Hget').
    rewrite Hget in Hget'. inv_Ok Hget'.
    unfold base_layer_cell in Hcell.
    destruct (_assign_tile (seed i j) (_accumulate_probabilities probs))
      as [k |] eqn:E.
    + inv_Ok Hcell. right. apply keys_accumulate.
      apply (assign_tile_key _ _ _ E).
    + apply most_probable_key. exact Hcell.
Qed.


(** The draw 3/4 on the table that gives ["1"] and ["2"] a half each. *)

Ltac distinct_keys :=
  repeat (constructor; [simpl; intuition discriminate |]); constructor.



Lemma assign_tile_positive_weight_witness :
  exists w,
    dict_get [("1"%string, 1 # 2); ("2"%string, 1 # 2)] "2"%string = Ok w /\
    (0 < w)%Q.
Proof.
  apply (assign_tile_positive_weight
           [("1"%string, 1 # 2); ("2"%string, 1 # 2)] (3 # 4) "2"%string).
  - distinct_keys.
  - vm_compute. discriminate.
  - vm_compute. reflexivity.
Defined.


(** The first half of the run [diagonal]. *)
Lemma generate_base_layer_fresh_stack_witness :
  Np.shape
    (base_layer
       (final (generate_base_layer (final (Terrain_init 3 3 32 16 7))
                 [("1"%string, 1 # 2); ("2"%string, 1 # 2)] demo_images
                 (fun i j => if i =? j then 1 # 4 else 3 # 4))))
  = (3, 3).
Proof.
  apply (generate_base_layer_fresh_stack (final (Terrain_init 3 3 32 16 7))
           (final (generate_base_layer (final (Terrain_init 3 3 32 16 7))
                     [("1"%string, 1 # 2); ("2"%string, 1 # 2)] demo_images
                     (fun i j => if i =? j then 1 # 4 else 3 # 4)))
           [("1"%string, 1 # 2); ("2"%string, 1 # 2)] demo_images
           (fun i j => if i =? j then 1 # 4 else 3 # 4)).
  - vm_compute. discriminate.
  - vm_compute. discriminate.
  - vm_compute. reflexivity.
Defined.


(** ** The majority vote of the smoother *)

Lemma for_each_app A St (body : A -> St -> result St) (l1 l2 : list A) (s : St) :
  for_each (l1 ++ l2) body s = bind (for_each l1 body s) (for_each l2 body).
Proof.
  revert s. induction l1 as [| x l1 IH]; intro s; simpl.
  - reflexivity.
  - destruct (body x s) as [t | e]; unfold bind; [apply IH | reflexivity].
Qed.

Lemma dict_get_missing V (d : dict V) (k : string) :
  ~ In k (keys d) -> dict_get d k = Raise (KeyError k).
Proof.
  unfold keys. induction d as [| [k0 v0] d IH]; simpl; intro H.
  - reflexivity.
  - destruct (String.eqb_spec k k0) as [-> | Hne].
    + exfalso. apply H. left. reflexivity.
    + apply IH. intro Hin. apply H. right. exact Hin.
Qed.

Lemma keys_dict_set_present V (d : dict V) (k : string) (v : V) :
  In k (keys d) -> keys (dict_set d k v) = keys d.
Proof.
  unfold keys. induction d as [| [k0 v0] d IH]; simpl; intro H;
    [contradiction |].
  destruct (String.eqb_spec k k0) as [-> | Hne]; [reflexivity |].
  simpl. f_equal. apply IH. destruct H as [H | H]; [congruence | exact H].
Qed.

Lemma in_keys_zero_counts (tiles : list TileType) (t : TileType) :
  In t (keys (zero_counts tiles)) <-> In t tiles.
Proof.
  rewrite in_keys_get. destruct (zero_counts_get tiles t) as [Hin Hout].
  split.
  - intros (v & Hv). destruct (in_dec string_dec t tiles) as [H | H];
      [exact H |]. rewrite (Hout H) in Hv. discriminate.
  - intro H. exists 0%Z. apply Hin. exact H.
Qed.

(** After the counting loop every key holds its old count plus the number
    of neighbours of that type. *)
Lemma count_neighbors_counts :
  forall (neighbors : list TileType) (d : dict Z),
    (forall n, In n neighbors -> In n (keys d)) ->
    exists d',
      count_neighbors neighbors d = Ok d' /\
      keys d' = keys d /\
      forall t c, dict_get d t = Ok c ->
                  dict_get d' t
                  = Ok (c + Z.of_nat (count_occ string_dec neighbors t))%Z.
Proof.
  unfold count_neighbors.
  induction neighbors as [| n neighbors IH]; intros d Hin.
  - exists d. simpl. repeat split. intros t c Hc. rewrite Z.add_0_r. exact Hc.
  - assert (Hn : In n (keys d)) by (apply Hin; left; reflexivity).
    apply in_keys_get in Hn as Hget. destruct Hget as (c0 & Hc0).
    cbn [for_each]. rewrite Hc0. unfold bind at 2. unfold bind at 1.
    destruct (IH (dict_set d n (c0 + 1)%Z)) as (d' & Hrun & Hkeys & Hcount).
    { intros m Hm. rewrite keys_dict_set_present by exact Hn.
      apply Hin. right. exact Hm. }
    exists d'. split; [exact Hrun |]. split.
    + rewrite Hkeys. apply keys_dict_set_present. exact Hn.
    + intros t c Hc. cbn [count_occ].
      destruct (string_dec n t) as [-> | Hne].
      * rewrite (Hcount t (c0 + 1)%Z).
        -- f_equal. assert (c = c0) by congruence. subst. lia.
        -- rewrite dict_get_set, String.eqb_refl. reflexivity.
      * rewrite (Hcount t c); [reflexivity |].
        rewrite dict_get_set.
        destruct (String.eqb_spec t n); [congruence | exact Hc].
Qed.

(** The scan never lets go of a leader for a type with a smaller count,
    whatever the coin flips. *)
Lemma scan_keeps_maximum (d : dict Z) (c : TileType -> Z) :
  (forall t, In t (keys d) -> dict_get d t = Ok (c t)) ->
  forall (l : list TileType) (most_frequent : TileType) (r : rng),
    (forall t, In t l -> In t (keys d)) -> In most_frequent (keys d) ->
    exists most_frequent' r',
      for_each l (scan_step d) (most_frequent, r) = Ok (most_frequent', r') /\
      In most_frequent' (keys d) /\
      (c most_frequent <= c most_frequent')%Z /\
      forall t, In t l -> (c t <= c most_frequent')%Z.
Proof.
  intro Hc. induction l as [| x l IH]; intros mf r Hl Hmf.
  - exists mf, r. simpl. repeat split; auto; try lia; intros t [].
  - assert (Hx : In x (keys d)) by (apply Hl; left; reflexivity).
    assert (Hl' : forall t, In t l -> In t (keys d))
      by (intros t Ht; apply Hl; right; exact Ht).
    cbn [for_each]. unfold scan_step at 1.
    rewrite (Hc x Hx), (Hc mf Hmf). unfold bind at 2 3.
    destruct (Z.gtb_spec (c x) (c mf)) as [Hgt | Hle].
    + destruct (IH x r Hl' Hx) as (mf' & r' & Hrun & Hin & Hge & Hall).
      exists mf', r'. repeat split; auto; try lia.
      intros t [<- | Ht]; [exact Hge | auto].
    + destruct (Z.eqb_spec (c x) (c mf)) as [Heq | Hne].
      * destruct (random r) as [u r1]. destruct (fgt u (1 # 2)).
        -- destruct (IH x r1 Hl' Hx) as (mf' & r' & Hrun & Hin & Hge & Hall).
           exists mf', r'. repeat split; auto; try lia.
           intros t [<- | Ht]; [exact Hge | auto].
        -- destruct (IH mf r1 Hl' Hmf) as (mf' & r' & Hrun & Hin & Hge & Hall).
           exists mf', r'. repeat split; auto.
           intros t [<- | Ht]; [lia | auto].
      * destruct (IH mf r Hl' Hmf) as (mf' & r' & Hrun & Hin & Hge & Hall).
        exists mf', r'. repeat split; auto.
        intros t [<- | Ht]; [lia | auto].
Qed.

Lemma set_to_neighbor_type_maximum (neighbors tiles : list TileType)
  (r : rng) :
  Forall (fun n => In n tiles) neighbors -> tiles <> [] ->
  exists t r',
    _set_to_neighbor_type neighbors tiles r = Ok (t, r') /\
    In t tiles /\
    forall t', In t' tiles ->
               count_occ string_dec neighbors t'
               <= count_occ string_dec neighbors t.
Proof.
  intros Hall Hne. unfold _set_to_neighbor_type.
  destruct (count_neighbors_counts neighbors (zero_counts tiles))
    as (d & Hcount & Hkeys & Hget).
  { intros n Hn. apply in_keys_zero_counts.
    rewrite Forall_forall in Hall. auto. }
  rewrite Hcount. unfold bind at 1.
  assert (Hc : forall t, In t (keys d) ->
                         dict_get d t
                         = Ok (Z.of_nat (count_occ string_dec neighbors t))).
  { intros t Ht. rewrite Hkeys in Ht. apply (proj1 (in_keys_zero_counts _ _)) in Ht.
    rewrite (Hget t 0%Z); [reflexivity |].
    apply (zero_counts_get tiles t). exact Ht. }
  assert (Hfirst : exists first,
             list_get (keys d) 0 = Ok first /\ In first (keys d)).
  { destruct (keys d) as [| first rest] eqn:Ekeys.
    - exfalso. destruct tiles as [| t0 tiles]; [congruence |].
      assert (H0 : In t0 (keys (zero_counts (t0 :: tiles))))
        by (apply in_keys_zero_counts; left; reflexivity).
      rewrite <- Hkeys in H0. exact H0.
    - exists first. split; [reflexivity | left; reflexivity]. }
  destruct Hfirst as (first & Hfirst & Hin1).
  rewrite Hfirst. unfold bind at 1. unfold scan_most_frequent.
  destruct (scan_keeps_maximum d
              (fun t => Z.of_nat (count_occ string_dec neighbors t)) Hc
              (keys d) first r)
    as (t & r' & Hrun & Hin & _ & Hmax); [auto | exact Hin1 |].
  exists t, r'. split; [exact Hrun |]. split.
  - apply in_keys_zero_counts. rewrite <- Hkeys. exact Hin.
  - intros t' Ht'. apply in_keys_zero_counts in Ht'. rewrite <- Hkeys in Ht'.
    specialize (Hmax t' Ht'). lia.
Qed.

(** X6. [_set_to_neighbor_type] returns a most frequent type: when every
    neighbour is one of the supplied tile types and there is a type at
    all, it returns, whatever the random draws, a supplied type that no
    other supplied type outnumbers among the neighbours. *)
Theorem set_to_neighbor_type_most_frequent :
  forall (neighbors tiles : list TileType) (r : rng),
    Forall (fun n => In n tiles) neighbors -> tiles <> [] ->
    exists t r',
      _set_to_neighbor_type neighbors tiles r = Ok (t, r') /\
      In t tiles /\
      forall t', In t' tiles ->
                 count_occ string_dec neighbors t'
                 <= count_occ string_dec neighbors t.
Proof.
  intros neighbors tiles r Hall Hne.
  destruct (set_to_neighbor_type_maximum neighbors tiles r Hall Hne)
    as (t & r' & H). exists t, r'. exact H.
Qed.

(** X7. The random tie-break only matters for ties: when one supplied type
    [T] is strictly more frequent among the neighbours than every other
    supplied type, [_set_to_neighbor_type] returns [T] for every sequence
    of random draws. *)
Theorem set_to_neighbor_type_strict_winner :
  forall (neighbors tiles : list TileType) (T : TileType) (r : rng),
    Forall (fun n => In n tiles) neighbors -> In T tiles ->
    (forall t, In t tiles -> t <> T ->
               count_occ string_dec neighbors t
               < count_occ string_dec neighbors T) ->
    exists r', _set_to_neighbor_type neighbors tiles r = Ok (T, r').
Proof.
  intros neighbors tiles T r Hall HT Hwin.
  destruct (set_to_neighbor_type_maximum neighbors tiles r Hall)
    as (t & r' & Hrun & Hin & Hmax).
  { intro E. rewrite E in HT. exact HT. }
  exists r'. destruct (string_dec t T) as [-> | Hne]; [exact Hrun |].
  specialize (Hwin t Hin Hne). specialize (Hmax T HT). lia.
Qed.

(** X8. A neighbour whose type is not among the supplied tile types makes
    [_set_to_neighbor_type] raise [KeyError] with that type: the first
    such neighbour, when the ones before it are supplied types. *)
Theorem set_to_neighbor_type_unknown_neighbor :
  forall (before after tiles : list TileType) (n : TileType) (r : rng),
    Forall (fun m => In m tiles) before -> ~ In n tiles ->
    _set_to_neighbor_type (before ++ n :: after) tiles r
    = Raise (KeyError n).
Proof.
  intros before after tiles n r Hall Hn. unfold _set_to_neighbor_type.
  destruct (count_neighbors_counts before (zero_counts tiles))
    as (d & Hcount & Hkeys & _).
  { intros m Hm. apply in_keys_zero_counts.
    rewrite Forall_forall in Hall. auto. }
  unfold count_neighbors in *. rewrite for_each_app, Hcount.
  unfold bind at 2. cbn [for_each].
  rewrite dict_get_missing; [reflexivity |].
  rewrite Hkeys. intro H. apply (proj1 (in_keys_zero_counts _ _)) in H. contradiction.
Qed.

(** One ["1"] and two ["2"] among the neighbours, every draw at 3/4. *)
Lemma set_to_neighbor_type_most_frequent_witness :
  exists t r',
    _set_to_neighbor_type ["1"; "2"; "2"]%string ["1"; "2"]%string
      (fun _ => 3 # 4) = Ok (t, r') /\
    In t ["1"; "2"]%string /\
    forall t', In t' ["1"; "2"]%string ->
               count_occ string_dec ["1"; "2"; "2"]%string t'
               <= count_occ string_dec ["1"; "2"; "2"]%string t.
Proof.
  apply (set_to_neighbor_type_most_frequent ["1"; "2"; "2"]%string
           ["1"; "2"]%string (fun _ => 3 # 4)).
  - repeat (apply Forall_cons; [simpl; auto |]); apply Forall_nil.
  - discriminate.
Defined.

Lemma set_to_neighbor_type_strict_winner_witness :
  exists r',
    _set_to_neighbor_type ["1"; "2"; "2"]%string ["1"; "2"]%string
      (fun _ => 3 # 4) = Ok ("2"%string, r').
Proof.
  apply (set_to_neighbor_type_strict_winner ["1"; "2"; "2"]%string
           ["1"; "2"]%string "2"%string (fun _ => 3 # 4)).
  - repeat (apply Forall_cons; [simpl; auto |]); apply Forall_nil.
  - right. left. reflexivity.
  - intros t [<- | [<- | []]] Hne.
    + vm_compute. apply le_n.
    + congruence.
Defined.

Lemma set_to_neighbor_type_unknown_neighbor_witness :
  _set_to_neighbor_type (["1"%string] ++ "9"%string :: ["2"%string])
    ["1"; "2"]%string
    (fun _ => 3 # 4) = Raise (KeyError "9"%string).
Proof.
  apply (set_to_neighbor_type_unknown_neighbor ["1"%string] ["2"%string]
           ["1"; "2"]%string "9"%string (fun _ => 3 # 4)).
  - repeat (apply Forall_cons; [simpl; auto |]); apply Forall_nil.
  - simpl. intuition discriminate.
Defined.

(** ** The neighbour query *)

Lemma get_all_values A (a : Np.ndarray A) :
  forall (ps : list (nat * nat)) (vs : list A),
    get_all a ps = Ok vs ->
    Forall2 (fun p v => Np.get a (fst p) (snd p) = Ok v) ps vs.
Proof.
  induction ps as [| [i j] ps IH]; simpl; intros vs H.
  - inv_Ok H. constructor.
  - bind_inv H as v Ev. bind_inv H as rest Erest. inv_Ok H.
    constructor; [exact Ev | apply IH; exact Erest].
Qed.

Lemma get_out_of_bounds A (a : Np.ndarray A) (i j : nat) :
  Np.nrows a <= i \/ Np.ncols a <= j -> Np.get a i j = Raise IndexError.
Proof.
  intro H. unfold Np.get.
  destruct (Nat.ltb_spec i (Np.nrows a)); [| reflexivity].
  destruct (Nat.ltb_spec j (Np.ncols a)); [| reflexivity].
  lia.
Qed.

Lemma get_raises_index_error A (a : Np.ndarray A) (i j : nat) (e : exn) :
  Np.get a i j = Raise e -> e = IndexError.
Proof.
  unfold Np.get, list_get. intro H.
  destruct ((i <? Np.nrows a) && (j <? Np.ncols a)); [| congruence].
  destruct (nth_error (Np.rows a) i) as [row |]; [| congruence].
  destruct (nth_error row j); congruence.
Qed.

(** Reading a list of cells one of which is outside the array raises
    [IndexError]. *)
Lemma get_all_out_of_bounds A (a : Np.ndarray A) (ps : list (nat * nat)) :
  Exists (fun p => Np.nrows a <= fst p \/ Np.ncols a <= snd p) ps ->
  get_all a ps = Raise IndexError.
Proof.
  induction ps as [| [i j] ps IH]; intro H.
  - inversion H.
  - simpl. destruct (Np.get a i j) as [v | e] eqn:E; unfold bind at 1.
    + apply Exists_cons in H. destruct H as [H | H].
      * simpl in H. rewrite get_out_of_bounds in E by exact H. discriminate.
      * rewrite IH by exact H. reflexivity.
    + apply get_raises_index_error in E. subst. reflexivity.
Qed.

Ltac split_position :=
  match goal with
  | |- context [(Z.of_nat ?i =? ?z)%Z] =>
      destruct (Z.eqb_spec (Z.of_nat i) z)
  end.

Ltac distinct_cells :=
  repeat (constructor;
          [ let Hdup := fresh "Hdup" in
            simpl; intro Hdup;
            repeat (destruct Hdup as [Hdup | Hdup];
                    [injection Hdup; intros; lia |]);
            contradiction
          | ]);
  constructor.

Ltac listed_cell :=
  let Hin := fresh "Hin" in
  simpl; intro Hin;
  repeat (destruct Hin as [Hin | Hin];
          [ injection Hin as <- <-; unfold adjacent; simpl;
            repeat split; try lia;
            let Heq := fresh "Heq" in
            intro Heq; injection Heq; intros; lia
          | ]);
  contradiction.

Ltac adjacent_cell i j :=
  let Hbr := fresh "Hbr" in
  let Hbc := fresh "Hbc" in
  let Hne := fresh "Hne" in
  let Hr1 := fresh "Hr1" in
  let Hr2 := fresh "Hr2" in
  let Hc1 := fresh "Hc1" in
  let Hc2 := fresh "Hc2" in
  let Hx := fresh "Hx" in
  let Hy := fresh "Hy" in
  intros (Hbr & Hbc & Hne & Hr1 & Hr2 & Hc1 & Hc2);
  simpl in Hr1, Hr2, Hc1, Hc2;
  match goal with
  | |- In (?x, ?y) _ =>
      assert (Hx : (x = i - 1 /\ 1 <= i) \/ x = i \/ x = i + 1) by lia;
      assert (Hy : (y = j - 1 /\ 1 <= j) \/ y = j \/ y = j + 1) by lia;
      destruct Hx as [[-> Hx] | [-> | ->]];
      destruct Hy as [[-> Hy] | [-> | ->]];
      try (exfalso; lia); try (exfalso; apply Hne; reflexivity);
      simpl; auto 10
  end.

Lemma neighbor_cells A (a : Np.ndarray A) (i j : nat) :
  2 <= Np.nrows a -> 2 <= Np.ncols a ->
  i < Np.nrows a -> j < Np.ncols a ->
  exists ps,
    _get_neighbor_tiles a (i, j) = get_all a ps /\
    NoDup ps /\
    length ps = reach (Np.nrows a) i * reach (Np.ncols a) j - 1 /\
    forall x y,
      In (x, y) ps <->
      x < Np.nrows a /\ y < Np.ncols a /\ adjacent (x, y) (i, j).
Proof.
  intros Hr Hc Hi Hj. unfold _get_neighbor_tiles, reach.
  destruct (Nat.eqb_spec i 0); destruct (Nat.eqb_spec i (Np.nrows a - 1));
    destruct (Nat.eqb_spec j 0); destruct (Nat.eqb_spec j (Np.ncols a - 1));
    try lia; simpl orb; repeat split_position; try lia;
    (eexists; split; [reflexivity |];
     split; [distinct_cells |];
     split; [reflexivity |];
     intros x y; split; [listed_cell | adjacent_cell i j]).
Qed.

(** X9. [_get_neighbor_tiles] returns the values of the cells next to the
    given one, each once: on a well-formed array with two rows and two
    columns at least and a cell inside it, the values returned are those
    of a duplicate-free list of cells that holds exactly the cells of the
    array at most one row and one column away from the given cell, that
    cell itself left out.  Nothing wraps around and nothing outside the
    array is read. *)
Theorem get_neighbor_tiles_adjacent :
  forall (A : Type) (a : Np.ndarray A) (i j : nat),
    Np.wf a -> 2 <= Np.nrows a -> 2 <= Np.ncols a ->
    i < Np.nrows a -> j < Np.ncols a ->
    exists ps vs,
      _get_neighbor_tiles a (i, j) = Ok vs /\
      Forall2 (fun p v => Np.get a (fst p) (snd p) = Ok v) ps vs /\
      NoDup ps /\
      forall x y,
        In (x, y) ps <->
        x < Np.nrows a /\ y < Np.ncols a /\ adjacent (x, y) (i, j).
Proof.
  intros A a i j Hwf Hr Hc Hi Hj.
  destruct (neighbor_cells A a i j Hr Hc Hi Hj)
    as (ps & Hps & Hnd & _ & Hin).
  destruct (get_all_returns A a ps Hwf) as (vs & Hvs).
  { apply Forall_forall. intros [x y] Hxy. apply Hin in Hxy. simpl. tauto. }
  exists ps, vs. rewrite Hps.
  split; [exact Hvs |]. split; [apply get_all_values; exact Hvs |].
  split; [exact Hnd | exact Hin].
Qed.

(** X10. [_get_neighbor_tiles] returns 3 values for a corner, 5 for a cell
    on an edge and 8 for a cell inside: the rows within reach times the
    columns within reach, less the cell itself. *)
Theorem get_neighbor_tiles_count :
  forall (A : Type) (a : Np.ndarray A) (i j : nat),
    Np.wf a -> 2 <= Np.nrows a -> 2 <= Np.ncols a ->
    i < Np.nrows a -> j < Np.ncols a ->
    exists vs,
      _get_neighbor_tiles a (i, j) = Ok vs /\
      length vs = reach (Np.nrows a) i * reach (Np.ncols a) j - 1.
Proof.
  intros A a i j Hwf Hr Hc Hi Hj.
  destruct (neighbor_cells A a i j Hr Hc Hi Hj)
    as (ps & Hps & _ & Hlen & Hin).
  destruct (get_all_returns A a ps Hwf) as (vs & Hvs).
  { apply Forall_forall. intros [x y] Hxy. apply Hin in Hxy. simpl. tauto. }
  exists vs. rewrite Hps. split; [exact Hvs |].
  apply get_all_values in Hvs. apply Forall2_length in Hvs.
  rewrite <- Hvs. exact Hlen.
Qed.

Ltac outside_cell :=
  apply get_all_out_of_bounds;
  repeat first [ apply Exists_cons_hd; simpl; lia | apply Exists_cons_tl ].

(** X11. On an array with a single row or a single column
    [_get_neighbor_tiles] raises [IndexError] for every cell: each of its
    cases reads a cell of the next row and of the next column.  This is
    what the guards on sides of size 1 keep the smoother and the heightmap
    away from. *)
Theorem get_neighbor_tiles_thin_array :
  forall (A : Type) (a : Np.ndarray A) (i j : nat),
    Np.nrows a = 1 \/ Np.ncols a = 1 ->
    _get_neighbor_tiles a (i, j) = Raise IndexError.
Proof.
  intros A a i j Hthin. unfold _get_neighbor_tiles.
  destruct Hthin as [Hthin | Hthin]; repeat split_position; outside_cell.
Qed.

Lemma full_wf A (r c : nat) (v : A) : Np.wf (Np.full r c v).
Proof. unfold Np.full. apply tabulate_wf. Qed.

(** The middle cell of a 3 x 3 array. *)
Lemma get_neighbor_tiles_adjacent_witness :
  exists ps vs,
    _get_neighbor_tiles (Np.full 3 3 EMPTY) (1, 1) = Ok vs /\
    Forall2 (fun p v => Np.get (Np.full 3 3 EMPTY) (fst p) (snd p) = Ok v)
      ps vs /\
    NoDup ps /\
    forall x y,
      In (x, y) ps <->
      x < Np.nrows (Np.full 3 3 EMPTY) /\ y < Np.ncols (Np.full 3 3 EMPTY) /\
      adjacent (x, y) (1, 1).
Proof.
  apply (get_neighbor_tiles_adjacent TileType (Np.full 3 3 EMPTY) 1 1).
  - apply full_wf.
  - simpl. lia.
  - simpl. lia.
  - simpl. lia.
  - simpl. lia.
Defined.

(** A corner of a 3 x 3 array. *)
Lemma get_neighbor_tiles_count_witness :
  exists vs,
    _get_neighbor_tiles (Np.full 3 3 EMPTY) (0, 2) = Ok vs /\
    length vs
    = reach (Np.nrows (Np.full 3 3 EMPTY)) 0
      * reach (Np.ncols (Np.full 3 3 EMPTY)) 2 - 1.
Proof.
  apply (get_neighbor_tiles_count TileType (Np.full 3 3 EMPTY) 0 2).
  - apply full_wf.
  - simpl. lia.
  - simpl. lia.
  - simpl. lia.
  - simpl. lia.
Defined.

(** An array of one row. *)
Lemma get_neighbor_tiles_thin_array_witness :
  _get_neighbor_tiles (Np.full 1 3 EMPTY) (0, 1) = Raise IndexError.
Proof.
  apply (get_neighbor_tiles_thin_array TileType (Np.full 1 3 EMPTY) 0 1).
  left. reflexivity.
Defined.

(** ** The range of the heightmap *)

Lemma sum_bounded (hi : Q) (l : list Q) (acc : Q) :
  Forall (fun x => x <= hi)%Q l ->
  (fold_left Qplus l acc <= acc + inject_Z (Z.of_nat (length l)) * hi)%Q.
Proof.
  intro Hl. revert acc. induction Hl as [| x l Hx Hl IH]; intro acc.
  - simpl. rewrite Qmult_0_l, Qplus_0_r. apply Qle_refl.
  - cbn [fold_left length]. eapply Qle_trans; [apply IH |].
    rewrite Nat2Z.inj_succ. unfold Z.succ. rewrite inject_Z_plus.
    rewrite Qmult_plus_distr_l, Qmult_1_l.
    rewrite <- Qplus_assoc. apply Qplus_le_compat; [apply Qle_refl |].
    rewrite (Qplus_comm (inject_Z (Z.of_nat (length l)) * hi) hi).
    apply Qplus_le_compat; [exact Hx | apply Qle_refl].
Qed.

(** The mean of values that are at most [hi] is at most [hi]. *)
Lemma mean_bounded (hi : Q) (values : list Q) :
  values <> [] -> Forall (fun x => x <= hi)%Q values ->
  (mean values <= hi)%Q.
Proof.
  intros Hne Hall. unfold mean.
  apply Qle_shift_div_r.
  - destruct values; [contradiction |]. unfold Qlt. simpl. lia.
  - eapply Qle_trans; [apply sum_bounded; exact Hall |].
    rewrite Qplus_0_l, Qmult_comm. apply Qle_refl.
Qed.

Lemma trunc_float_upto (top : Z) (x : Q) :
  (0 <= x)%Q -> (x <= inject_Z top)%Q -> whole_upto top (Np.trunc_float x).
Proof.
  intros Hlo Hhi. exists (Z.quot (Qnum x) (Zpos (Qden x))).
  split; [reflexivity |].
  unfold Qle in Hlo, Hhi. simpl in Hlo, Hhi.
  rewrite Z.mul_1_r in Hlo. rewrite Z.mul_1_r in Hhi. split.
  - apply Z.quot_pos; lia.
  - rewrite Z.quot_div_nonneg by lia.
    apply Z.div_le_upper_bound; lia.
Qed.

Lemma generate_heightmap_range (terrain : Np.ndarray TileType)
  (symbol : TileType) (elevation iterations : Z) (hm : Np.ndarray Q) :
  (0 <= elevation)%Z ->
  _generate_heightmap terrain symbol elevation iterations = Ok hm ->
  all_cells (whole_upto elevation) hm.
Proof.
  intros Helev Hrun. unfold _generate_heightmap in Hrun.
  bind_inv Hrun as seeded Eseed. bind_inv Hrun as smoothed Esmooth.
  inv_Ok Hrun.
  assert (Hsmoothed : all_cells (fun v => 0 <= v /\ v <= inject_Z elevation)%Q
                        smoothed).
  { eapply for_each_invariant; [| | exact Esmooth].
    - intros n t t' _ Ht Hpass.
      eapply for_each_invariant; [| exact Ht | exact Hpass].
      intros [i j] u u' _ Hu Hcell. unfold diffuse_cell in Hcell.
      bind_inv Hcell as v Ev. destruct (feq v 0).
      + inv_Ok Hcell. exact Hu.
      + bind_inv Hcell as values Evalues.
        eapply all_cells_set; [exact Hu | | exact Hcell].
        assert (Hvals : Forall (fun v => 0 <= v /\ v <= inject_Z elevation)%Q
                          (values ++ [v])).
        { apply Forall_app. split.
          - apply (all_cells_neighbors
                     (fun v => 0 <= v /\ v <= inject_Z elevation)%Q
                     u (i, j) values Hu Evalues).
          - constructor; [| constructor].
            apply (all_cells_get
                     (fun v => 0 <= v /\ v <= inject_Z elevation)%Q
                     u i j v Hu Ev). }
        split.
        * apply mean_nonneg. eapply Forall_impl; [| exact Hvals].
          intros q Hq. apply Hq.
        * apply mean_bounded.
          -- destruct values; discriminate.
          -- eapply Forall_impl; [| exact Hvals]. intros q Hq. apply Hq.
    - eapply for_each_invariant; [| | exact Eseed].
      + intros [i j] u u' _ Hu Hcell. unfold seed_cell in Hcell.
        bind_inv Hcell as t Et. destruct (String.eqb t symbol).
        * eapply all_cells_set; [exact Hu | | exact Hcell].
          split; [| apply Qle_refl]. unfold Qle. simpl. lia.
        * inv_Ok Hcell. exact Hu.
      + unfold Np.zeros, Np.full. apply all_cells_tabulate.
        intros _ _. split; [apply Qle_refl |]. unfold Qle. simpl. lia. }
  unfold all_cells, Np.trunc in *. simpl.
  apply Forall_map. eapply Forall_impl; [| exact Hsmoothed].
  intros row Hrow. apply Forall_map. eapply Forall_impl; [| exact Hrow].
  intros q [Hlo Hhi]. apply trunc_float_upto; assumption.
Qed.


(** X13. A call of [generate_elevation] that passes the guards and
    returns only ever lowers the elevation: the corrected elevation it
    stores lies between 0 and the elevation that was requested. *)
Theorem generate_elevation_never_higher :
  forall (s s' : Terrain) (tile_images : dict string) (symbol : TileType),
    elevation_requested s symbol ->
    generate_elevation s tile_images = Ok s' ->
    (0 <= elevation s' <= elevation s)%Z.
Proof.
  intros s s' imgs symbol Hreq Hrun.
  destruct (generate_elevation_anatomy _ _ _ _ Hreq Hrun)
    as (ground & hm & top & layers & _ & Hhm & Htop & _ & Hel & _ & _).
  destruct Hreq as (_ & _ & _ & _ & Helev & _).
  assert (Hrange : whole_upto (elevation s) top).
  { eapply all_cells_max; [| exact Htop].
    eapply generate_heightmap_range; [| exact Hhm]. lia. }
  destruct Hrange as (z & -> & Hz). rewrite Hel.
  unfold int_of_float. simpl. rewrite Z.quot_1_r. exact Hz.
Qed.

(** ** Seeding, and what stands on what *)

(** An invariant that follows the part of the list already visited. *)
Lemma for_each_visited A St (P : list A -> St -> Prop)
  (body : A -> St -> result St) :
  (forall visited x t t',
      P visited t -> body x t = Ok t' -> P (visited ++ [x]) t') ->
  forall (l visited : list A) (s s' : St),
    P visited s -> for_each l body s = Ok s' -> P (visited ++ l) s'.
Proof.
  intro Hbody. induction l as [| x l IH]; simpl; intros visited s s' Hs Hrun.
  - inv_Ok Hrun. rewrite app_nil_r. exact Hs.
  - bind_inv Hrun as t Et.
    replace (visited ++ x :: l) with ((visited ++ [x]) ++ l)
      by (rewrite <- app_assoc; reflexivity).
    apply (IH _ t s'); [| exact Hrun].
    apply (Hbody visited x s t Hs Et).
Qed.

Lemma get_set_same A (a a' : Np.ndarray A) (i j : nat) (v w : A) :
  Np.get a i j = Ok w -> Np.set a i j v = Ok a' -> Np.get a' i j = Ok v.
Proof.
  unfold Np.get, Np.set, list_get. intros Hget Hset.
  destruct ((i <? Np.nrows a) && (j <? Np.ncols a)) eqn:Eb; [| discriminate].
  destruct (nth_error (Np.rows a) i) as [row |] eqn:Erow; [| discriminate].
  destruct (nth_error row j) as [x |] eqn:Ex; [| discriminate].
  inv_Ok Hset. simpl. rewrite Eb.
  rewrite nth_error_list_update, Nat.eqb_refl, Erow.
  rewrite nth_error_list_update, Nat.eqb_refl, Ex. reflexivity.
Qed.




Lemma Forall2_nth_error_r A B (R : A -> B -> Prop) (l : list A) (l' : list B) :
  Forall2 R l l' ->
  forall n y, nth_error l' n = Some y ->
              exists x, nth_error l n = Some x /\ R x y.
Proof.
  induction 1 as [| a b l l' Hab Hl IH]; intros [| n] y Hn; simpl in *;
    try discriminate.
  - inv_Ok Hn. eauto.
  - eauto.
Qed.

(** The cells of the layer of level [n + 1] after a call that passes the
    guards and returns. *)
Lemma elevation_cell (s s' : Terrain) (tile_images : dict string)
  (symbol : TileType) :
  elevation_requested s symbol ->
  generate_elevation s tile_images = Ok s' ->
  exists hm,
    _generate_heightmap (base_layer s) symbol (elevation s)
      (elevation_iterations s) = Ok hm /\
    base_layer s' = base_layer s /\
    forall n layer row col,
      nth_error (terrain s') (S n) = Some layer ->
      row < Z.to_nat (terrain_width s) ->
      col < Z.to_nat (terrain_height s) ->
      exists h,
        Np.get hm row col = Ok h /\ whole h /\
        Np.get layer row col
        = Ok (if fgt h (inject_Z (Z.of_nat n)) then symbol else EMPTY).
Proof.
  intros Hreq Hrun.
  destruct (generate_elevation_anatomy _ _ _ _ Hreq Hrun)
    as (ground & hm & top & layers & _ & Hhm & Htop & Hs' & Hel & Hter & Hall).
  exists hm. split; [exact Hhm |]. split.
  - clear - Hreq Hrun. destruct Hreq as (Htiles & Hsym & Hw & Hh & He & Hi).
    unfold generate_elevation in Hrun. rewrite Hsym in Hrun.
    destruct (tiles s); [contradiction |].
    destruct ((terrain_width s =? 1)%Z || (terrain_height s =? 1)%Z);
      [inv_Ok Hrun; reflexivity |].
    destruct ((elevation s <=? 0)%Z || (elevation_iterations s <? 0)%Z);
      [inv_Ok Hrun; reflexivity |].
    bind_inv Hrun as s1 Edrop. apply drop_elevated_frame in Edrop.
    destruct Edrop as (ts & ->).
    bind_inv Hrun as ground Eground. bind_inv Hrun as hm Ehm.
    bind_inv Hrun as top Etop. bind_inv Hrun as s2 Eloop.
    apply layers_loop in Eloop. destruct Eloop as (layers & -> & _).
    apply generate_tiles_frame in Hrun. destruct Hrun as (hp & ts' & ->).
    reflexivity.
  - intros n layer row col Hlayer Hrow Hcol.
    rewrite Hter in Hlayer. simpl in Hlayer.
    destruct (Forall2_nth_error_r _ _ _ _ _ Hall _ _ Hlayer)
      as (i & Hi & Hfill).
    unfold range in Hi. rewrite nth_error_seq in Hi.
    destruct (n <? Z.to_nat (int_of_float top)); [| discriminate].
    simpl in Hi. injection Hi as Hi. subst i.
    unfold elevation_layer in Hfill.
    destruct (empty_then_fill_get _ _ _ _ _ Hfill row col Hrow Hcol)
      as (v & Hv & Hget).
    bind_inv Hv as h Eh. exists h. split; [exact Eh |]. split.
    + apply (all_cells_get whole hm row col h); [| exact Eh].
      destruct Hreq as (_ & _ & _ & _ & Helev & _).
      eapply generate_heightmap_whole; [| exact Hhm]. lia.
    + rewrite Hget.
      destruct (fgt h (inject_Z (Z.of_nat n))); congruence.
Qed.

Lemma generate_heightmap_unseeded (terrain : Np.ndarray TileType)
  (symbol : TileType) (elevation iterations : Z) (hm : Np.ndarray Q) :
  _generate_heightmap terrain symbol elevation iterations = Ok hm ->
  unseeded_zero terrain symbol hm.
Proof.
  intro Hrun. unfold _generate_heightmap in Hrun.
  bind_inv Hrun as seeded Eseed. bind_inv Hrun as smoothed Esmooth.
  inv_Ok Hrun. apply trunc_unseeded.
  eapply for_each_invariant; [| | exact Esmooth].
  - intros n t t' _ Ht Hpass.
    eapply for_each_invariant; [| exact Ht | exact Hpass].
    intros p u u' _. apply diffuse_cell_unseeded.
  - eapply for_each_invariant; [| apply zeros_unseeded | exact Eseed].
    intros p u u' _. apply seed_cell_unseeded.
Qed.

(** X15. Elevated terrain only stands on the elevation symbol: after a
    call of [generate_elevation] that passes the guards and returns, over
    a base-layer cell that does not hold the elevation symbol every
    elevation layer is EMPTY. *)
Theorem generate_elevation_only_on_symbol :
  forall (s s' : Terrain) (tile_images : dict string) (symbol : TileType),
    elevation_requested s symbol ->
    generate_elevation s tile_images = Ok s' ->
    forall L layer row col t,
      1 <= L -> nth_error (terrain s') L = Some layer ->
      row < Z.to_nat (terrain_width s) ->
      col < Z.to_nat (terrain_height s) ->
      Np.get (base_layer s') row col = Ok t -> t <> symbol ->
      Np.get layer row col = Ok EMPTY.
Proof.
  intros s s' imgs symbol Hreq Hrun L layer row col t HL Hlayer Hrow Hcol
         Ht Hne.
  destruct (elevation_cell s s' imgs symbol Hreq Hrun)
    as (hm & Hhm & Hbase & Hcells).
  destruct L as [| n]; [lia |].
  destruct (Hcells n layer row col Hlayer Hrow Hcol) as (h & Hh & _ & Hget).
  rewrite Hbase in Ht.
  destruct (generate_heightmap_unseeded _ _ _ _ _ Hhm) as (_ & _ & Hzero).
  rewrite (Hzero row col t Ht Hne) in Hh. inv_Ok Hh.
  rewrite Hget.
  replace (fgt 0 (inject_Z (Z.of_nat n))) with false; [reflexivity |].
  symmetry. unfold fgt. apply flt_ge. unfold Qle. simpl. lia.
Qed.

(** X16. Elevation layers are stacked without gaps: after a call of
    [generate_elevation] that passes the guards and returns, with an
    elevation symbol other than EMPTY, a cell that holds the symbol in the
    layer of level [L] holds it in the layer of every level from 1 to
    [L]. *)
Theorem generate_elevation_no_gaps :
  forall (s s' : Terrain) (tile_images : dict string) (symbol : TileType),
    elevation_requested s symbol ->
    generate_elevation s tile_images = Ok s' ->
    symbol <> EMPTY ->
    forall L layer row col,
      nth_error (terrain s') L = Some layer ->
      row < Z.to_nat (terrain_width s) ->
      col < Z.to_nat (terrain_height s) ->
      Np.get layer row col = Ok symbol ->
      forall L', 1 <= L' <= L ->
                 exists layer',
                   nth_error (terrain s') L' = Some layer' /\
                   Np.get layer' row col = Ok symbol.
Proof.
  intros s s' imgs symbol Hreq Hrun Hsym L layer row col Hlayer Hrow Hcol
         Hget L' HL'.
  destruct (elevation_cell s s' imgs symbol Hreq Hrun)
    as (hm & Hhm & Hbase & Hcells).
  destruct L as [| n]; [lia |]. destruct L' as [| n']; [lia |].
  destruct (Hcells n layer row col Hlayer Hrow Hcol) as (h & Hh & Hwhole & Hc).
  assert (Hlower : exists layer', nth_error (terrain s') (S n') = Some layer').
  { destruct (nth_error (terrain s') (S n')) eqn:E; [eauto |].
    apply nth_error_None in E.
    assert (S n < length (terrain s'))
      by (apply nth_error_Some; congruence).
    lia. }
  destruct Hlower as (layer' & Hlayer'). exists layer'.
  split; [exact Hlayer' |].
  destruct (Hcells n' layer' row col Hlayer' Hrow Hcol)
    as (h' & Hh' & _ & Hc').
  assert (h' = h) by congruence. subst h'.
  rewrite Hc'. rewrite Hc in Hget.
  destruct (fgt h (inject_Z (Z.of_nat n))) eqn:E;
    [| inv_Ok Hget; congruence].
  replace (fgt h (inject_Z (Z.of_nat n'))) with true; [reflexivity |].
  symmetry. unfold fgt in *. apply flt_lt. apply flt_lt in E.
  eapply Qle_lt_trans; [| exact E].
  unfold Qle. simpl. lia.
Qed.


Lemma generate_elevation_never_higher_witness :
  (0 <= elevation (final (generate_elevation (final diagonal) demo_images))
   <= elevation (final diagonal))%Z.
Proof.
  apply (generate_elevation_never_higher (final diagonal)
           (final (generate_elevation (final diagonal) demo_images))
           demo_images "1"%string).
  - exact diagonal_requested.
  - vm_compute. reflexivity.
Defined.


(** Level 1 of the raised diagonal terrain over the cell [(0, 1)], which
    holds ["2"]. *)
Lemma generate_elevation_only_on_symbol_witness :
  Np.get
    (Np.mk_ndarray 3 3
       [["1"; "0"; "0"]; ["0"; "1"; "0"]; ["0"; "0"; "1"]]%string)
    0 1 = Ok EMPTY.
Proof.
  apply (generate_elevation_only_on_symbol (final diagonal)
           (final (generate_elevation (final diagonal) demo_images))
           demo_images "1"%string diagonal_requested)
    with (L := 1) (t := "2"%string).
  - vm_compute. reflexivity.
  - lia.
  - vm_compute. reflexivity.
  - vm_compute. lia.
  - vm_compute. lia.
  - vm_compute. reflexivity.
  - discriminate.
Defined.

(** Level 3 of the raised diagonal terrain over the corner [(0, 0)],
    and level 2 below it. *)
Lemma generate_elevation_no_gaps_witness :
  exists layer',
    nth_error
      (terrain (final (generate_elevation (final diagonal) demo_images)))
      2 = Some layer' /\
    Np.get layer' 0 0 = Ok "1"%string.
Proof.
  apply (generate_elevation_no_gaps (final diagonal)
           (final (generate_elevation (final diagonal) demo_images))
           demo_images "1"%string diagonal_requested)
    with (L := 3)
         (layer := Np.mk_ndarray 3 3
                     [["1"; "0"; "0"]; ["0"; "1"; "0"]; ["0"; "0"; "1"]]%string).
  - vm_compute. reflexivity.
  - discriminate.
  - vm_compute. reflexivity.
  - vm_compute. lia.
  - vm_compute. lia.
  - vm_compute. reflexivity.
  - lia.
Defined.

(** ** The tile list mirrors the grid *)

Lemma allocate_nil (st : list Tile * list ref) : allocate st [] = st.
Proof.
  destruct st as [hp ts]. unfold allocate. simpl.
  rewrite !app_nil_r. reflexivity.
Qed.

Lemma allocate_app (st : list Tile * list ref) (a b : list Tile) :
  allocate (allocate st a) b = allocate st (a ++ b).
Proof.
  destruct st as [hp ts]. unfold allocate. simpl.
  rewrite <- !app_assoc, !length_app, seq_app. reflexivity.
Qed.

(** A loop whose rounds allocate, allocates what the rounds do, in order. *)
Lemma for_each_allocates A (g : A -> list Tile)
  (body : A -> list Tile * list ref -> result (list Tile * list ref)) :
  forall l : list A,
    (forall x st st', In x l -> body x st = Ok st' -> st' = allocate st (g x)) ->
    forall st st',
      for_each l body st = Ok st' -> st' = allocate st (flat_map g l).
Proof.
  induction l as [| x l IH]; simpl; intros Hbody st st' Hrun.
  - inv_Ok Hrun. rewrite allocate_nil. reflexivity.
  - bind_inv Hrun as st1 E1.
    rewrite (IH (fun y u u' Hy => Hbody y u u' (or_intror Hy)) st1 st' Hrun).
    rewrite (Hbody x st st1 (or_introl eq_refl) E1).
    apply allocate_app.
Qed.

Lemma flat_map_flat_map A B C (f : B -> list C) (g : A -> list B) (l : list A) :
  flat_map f (flat_map g l) = flat_map (fun x => flat_map f (g x)) l.
Proof.
  induction l as [| x l IH]; simpl; [reflexivity |].
  rewrite flat_map_app, IH. reflexivity.
Qed.

Lemma flat_map_of_map A B C (f : B -> list C) (g : A -> B) (l : list A) :
  flat_map f (map g l) = flat_map (fun x => f (g x)) l.
Proof.
  induction l as [| x l IH]; simpl; [reflexivity |].
  rewrite IH. reflexivity.
Qed.

Lemma make_tile_allocates (s : Terrain) (tile_images : dict string)
  (i j k : nat) (st st' : list Tile * list ref) :
  make_tile s tile_images (Z.of_nat i * tile_thickness s) i j k st = Ok st' ->
  st' = allocate st (cell_tiles s i (j, k)).
Proof.
  unfold make_tile, cell_tiles, list_get. intro H. simpl fst. simpl snd.
  destruct (nth_error (terrain s) i) as [layer |]; [| discriminate].
  unfold bind at 1 in H.
  destruct (Np.get layer j k) as [v | e]; [| discriminate].
  unfold bind at 1 in H.
  destruct (String.eqb v EMPTY).
  - inv_Ok H. rewrite allocate_nil. reflexivity.
  - bind_inv H as path Epath.
    unfold tile_at.
    destruct (_cart_to_iso
                (inject_Z (Z.of_nat j) * inject_Z (tile_width s) / 2)
                (inject_Z (Z.of_nat k) * inject_Z (tile_height s)))
      as [iso_x iso_y].
    inv_Ok H. reflexivity.
Qed.

Lemma layers_allocate (s : Terrain) (tile_images : dict string) :
  forall (n start : nat) (objs objs' : list Tile * list ref) (off' : Z),
    for_each (seq start n)
      (fun i (st : list Tile * list ref * Z) =>
         let '(objs, elevation_offset) := st in
         objs' <- for_each (range (terrain_width s))
                    (fun j => for_each (range (terrain_height s))
                                (make_tile s tile_images elevation_offset i j))
                    objs ;;
         Ok (objs', (elevation_offset + tile_thickness s)%Z))
      (objs, (Z.of_nat start * tile_thickness s)%Z) = Ok (objs', off') ->
    objs' = allocate objs
              (flat_map (fun i => flat_map (cell_tiles s i) (visited_cells s))
                 (seq start n)).
Proof.
  induction n as [| n IH]; intros start objs objs' off' Hrun.
  - simpl in Hrun. inv_Ok Hrun. rewrite allocate_nil. reflexivity.
  - cbn [seq for_each] in Hrun. bind_inv Hrun as st1 E1.
    bind_inv E1 as objs1 Erows. inv_Ok E1.
    replace (Z.of_nat start * tile_thickness s + tile_thickness s)%Z
      with (Z.of_nat (S start) * tile_thickness s)%Z in Hrun by lia.
    rewrite (IH (S start) objs1 objs' off' Hrun).
    cbn [seq flat_map]. rewrite <- allocate_app. f_equal.
    unfold visited_cells. rewrite flat_map_flat_map.
    apply (for_each_allocates nat
             (fun j => flat_map (cell_tiles s start)
                         (map (fun k => (j, k)) (range (terrain_height s))))
             (fun j => for_each (range (terrain_height s))
                         (make_tile s tile_images
                            (Z.of_nat start * tile_thickness s) start j))
             (range (terrain_width s))); [| exact Erows].
    intros j st st' _ Hj.
    rewrite (for_each_allocates nat (fun k => cell_tiles s start (j, k))
               (make_tile s tile_images (Z.of_nat start * tile_thickness s)
                  start j)
               (range (terrain_height s))
               (fun k u u' _ Hk => make_tile_allocates s tile_images
                                     start j k u u' Hk)
               st st' Hj).
    f_equal. rewrite flat_map_of_map. reflexivity.
Qed.

(** X17. [generate_tiles] materialises the grid: when it returns, the
    tile list holds, freshly allocated and in this order, exactly one
    tile for every cell that is not EMPTY, layer by layer from the base
    layer and row by row within a layer; the tile of the cell [(j, k)]
    of layer [i] has elevation [i + 1], index [(j, k)], the type of the
    cell, the isometric coordinates of the cell raised by [i] times the
    tile thickness, and is not selected.  The selection is emptied and
    nothing else changes. *)
Theorem generate_tiles_materializes :
  forall (s s' : Terrain) (tile_images : dict string),
    generate_tiles s tile_images = Ok s' ->
    s' = with_selected_tiles
           (with_tiles s (heap s ++ expected_tiles s)
              (seq (length (heap s)) (length (expected_tiles s))))
           [].
Proof.
  intros s s' imgs Hrun. unfold generate_tiles in Hrun.
  bind_inv Hrun as st Est. inv_Ok Hrun. destruct st as [objs off].
  apply (layers_allocate
           (with_selected_tiles (with_tiles s (heap s) []) []) imgs) in Est.
  subst objs. destruct s; reflexivity.
Qed.

Lemma in_expected_tiles (s : Terrain) (t : Tile) :
  In t (expected_tiles s) <->
  exists i j k layer v,
    nth_error (terrain s) i = Some layer /\
    j < Z.to_nat (terrain_width s) /\ k < Z.to_nat (terrain_height s) /\
    Np.get layer j k = Ok v /\ v <> EMPTY /\
    t = tile_at s (Z.of_nat i * tile_thickness s) i j k v.
Proof.
  unfold expected_tiles, visited_cells, cell_tiles. split.
  - intro H. apply in_flat_map in H. destruct H as (i & _ & H).
    apply in_flat_map in H. destruct H as ([j k] & Hjk & H).
    apply in_flat_map in Hjk. destruct Hjk as (j' & Hj & Hk).
    apply in_map_iff in Hk. destruct Hk as (k' & Heq & Hk).
    injection Heq as -> ->. apply in_seq in Hj, Hk. simpl in H.
    destruct (nth_error (terrain s) i) as [layer |] eqn:El; [| contradiction].
    destruct (Np.get layer j k) as [v | e] eqn:Ev; [| contradiction].
    destruct (String.eqb_spec v EMPTY) as [| Hne]; [contradiction |].
    destruct H as [<- | []].
    exists i, j, k, layer, v. repeat split; auto; lia.
  - intros (i & j & k & layer & v & Hl & Hj & Hk & Hv & Hne & ->).
    apply in_flat_map. exists i. split.
    + apply in_seq. assert (i < length (terrain s))
        by (apply nth_error_Some; congruence). lia.
    + apply in_flat_map. exists (j, k). split.
      * apply in_flat_map. exists j. split; [apply in_seq; lia |].
        apply in_map. apply in_seq. lia.
      * simpl. rewrite Hl, Hv.
        destruct (String.eqb_spec v EMPTY); [contradiction |].
        left. reflexivity.
Qed.

(** X18. After [generate_tiles] the tile list and the grid agree: every
    listed tile sits on a cell of its layer that is not EMPTY and holds
    the tile's type, and every cell within the terrain size that is not
    EMPTY has a listed tile with its layer, index and type. *)
Theorem generate_tiles_agrees_with_grid :
  forall (s s' : Terrain) (tile_images : dict string),
    generate_tiles s tile_images = Ok s' ->
    (forall r, In r (tiles s') ->
               exists t layer,
                 nth_error (heap s') r = Some t /\
                 1 <= tile_elevation t /\
                 nth_error (terrain s') (tile_elevation t - 1) = Some layer /\
                 Np.get layer (fst (index t)) (snd (index t))
                 = Ok (tile_type t) /\
                 tile_type t <> EMPTY) /\
    (forall i j k layer v,
        nth_error (terrain s') i = Some layer ->
        j < Z.to_nat (terrain_width s') -> k < Z.to_nat (terrain_height s') ->
        Np.get layer j k = Ok v -> v <> EMPTY ->
        exists r t,
          In r (tiles s') /\ nth_error (heap s') r = Some t /\
          tile_elevation t = i + 1 /\ index t = (j, k) /\ tile_type t = v).
Proof.
  intros s s' imgs Hrun.
  assert (Hs' : s' = with_selected_tiles
                       (with_tiles s (heap s ++ expected_tiles s)
                          (seq (length (heap s))
                             (length (expected_tiles s))))
                       []).
  { unfold generate_tiles in Hrun.
    bind_inv Hrun as st Est. inv_Ok Hrun. destruct st as [objs off].
    apply (layers_allocate
             (with_selected_tiles (with_tiles s (heap s) []) []) imgs) in Est.
    subst objs. destruct s; reflexivity. }
  subst s'. simpl. split.
  - intros r Hr. apply in_seq in Hr.
    destruct (nth_error (expected_tiles s) (r - length (heap s)))
      as [t |] eqn:Et; [| apply nth_error_None in Et; lia].
    apply nth_error_In in Et as Hin. apply in_expected_tiles in Hin.
    destruct Hin as (i & j & k & layer & v & Hl & Hj & Hk & Hv & Hne & ->).
    eexists. exists layer. split.
    + rewrite nth_error_app2 by lia. exact Et.
    + simpl. replace (i + 1 - 1) with i by lia. repeat split; auto. lia.
  - intros i j k layer v Hl Hj Hk Hv Hne.
    assert (Hin : In (tile_at s (Z.of_nat i * tile_thickness s) i j k v)
                    (expected_tiles s)).
    { apply in_expected_tiles. exists i, j, k, layer, v. auto 10. }
    apply In_nth_error in Hin. destruct Hin as (n & Hn).
    assert (Hlen : n < length (expected_tiles s))
      by (apply nth_error_Some; congruence).
    exists (length (heap s) + n). eexists. split; [apply in_seq; lia |].
    split.
    + rewrite nth_error_app2 by lia.
      replace (length (heap s) + n - length (heap s)) with n by lia.
      exact Hn.
    + simpl. auto.
Qed.

(** The tiles of the plain 2 x 2 terrain raised by one level. *)
Lemma generate_tiles_materializes_witness :
  final (generate_tiles (final two_floors) demo_images)
  = with_selected_tiles
      (with_tiles (final two_floors)
         (heap (final two_floors) ++ expected_tiles (final two_floors))
         (seq (length (heap (final two_floors)))
            (length (expected_tiles (final two_floors)))))
      [].
Proof.
  apply (generate_tiles_materializes (final two_floors)
           (final (generate_tiles (final two_floors) demo_images))
           demo_images).
  vm_compute. reflexivity.
Defined.

Lemma generate_tiles_agrees_with_grid_witness :
  (forall r,
      In r (tiles (final (generate_tiles (final two_floors) demo_images))) ->
      exists t layer,
        nth_error
          (heap (final (generate_tiles (final two_floors) demo_images)))
          r = Some t /\
        1 <= tile_elevation t /\
        nth_error
          (terrain (final (generate_tiles (final two_floors) demo_images)))
          (tile_elevation t - 1) = Some layer /\
        Np.get layer (fst (index t)) (snd (index t)) = Ok (tile_type t) /\
        tile_type t <> EMPTY) /\
  (forall i j k layer v,
      nth_error
        (terrain (final (generate_tiles (final two_floors) demo_images)))
        i = Some layer ->
      j < Z.to_nat (terrain_width
                      (final (generate_tiles (final two_floors)
                                demo_images))) ->
      k < Z.to_nat (terrain_height
                      (final (generate_tiles (final two_floors)
                                demo_images))) ->
      Np.get layer j k = Ok v -> v <> EMPTY ->
      exists r t,
        In r (tiles (final (generate_tiles (final two_floors)
                              demo_images))) /\
        nth_error
          (heap (final (generate_tiles (final two_floors) demo_images)))
          r = Some t /\
        tile_elevation t = i + 1 /\ index t = (j, k) /\ tile_type t = v).
Proof.
  apply (generate_tiles_agrees_with_grid (final two_floors)
           (final (generate_tiles (final two_floors) demo_images))
           demo_images).
  vm_compute. reflexivity.
Defined.

(** ** Pointing and selecting *)

(** X19. [update_pointed_tile] points at the hovered tile closest to the
    viewer: when it returns, nothing but [pointed_tile] has changed; the
    pointed tile is [None] exactly when no listed tile is hovered, and
    otherwise it is a listed, hovered tile whose measure (row + column)
    * elevation no listed hovered tile exceeds. *)
Theorem update_pointed_tile_closest :
  forall (s s' : Terrain) (is_hovering : Tile -> bool),
    update_pointed_tile s is_hovering = Ok s' ->
    s' = with_pointed_tile s (pointed_tile s') /\
    match pointed_tile s' with
    | None =>
        forall r, In r (tiles s) ->
                  exists t, nth_error (heap s) r = Some t /\
                            is_hovering t = false
    | Some p =>
        In p (tiles s) /\
        exists tp,
          nth_error (heap s) p = Some tp /\ is_hovering tp = true /\
          forall r t, In r (tiles s) -> nth_error (heap s) r = Some t ->
                      is_hovering t = true ->
                      (closeness t <= closeness tp)%Z
    end.
Proof.
  intros s s' hover Hrun. unfold update_pointed_tile in Hrun.
  bind_inv Hrun as st Est. inv_Ok Hrun.
  split; [destruct s; reflexivity |]. simpl.
  pose (P := fun (visited : list ref) (st : option ref * Z) =>
               match fst st with
               | None =>
                   snd st = (-1)%Z /\
                   forall r, In r visited ->
                             exists t, nth_error (heap s) r = Some t /\
                                       hover t = false
               | Some p =>
                   In p visited /\
                   exists tp,
                     nth_error (heap s) p = Some tp /\ hover tp = true /\
                     snd st = closeness tp /\
                     forall r t, In r visited ->
                                 nth_error (heap s) r = Some t ->
                                 hover t = true ->
                                 (closeness t <= closeness tp)%Z
               end).
  assert (H : P ([] ++ tiles s) st).
  { eapply (for_each_visited _ _ P); [| | exact Est].
    - clear Est st. intros visited r [p n] st' HP Hbody.
      bind_inv Hbody as t Et. unfold deref, list_get in Et.
      destruct (nth_error (heap s) r) as [t0 |] eqn:Er; [| discriminate].
      inv_Ok Et. unfold P in *. simpl in HP.
      destruct (hover t) eqn:Eh.
      + fold (closeness t) in Hbody. cbn [snd] in Hbody.
        destruct (Z.gtb_spec (closeness t) n) as [Hgt | Hle]; inv_Ok Hbody;
          simpl.
        * split; [apply in_or_app; right; left; reflexivity |].
          exists t. repeat split; auto.
          intros r' t' Hr' Ht' Hh'. apply in_app_or in Hr'.
          destruct Hr' as [Hr' | [<- | []]].
          -- destruct p as [p |].
             ++ destruct HP as (_ & tp & Htp & _ & Hn & Hmax).
                specialize (Hmax r' t' Hr' Ht' Hh'). lia.
             ++ destruct HP as (_ & Hnone).
                destruct (Hnone r' Hr') as (t1 & Ht1 & Hh1). congruence.
          -- assert (t' = t) by congruence. subst. lia.
        * destruct p as [p |].
          -- destruct HP as (Hin & tp & Htp & Hhp & Hn & Hmax).
             split; [apply in_or_app; left; exact Hin |].
             exists tp. repeat split; auto.
             intros r' t' Hr' Ht' Hh'. apply in_app_or in Hr'.
             destruct Hr' as [Hr' | [<- | []]]; [eauto |].
             assert (t' = t) by congruence. subst. lia.
          -- destruct HP as (Hn & _). unfold closeness in Hle. lia.
      + inv_Ok Hbody. simpl. destruct p as [p |].
        * destruct HP as (Hin & tp & Htp & Hhp & Hn & Hmax).
          split; [apply in_or_app; left; exact Hin |].
          exists tp. repeat split; auto.
          intros r' t' Hr' Ht' Hh'. apply in_app_or in Hr'.
          destruct Hr' as [Hr' | [<- | []]]; [eauto |]. congruence.
        * destruct HP as (Hn & Hnone). split; [exact Hn |].
          intros r' Hr'. apply in_app_or in Hr'.
          destruct Hr' as [Hr' | [<- | []]]; [auto |]. eauto.
    - unfold P. simpl. split; [reflexivity | intros r []]. }
  unfold P in H. simpl in H. destruct (fst st) as [p |].
  - destruct H as (Hin & tp & Htp & Hhp & _ & Hmax).
    split; [exact Hin |]. exists tp. auto.
  - apply H.
Qed.

Lemma update_pointed_tile_closest_witness :
  final (update_pointed_tile (final two_floors) (hovering_at (0, 0) 2))
  = with_pointed_tile (final two_floors)
      (pointed_tile
         (final (update_pointed_tile (final two_floors)
                   (hovering_at (0, 0) 2)))) /\
  match
    pointed_tile
      (final (update_pointed_tile (final two_floors) (hovering_at (0, 0) 2)))
  with
  | None =>
      forall r, In r (tiles (final two_floors)) ->
                exists t, nth_error (heap (final two_floors)) r = Some t /\
                          hovering_at (0, 0) 2 t = false
  | Some p =>
      In p (tiles (final two_floors)) /\
      exists tp,
        nth_error (heap (final two_floors)) p = Some tp /\
        hovering_at (0, 0) 2 tp = true /\
        forall r t, In r (tiles (final two_floors)) ->
                    nth_error (heap (final two_floors)) r = Some t ->
                    hovering_at (0, 0) 2 t = true ->
                    (closeness t <= closeness tp)%Z
  end.
Proof.
  apply (update_pointed_tile_closest (final two_floors)
           (final (update_pointed_tile (final two_floors)
                     (hovering_at (0, 0) 2)))
           (hovering_at (0, 0) 2)).
  vm_compute. reflexivity.
Defined.

Lemma list_update_twice A (l : list A) (i : nat) (v w : A) :
  Np.list_update (Np.list_update l i v) i w = Np.list_update l i w.
Proof.
  revert i. induction l as [| x l IH]; intros [| i]; simpl; try reflexivity.
  rewrite IH. reflexivity.
Qed.

Lemma list_in_last (p : ref) (l : list ref) : list_in p (l ++ [p]) = true.
Proof.
  unfold list_in. rewrite existsb_app. simpl. rewrite Nat.eqb_refl.
  rewrite orb_true_r. reflexivity.
Qed.

Lemma list_remove_last (p : ref) (l : list ref) :
  ~ In p l -> list_remove p (l ++ [p]) = Ok l.
Proof.
  induction l as [| y l IH]; simpl; intro H.
  - rewrite Nat.eqb_refl. reflexivity.
  - destruct (Nat.eqb_spec p y) as [-> | Hne].
    + exfalso. apply H. left. reflexivity.
    + rewrite IH; [reflexivity |]. intro Hin. apply H. right. exact Hin.
Qed.

(** X20. Selecting and unselecting undo each other: on a terrain with
    tiles, clicking the pointed tile, which was neither selected nor
    flagged as selected, appends it to the selection, and clicking it
    again with the control key held brings back the very state before
    the first click. *)
Theorem click_then_control_click :
  forall (s : Terrain) (p : ref) (t : Tile),
    tiles s <> [] -> pointed_tile s = Some p ->
    nth_error (heap s) p = Some t -> selected_tile t = false ->
    ~ In p (selected_tiles s) ->
    exists s1,
      update_selected_tiles s false true = Ok s1 /\
      selected_tiles s1 = selected_tiles s ++ [p] /\
      update_selected_tiles s1 true true = Ok s.
Proof.
  intros s p t Htiles Hp Ht Hflag Hfresh.
  unfold update_selected_tiles at 1.
  destruct (tiles s) as [| r0 rs] eqn:Ets; [contradiction |].
  rewrite Hp. eexists. split; [reflexivity |]. split; [reflexivity |].
  unfold update_selected_tiles. simpl tiles. simpl pointed_tile.
  rewrite Hp. simpl selected_tiles.
  rewrite list_in_last, list_remove_last by exact Hfresh.
  unfold bind. f_equal. simpl heap.
  unfold heap_update. rewrite Ht.
  rewrite nth_error_list_update, Nat.eqb_refl, Ht.
  rewrite list_update_twice.
  replace (set_selected false (set_selected true t)) with t
    by (destruct t; simpl in *; subst; reflexivity).
  rewrite (list_update_same _ _ _ _ Ht).
  destruct s; simpl in *. subst. reflexivity.
Qed.

Lemma click_then_control_click_witness :
  exists s1,
    update_selected_tiles
      (final (update_pointed_tile (final two_floors) (hovering_at (0, 0) 2)))
      false true = Ok s1 /\
    selected_tiles s1
    = selected_tiles
        (final (update_pointed_tile (final two_floors)
                  (hovering_at (0, 0) 2))) ++ [8] /\
    update_selected_tiles s1 true true
    = Ok (final (update_pointed_tile (final two_floors)
                   (hovering_at (0, 0) 2))).
Proof.
  apply (click_then_control_click
           (final (update_pointed_tile (final two_floors)
                     (hovering_at (0, 0) 2)))
           8
           (tile_at (final two_floors) 7 1 0 0 "1"%string)).
  - vm_compute. discriminate.
  - vm_compute. reflexivity.
  - vm_compute. reflexivity.
  - reflexivity.
  - vm_compute. intros [].
Defined.

(** ** Deleting tiles *)

Lemma list_remove_other (x y : ref) :
  forall l l', list_remove x l = Ok l' -> y <> x -> In y l -> In y l'.
Proof.
  induction l as [| z l IH]; simpl; intros l' H Hne Hin; [contradiction |].
  destruct (Nat.eqb_spec x z) as [-> | Hxz].
  - inv_Ok H. destruct Hin as [-> | Hin]; [congruence | exact Hin].
  - bind_inv H as rest Erest. inv_Ok H. destruct Hin as [-> | Hin].
    + left. reflexivity.
    + right. apply (IH rest); auto.
Qed.

Lemma map_shape_list_update (layers : list (Np.ndarray TileType)) (n : nat)
  (layer layer' : Np.ndarray TileType) :
  nth_error layers n = Some layer ->
  Np.shape layer' = Np.shape layer ->
  map (@Np.shape TileType) (Np.list_update layers n layer')
  = map (@Np.shape TileType) layers.
Proof.
  revert n. induction layers as [| l0 layers IH]; intros [| n] Hn Hs;
    simpl in *; try discriminate.
  - inv_Ok Hn. rewrite Hs. reflexivity.
  - rewrite IH; auto.
Qed.

Lemma remove_matching_keeps (s0 : Terrain) (t : Tile) (s s' : Terrain) :
  1 < tile_elevation t ->
  base_kept s0 s -> remove_matching t s = Ok s' -> base_kept s0 s'.
Proof.
  intro Helev. unfold remove_matching.
  apply for_live_invariant with (P := base_kept s0).
  intros x u u' (Hheap & Hbase & Hzero & Hshape & Hkeep) H.
  bind_inv H as t2 Et2.
  destruct ((fst (index t) =? fst (index t2))
            && (snd (index t) =? snd (index t2))
            && (tile_elevation t =? tile_elevation t2)) eqn:Ematch.
  - bind_inv H as ts Ets. inv_Ok H. unfold base_kept.
    cbn [heap base_layer terrain tiles selected_tiles with_tiles].
    split; [exact Hheap |]. split; [exact Hbase |].
    split; [exact Hzero |]. split; [exact Hshape |].
    intros r t0 Hr Ht0. destruct (Hkeep r t0 Hr Ht0) as [Htiles Hsel].
    split; [| exact Hsel].
    intro Hin. apply (list_remove_other x r _ _ Ets); [| auto].
    intros ->. unfold deref, list_get in Et2. rewrite Hheap, Hr in Et2.
    inv_Ok Et2. apply andb_prop in Ematch. destruct Ematch as [_ Ee].
    apply Nat.eqb_eq in Ee. lia.
  - inv_Ok H. unfold base_kept. auto.
Qed.

Lemma delete_selected_keeps (s0 : Terrain) (x : ref) (s s' : Terrain) :
  base_kept s0 s -> delete_selected x s = Ok s' -> base_kept s0 s'.
Proof.
  intros Hs H. unfold delete_selected in H. bind_inv H as t Et.
  destruct (Nat.ltb_spec 1 (tile_elevation t)) as [Helev | Helev];
    [| inv_Ok H; exact Hs].
  bind_inv H as s1 E1. bind_inv H as layer Elayer.
  bind_inv H as layer' Elayer'. bind_inv H as sel Esel. inv_Ok H.
  pose proof (remove_matching_keeps s0 t s s1 Helev Hs E1)
    as (Hheap & Hbase & Hzero & Hshape & Hkeep).
  assert (Hsame : heap s1 = heap s /\ selected_tiles s1 = selected_tiles s).
  { split; [| apply (remove_matching_selected t s s1 E1)].
    destruct Hs as (Hh & _). congruence. }
  unfold list_get in Elayer.
  destruct (nth_error (terrain s1) (tile_elevation t - 1)) as [l0 |] eqn:El;
    [| discriminate].
  inv_Ok Elayer. unfold base_kept.
  cbn [heap base_layer terrain tiles selected_tiles with_selected_tiles
       with_terrain].
  split; [exact Hheap |]. split; [exact Hbase |]. split; [| split].
  - rewrite nth_error_list_update.
    destruct (Nat.eqb_spec (tile_elevation t - 1) 0); [lia | exact Hzero].
  - rewrite (map_shape_list_update _ _ layer layer' El); [exact Hshape |].
    unfold Np.shape. destruct (set_shape _ _ _ _ _ _ Elayer') as [-> ->].
    reflexivity.
  - intros r t0 Hr Ht0. destruct (Hkeep r t0 Hr Ht0) as [Htiles Hsel].
    split; [exact Htiles |].
    intro Hin. apply (list_remove_other x r _ _ Esel); [| auto].
    intros ->. unfold deref, list_get in Et.
    destruct Hs as (Hh0 & _).
    rewrite Hh0, Hr in Et. inv_Ok Et. lia.
Qed.

(** X21. [delete_tiles] never touches the base layer: for every state and
    every event, when it returns, the tile objects, the base layer, the
    bottom layer of the stack and the shapes of all layers are as before,
    and every tile of elevation 1 that was listed is still listed and, if
    it was selected, is still selected. *)
Theorem delete_tiles_keeps_base :
  forall (s s' : Terrain) (ev : event),
    delete_tiles s ev = Ok s' -> base_kept s s'.
Proof.
  intros s s' ev H.
  assert (Hs : base_kept s s) by (unfold base_kept; auto 10).
  destruct ev; simpl in H; [| inv_Ok H; exact Hs].
  revert H. apply for_live_invariant with (P := base_kept s); [| exact Hs].
  intros x u u' Hu Hx. apply (delete_selected_keeps s x u u' Hu Hx).
Qed.

Lemma delete_tiles_keeps_base_witness :
  base_kept (final two_selected)
    (final (delete_tiles (final two_selected) KeyDownDelete)).
Proof.
  apply (delete_tiles_keeps_base (final two_selected)
           (final (delete_tiles (final two_selected) KeyDownDelete))
           KeyDownDelete).
  vm_compute. reflexivity.
Defined.

Lemma list_remove_middle (r : ref) (l1 l2 : list ref) :
  ~ In r l1 -> list_remove r (l1 ++ r :: l2) = Ok (l1 ++ l2).
Proof.
  induction l1 as [| y l1 IH]; simpl; intro H.
  - rewrite Nat.eqb_refl. reflexivity.
  - destruct (Nat.eqb_spec r y) as [-> | Hne].
    + exfalso. apply H. left. reflexivity.
    + rewrite IH; [reflexivity |]. intro Hin. apply H. right. exact Hin.
Qed.

Section Delete_single.

(** The terrain before the deletion, and the selected tile. *)
Variable s : Terrain.
Variable r : ref.
Variable t : Tile.
Hypothesis tile_r : nth_error (heap s) r = Some t.
Hypothesis allocated : Forall (fun x => x < length (heap s)) (tiles s).
Hypothesis only_r :
  forall x t2, In x (tiles s) -> nth_error (heap s) x = Some t2 ->
               same_place t t2 = true -> x = r.

(** One round of the inner loop on a tile other than [r] changes
    nothing. *)
Lemma remove_round_other (u : Terrain) (x : ref) :
  heap u = heap s -> In x (tiles s) -> x <> r ->
  (t2 <- deref (heap u) x ;;
   if (fst (index t) =? fst (index t2))
      && (snd (index t) =? snd (index t2))
      && (tile_elevation t =? tile_elevation t2)
   then ts <- list_remove x (tiles u) ;; Ok (with_tiles u (heap u) ts)
   else Ok u) = Ok u.
Proof.
  intros Hheap Hin Hne. unfold deref, list_get. rewrite Hheap.
  rewrite Forall_forall in allocated. specialize (allocated x Hin).
  destruct (nth_error (heap s) x) as [t2 |] eqn:E;
    [| apply nth_error_None in E; lia].
  unfold bind. fold (same_place t t2).
  destruct (same_place t t2) eqn:Em; [| reflexivity].
  exfalso. apply Hne. apply (only_r x t2 Hin E Em).
Qed.

Lemma remove_scan_clear :
  forall (fuel pos : nat) (u : Terrain),
    heap u = heap s ->
    (forall x, In x (tiles u) -> In x (tiles s)) ->
    (forall n x, pos <= n -> nth_error (tiles u) n = Some x -> x <> r) ->
    for_live fuel pos tiles
      (fun tile2 u =>
         t2 <- deref (heap u) tile2 ;;
         if (fst (index t) =? fst (index t2))
            && (snd (index t) =? snd (index t2))
            && (tile_elevation t =? tile_elevation t2)
         then ts <- list_remove tile2 (tiles u) ;;
              Ok (with_tiles u (heap u) ts)
         else Ok u) u = Ok u.
Proof.
  induction fuel as [| fuel IH]; intros pos u Hheap Hsub Hclear;
    [reflexivity |].
  cbn [for_live]. destruct (nth_error (tiles u) pos) as [x |] eqn:E;
    [| reflexivity].
  rewrite remove_round_other.
  - unfold bind. apply IH; auto. intros n y Hn. apply Hclear. lia.
  - exact Hheap.
  - apply Hsub. apply (nth_error_In _ _ E).
  - apply (Hclear pos x (le_n _) E).
Qed.

Lemma remove_scan_found (l1 l2 : list ref) :
  ~ In r l1 -> ~ In r l2 ->
  (forall x, In x (l1 ++ r :: l2) -> In x (tiles s)) ->
  forall (fuel pos : nat) (u : Terrain),
    heap u = heap s -> tiles u = l1 ++ r :: l2 ->
    pos <= length l1 -> length l1 - pos < fuel ->
    for_live fuel pos tiles
      (fun tile2 u =>
         t2 <- deref (heap u) tile2 ;;
         if (fst (index t) =? fst (index t2))
            && (snd (index t) =? snd (index t2))
            && (tile_elevation t =? tile_elevation t2)
         then ts <- list_remove tile2 (tiles u) ;;
              Ok (with_tiles u (heap u) ts)
         else Ok u) u
    = Ok (with_tiles u (heap u) (l1 ++ l2)).
Proof.
  intros Hr1 Hr2 Hsub.
  induction fuel as [| fuel IH]; intros pos u Hheap Htiles Hpos Hfuel;
    [lia |].
  cbn [for_live].
  replace (nth_error (tiles u) pos) with (nth_error (l1 ++ r :: l2) pos)
    by (rewrite Htiles; reflexivity).
  destruct (Nat.eq_dec pos (length l1)) as [-> | Hlt].
  - rewrite nth_error_app2, Nat.sub_diag by lia. cbn [nth_error].
    unfold deref, list_get. rewrite Hheap, tile_r. unfold bind at 2.
    rewrite !Nat.eqb_refl. cbn [andb].
    rewrite Htiles, list_remove_middle by exact Hr1. unfold bind.
    apply remove_scan_clear.
    + reflexivity.
    + simpl. intros x Hx. apply Hsub. apply in_app_or in Hx.
      apply in_or_app. destruct Hx; [left | right; right]; assumption.
    + simpl. intros n x Hn Hx Heq. subst x.
      apply nth_error_In in Hx. apply in_app_or in Hx. tauto.
  - assert (Hx : exists x, nth_error l1 pos = Some x).
    { destruct (nth_error l1 pos) eqn:E; [eauto |].
      apply nth_error_None in E. lia. }
    destruct Hx as (x & Hx). rewrite nth_error_app1 by lia. rewrite Hx.
    rewrite remove_round_other.
    + unfold bind. apply IH; auto; lia.
    + exact Hheap.
    + apply Hsub. apply in_or_app. left. apply (nth_error_In _ _ Hx).
    + intros ->. apply Hr1. apply (nth_error_In _ _ Hx).
Qed.

Hypothesis listed_once : NoDup (tiles s).

Lemma remove_matching_unique :
  exists ts,
    remove_matching t s = Ok (with_tiles s (heap s) ts) /\
    forall x, In x ts <-> In x (tiles s) /\ x <> r.
Proof.
  unfold remove_matching.
  destruct (in_dec Nat.eq_dec r (tiles s)) as [Hin | Hout].
  - apply in_split in Hin. destruct Hin as (l1 & l2 & Hsplit).
    assert (Hnd : ~ In r l1 /\ ~ In r l2).
    { rewrite Hsplit in listed_once. apply NoDup_remove_2 in listed_once.
      split; intro H; apply listed_once; apply in_or_app; auto. }
    destruct Hnd as [Hr1 Hr2]. exists (l1 ++ l2). split.
    + apply (remove_scan_found l1 l2 Hr1 Hr2);
        [rewrite Hsplit; auto | reflexivity | exact Hsplit | lia |].
      rewrite Hsplit, length_app. cbn [length]. unfold ref in *. lia.
    + intro x. rewrite Hsplit. split.
      * intro Hx. split.
        -- apply in_app_or in Hx. apply in_or_app.
           destruct Hx; [left | right; right]; assumption.
        -- intros ->. apply in_app_or in Hx. tauto.
      * intros [Hx Hne]. apply in_app_or in Hx. apply in_or_app.
        destruct Hx as [Hx | [Hx | Hx]]; [left | congruence | right];
          assumption.
  - exists (tiles s). split.
    + rewrite remove_scan_clear; auto.
      * f_equal. destruct s; reflexivity.
      * intros n x _ Hx ->. apply Hout. apply (nth_error_In _ _ Hx).
    + intro x. split; [| tauto]. intro Hx. split; [exact Hx |].
      intros ->. contradiction.
Qed.

End Delete_single.

(** X22. Deleting a single selected elevated tile works: when the
    selection is one tile [r] of elevation above 1, the tile list has no
    duplicates, holds allocated tiles only and holds no other tile at the
    index and elevation of [r], and the cell of [r] exists in its layer,
    the Delete key empties the selection, takes exactly [r] out of the
    tile list, sets the cell of [r] to EMPTY and leaves every other cell
    of that layer as it was. *)
Theorem delete_single_elevated :
  forall (s : Terrain) (r : ref) (t : Tile) (layer : Np.ndarray TileType)
         (v : TileType),
    selected_tiles s = [r] ->
    nth_error (heap s) r = Some t -> 1 < tile_elevation t ->
    Forall (fun x => x < length (heap s)) (tiles s) ->
    (forall x t2, In x (tiles s) -> nth_error (heap s) x = Some t2 ->
                  same_place t t2 = true -> x = r) ->
    NoDup (tiles s) ->
    nth_error (terrain s) (tile_elevation t - 1) = Some layer ->
    Np.get layer (fst (index t)) (snd (index t)) = Ok v ->
    exists s' layer',
      delete_tiles s KeyDownDelete = Ok s' /\
      selected_tiles s' = [] /\
      (forall x, In x (tiles s') <-> In x (tiles s) /\ x <> r) /\
      nth_error (terrain s') (tile_elevation t - 1) = Some layer' /\
      Np.get layer' (fst (index t)) (snd (index t)) = Ok EMPTY /\
      forall i j, (fst (index t), snd (index t)) <> (i, j) ->
                  Np.get layer' i j = Np.get layer i j.
Proof.
  intros s r t layer v Hsel Ht Helev Hvalid Honly Hnd Hlayer Hget.
  destruct (remove_matching_unique s r t Ht Hvalid Honly Hnd)
    as (ts & Hrm & Hts).
  assert (Hset : exists layer',
             Np.set layer (fst (index t)) (snd (index t)) EMPTY = Ok layer').
  { unfold Np.set. unfold Np.get in Hget.
    destruct ((fst (index t) <? Np.nrows layer)
              && (snd (index t) <? Np.ncols layer)); [| discriminate].
    destruct (nth_error (Np.rows layer) (fst (index t))); [| discriminate].
    eauto. }
  destruct Hset as (layer' & Hset).
  exists (with_selected_tiles
            (with_terrain (with_tiles s (heap s) ts)
               (Np.list_update (terrain s) (tile_elevation t - 1) layer'))
            []), layer'.
  split.
  - unfold delete_tiles. rewrite Hsel. cbn [length for_live].
    rewrite Hsel. cbn [nth_error].
    unfold delete_selected, deref, list_get, bind. rewrite Ht.
    apply Nat.ltb_lt in Helev. rewrite Helev, Hrm.
    cbn [terrain with_tiles]. rewrite Hlayer, Hset.
    cbn [selected_tiles with_terrain with_tiles]. rewrite Hsel.
    cbn [list_remove]. rewrite Nat.eqb_refl. reflexivity.
  - cbn [selected_tiles tiles terrain with_selected_tiles with_terrain
         with_tiles].
    split; [reflexivity |]. split; [exact Hts |]. split.
    + rewrite nth_error_list_update, Nat.eqb_refl, Hlayer. reflexivity.
    + split.
      * apply (get_set_same _ _ _ _ _ _ _ Hget Hset).
      * intros i j Hne. apply (get_set_other _ _ _ _ _ _ _ _ Hset Hne).
Qed.


Lemma delete_single_elevated_witness :
  exists s' layer',
    delete_tiles (final one_selected) KeyDownDelete = Ok s' /\
    selected_tiles s' = [] /\
    (forall x, In x (tiles s') <-> In x (tiles (final one_selected)) /\ x <> 8) /\
    nth_error (terrain s') 1 = Some layer' /\
    Np.get layer' 0 0 = Ok EMPTY /\
    forall i j, (0, 0) <> (i, j) ->
                Np.get layer' i j = Np.get (Np.full 2 2 "1"%string) i j.
Proof.
  apply (delete_single_elevated (final one_selected) 8
           (mk_Tile "1"%string (0 # 2, -28 # 4)%Q (0, 0) 2 true)
           (Np.full 2 2 "1"%string) "1"%string).
  - vm_compute. reflexivity.
  - vm_compute. reflexivity.
  - vm_compute. lia.
  - vm_compute. repeat (apply Forall_cons; [lia |]). apply Forall_nil.
  - intros x t2 Hin Hx Hsame. vm_compute in Hin.
    repeat (destruct Hin as [<- | Hin]; [
      try reflexivity; vm_compute in Hx; inv_Ok Hx; vm_compute in Hsame;
      discriminate |]).
    contradiction.
  - vm_compute. repeat (apply NoDup_cons; [simpl; lia |]). apply NoDup_nil.
  - vm_compute. reflexivity.
  - vm_compute. reflexivity.
Defined.


(** ** Smoothing stays within the tile types *)

Section Smoothing.

Variable tile_types : list TileType.
Variables R C : nat.
Hypothesis rows_ge_2 : 2 <= R.
Hypothesis cols_ge_2 : 2 <= C.

Lemma typed_nonempty (st : Np.ndarray TileType * rng) :
  within_types tile_types R C st -> tile_types <> [].
Proof.
  intros (Hwf & Hr & Hc & Hall).
  destruct (get_returns _ (fst st) 0 0 Hwf) as (v & Hv); try lia.
  apply (all_cells_get _ _ _ _ _ Hall) in Hv. intros E. rewrite E in Hv.
  exact Hv.
Qed.

Lemma smooth_cell_typed (p : nat * nat) (st : Np.ndarray TileType * rng) :
  fst p < R -> snd p < C -> within_types tile_types R C st ->
  exists st', smooth_cell tile_types p st = Ok st' /\
              within_types tile_types R C st'.
Proof.
  destruct p as [i j]. cbn [fst snd]. intros Hi Hj Hst.
  pose proof (typed_nonempty st Hst) as Hne.
  destruct st as [layer rnd]. destruct Hst as (Hwf & Hr & Hc & Hall).
  cbn [fst] in Hwf, Hr, Hc, Hall. unfold smooth_cell.
  destruct (neighbors_return _ layer i j Hwf) as (vs & Hvs); try lia.
  rewrite Hvs. unfold bind at 1.
  pose proof (all_cells_neighbors _ _ _ _ Hall Hvs) as Hin.
  destruct (set_to_neighbor_type_maximum vs tile_types rnd Hin Hne)
    as (t & rnd' & Hset & Ht & _).
  rewrite Hset. unfold bind at 1. cbn [fst snd].
  destruct (set_returns _ layer i j t Hwf) as (a' & Ha' & Hwf' & Hr' & Hc');
    try lia.
  rewrite Ha'. unfold bind. exists (a', rnd'). split; [reflexivity |].
  unfold within_types. cbn [fst]. split; [exact Hwf' |].
  split; [lia |]. split; [lia |].
  apply (all_cells_set _ _ _ _ _ _ _ Hall Ht Ha').
Qed.

Lemma smooth_loop_typed (cells : list (nat * nat))
  (st : Np.ndarray TileType * rng) :
  Forall (fun p => fst p < R /\ snd p < C) cells ->
  within_types tile_types R C st ->
  exists st', for_each cells (smooth_cell tile_types) st = Ok st' /\
              within_types tile_types R C st'.
Proof.
  intros Hcells Hst. apply for_each_total; [| exact Hst].
  intros p u Hp Hu. rewrite Forall_forall in Hcells.
  destruct (Hcells p Hp) as [Hi Hj]. apply smooth_cell_typed; assumption.
Qed.

End Smoothing.

(** X23. Smoothing never fails and never leaves the tile types: on a
    consistent terrain with tiles, whose base layer holds only types of
    [tile_types], each of which has an image, a smoothing pass returns,
    for every order of the shuffle and every random draw; the base layer
    keeps its shape, still holds only types of [tile_types], and is the
    single layer of the stack afterwards. *)
Theorem smooth_base_layer_stays_in_types :
  forall (s : Terrain) (tile_types : list TileType)
         (tile_images : dict string)
         (shuffle : list (nat * nat) -> list (nat * nat)) (rnd : rng),
    consistent s tile_images -> tiles s <> [] ->
    all_cells (fun t => In t tile_types) (base_layer s) ->
    (forall t, In t tile_types ->
               exists path, dict_get tile_images t = Ok path) ->
    (forall l, Permutation l (shuffle l)) ->
    exists s',
      smooth_base_layer s tile_types tile_images shuffle rnd = Ok s' /\
      Np.shape (base_layer s') = Np.shape (base_layer s) /\
      all_cells (fun t => In t tile_types) (base_layer s') /\
      terrain s' = [base_layer s'].
Proof.
  intros s tile_types imgs shuffle rnd Hcons Htiles Hall Himgs Hperm.
  destruct Hcons as (_ & _ & Hwf & Hr & Hc & Hw & Hh & _).
  unfold smooth_base_layer.
  destruct (tiles s) as [| t0 ts0]; [congruence |].
  replace ((terrain_width s =? 1)%Z || (terrain_height s =? 1)%Z)
    with false
    by (symmetry; apply orb_false_intro; apply Z.eqb_neq; lia).
  destruct (smooth_loop_typed tile_types (Np.nrows (base_layer s))
              (Np.ncols (base_layer s)) ltac:(lia) ltac:(lia)
              (_generate_unchecked_tiles (base_layer s) shuffle)
              (base_layer s, rnd))
    as ([layer rnd'] & Hloop & Hwf' & Hr' & Hc' & Hall').
  { apply Forall_forall. intros [i j] Hin.
    unfold _generate_unchecked_tiles in Hin.
    apply (Permutation_in _ (Permutation_sym (Hperm _))) in Hin.
    apply in_all_coordinates in Hin. exact Hin. }
  { unfold within_types. cbn [fst]. auto. }
  cbn [fst] in Hwf', Hr', Hc', Hall'.
  rewrite Hloop. unfold bind. cbn [fst].
  destruct (generate_tiles_returns
              (with_terrain (with_base_layer s layer) [layer]) imgs)
    as (s' & Hs').
  { cbn [terrain terrain_width terrain_height with_terrain with_base_layer
         length].
    intros i j k Hi Hj Hk. assert (i = 0) as -> by lia.
    destruct (get_returns _ layer j k Hwf') as (v & Hv); try lia.
    exists layer, v. split; [reflexivity |]. split; [exact Hv |].
    right. apply Himgs.
    apply (all_cells_get (fun t => In t tile_types) _ _ _ _ Hall' Hv). }
  exists s'. split; [exact Hs' |].
  apply generate_tiles_frame in Hs'. destruct Hs' as (hp & ts & ->).
  cbn [base_layer terrain with_selected_tiles with_tiles with_terrain
       with_base_layer].
  split; [unfold Np.shape; congruence |]. split; [exact Hall' |].
  reflexivity.
Qed.

Lemma smooth_base_layer_stays_in_types_witness :
  exists s',
    smooth_base_layer (final diagonal) ["1"%string; "2"%string] demo_images
      (@rev (nat * nat)) (fun _ => 3 # 4) = Ok s' /\
    Np.shape (base_layer s') = Np.shape (base_layer (final diagonal)) /\
    all_cells (fun t => In t ["1"%string; "2"%string]) (base_layer s') /\
    terrain s' = [base_layer s'].
Proof.
  apply (smooth_base_layer_stays_in_types (final diagonal)
           ["1"%string; "2"%string] demo_images (@rev (nat * nat))
           (fun _ => 3 # 4)).
  - exact diagonal_consistent.
  - vm_compute. discriminate.
  - unfold all_cells. vm_compute.
    repeat (apply Forall_cons || apply Forall_nil); auto.
  - intros t [<- | [<- | []]]; vm_compute; eexists; reflexivity.
  - intro l. apply Permutation_rev.
Defined.


(** ** Changing the type of the selected tiles *)

Lemma for_each_visited_total A St (P : list A -> St -> Prop)
  (body : A -> St -> result St) :
  forall (l visited : list A) (s : St),
    (forall vis x t, In x l -> P vis t ->
                     exists t', body x t = Ok t' /\ P (vis ++ [x]) t') ->
    P visited s ->
    exists s', for_each l body s = Ok s' /\ P (visited ++ l) s'.
Proof.
  induction l as [| x l IH]; simpl; intros visited s Hbody Hs.
  - exists s. rewrite app_nil_r. auto.
  - destruct (Hbody visited x s) as (t' & Ht' & HP); auto.
    rewrite Ht'. unfold bind.
    replace (visited ++ x :: l) with ((visited ++ [x]) ++ l)
      by (rewrite <- app_assoc; reflexivity).
    apply IH; auto.
Qed.

Lemma nth_error_heap_update (hp : list Tile) (x r : ref) (f : Tile -> Tile) :
  nth_error (heap_update hp x f) r
  = if x =? r then option_map f (nth_error hp r) else nth_error hp r.
Proof.
  unfold heap_update. destruct (nth_error hp x) as [t |] eqn:E.
  - rewrite nth_error_list_update, E.
    destruct (Nat.eqb_spec x r) as [<- | _]; [| reflexivity].
    rewrite E. reflexivity.
  - destruct (Nat.eqb_spec x r) as [<- | _]; [| reflexivity].
    rewrite E. reflexivity.
Qed.

Lemma place_eq_dec (p q : nat * (nat * nat)) : {p = q} + {p <> q}.
Proof. repeat decide equality. Qed.

Lemma list_in_In (r : ref) (l : list ref) : list_in r l = true <-> In r l.
Proof.
  unfold list_in. rewrite existsb_exists. split.
  - intros (x & Hx & E). apply Nat.eqb_eq in E. subst x. exact Hx.
  - intro H. exists r. split; [exact H | apply Nat.eqb_refl].
Qed.

Lemma list_in_snoc (r x : ref) (l : list ref) :
  list_in r (l ++ [x]) = list_in r l || (r =? x).
Proof.
  unfold list_in. rewrite existsb_app. simpl. rewrite orb_false_r.
  reflexivity.
Qed.

(** Writing a cell that exists: the cell holds the value, every other
    cell of the stack is as before, and the base layer stays the bottom
    of the stack. *)
Lemma write_cell_returns (s : Terrain) (L i j : nat) (v w : TileType) :
  cell s L i j = Ok w ->
  exists s',
    write_cell s L i j v = Ok s' /\
    heap s' = heap s /\ tiles s' = tiles s /\
    selected_tiles s' = selected_tiles s /\
    cell s' L i j = Ok v /\
    (forall L' i' j', (L', (i', j')) <> (L, (i, j)) ->
                      cell s' L' i' j' = cell s L' i' j') /\
    (nth_error (terrain s) 0 = Some (base_layer s) ->
     nth_error (terrain s') 0 = Some (base_layer s')).
Proof.
  unfold cell, write_cell, list_get. intro H.
  destruct (nth_error (terrain s) L) as [layer |] eqn:EL; [| discriminate].
  unfold bind in H. unfold bind at 1.
  assert (Hset : exists layer', Np.set layer i j v = Ok layer').
  { unfold Np.set. unfold Np.get in H.
    destruct ((i <? Np.nrows layer) && (j <? Np.ncols layer));
      [| discriminate].
    destruct (nth_error (Np.rows layer) i); [| discriminate]. eauto. }
  destruct Hset as (layer' & Hset). rewrite Hset. unfold bind at 1.
  eexists. split; [reflexivity |].
  assert (Hcells :
            nth_error (Np.list_update (terrain s) L layer') L = Some layer' /\
            forall L', L' <> L ->
                       nth_error (Np.list_update (terrain s) L layer') L'
                       = nth_error (terrain s) L').
  { split.
    - rewrite nth_error_list_update, Nat.eqb_refl, EL. reflexivity.
    - intros L' Hne. rewrite nth_error_list_update.
      destruct (Nat.eqb_spec L L'); [congruence | reflexivity]. }
  destruct Hcells as [Hsame Hother].
  destruct (Nat.eqb_spec L 0) as [-> | HL];
    cbn [heap tiles selected_tiles terrain base_layer with_terrain
         with_base_layer];
    (split; [reflexivity |]); (split; [reflexivity |]);
    (split; [reflexivity |]);
    (split; [rewrite Hsame; unfold bind;
             apply (get_set_same _ _ _ _ _ _ _ H Hset) |]);
    (split; [| try (intros _; exact Hsame)]).
  - intros L' i' j' Hne. destruct (Nat.eq_dec L' 0) as [-> | HL'].
    + rewrite Hsame, EL. unfold bind.
      apply (get_set_other _ _ _ _ _ _ _ _ Hset). congruence.
    + rewrite Hother by exact HL'. reflexivity.
  - intros L' i' j' Hne. destruct (Nat.eq_dec L' L) as [-> | HL'].
    + rewrite Hsame, EL. unfold bind.
      apply (get_set_other _ _ _ _ _ _ _ _ Hset). congruence.
    + rewrite Hother by exact HL'. reflexivity.
  - intro Hbase. rewrite Hother by (intro E; apply HL; auto). exact Hbase.
Qed.

Section Retyping.

Variable s : Terrain.
Variable ty : TileType.
Variable tile_images : dict string.
Variable path : string.
Hypothesis has_image : dict_get tile_images ty = Ok path.
Hypothesis placed :
  forall r, In r (selected_tiles s) ->
    exists t v,
      nth_error (heap s) r = Some t /\ 1 <= tile_elevation t /\
      cell s (tile_elevation t - 1) (fst (index t)) (snd (index t)) = Ok v.

Lemma retype_tile_step (vis : list ref) (x : ref) (u : Terrain) :
  In x (selected_tiles s) -> retyping s ty vis u ->
  exists u', retype_tile ty tile_images x u = Ok u' /\
             retyping s ty (vis ++ [x]) u'.
Proof.
  intros Hx (Hsel & Htiles & Hheap & Hex & Hdone & Hframe & Hbase).
  destruct (placed x Hx) as (t & v & Ht & Helev & Hcell).
  assert (Htu : exists tu,
             nth_error (heap u) x = Some tu /\ index tu = index t /\
             tile_elevation tu = tile_elevation t /\
             set_selected false (set_tile_type ty tu) = retyped ty t).
  { rewrite Hheap, Ht. destruct (list_in x vis); cbn [option_map];
      eexists; repeat split; reflexivity. }
  destruct Htu as (tu & Htu & Hidx & Hel & Hnew).
  unfold retype_tile, deref, list_get. rewrite Htu. unfold bind at 1.
  rewrite has_image. unfold bind at 1.
  replace (layer_of _ tu) with (tile_elevation t - 1)
    by (unfold layer_of; rewrite Hel;
        destruct (Nat.eqb_spec (tile_elevation t) 0); [lia | reflexivity]).
  rewrite Hidx.
  destruct (Hex _ _ _ _ Hcell) as (v' & Hv').
  match goal with
  | |- exists u', write_cell ?w _ _ _ _ = _ /\ _ =>
      destruct (write_cell_returns w (tile_elevation t - 1)
                  (fst (index t)) (snd (index t)) ty v' Hv')
        as (u' & Hrun & Hhp & Hts & Hsl & Hwritten & Hothers & Hbottom)
  end.
  exists u'. split; [exact Hrun |].
  cbn [heap tiles selected_tiles with_tiles] in Hhp, Hts, Hsl.
  unfold retyping. split; [congruence |]. split; [congruence |].
  split; [| split; [| split; [| split]]].
  - intro r. rewrite Hhp, !nth_error_heap_update, list_in_snoc.
    destruct (Nat.eqb_spec x r) as [<- | Hne].
    + rewrite Nat.eqb_refl, orb_true_r, Htu, Ht. cbn [option_map].
      rewrite Hnew. reflexivity.
    + replace (r =? x) with false
        by (symmetry; apply Nat.eqb_neq; congruence).
      rewrite orb_false_r. apply Hheap.
  - intros L i j w Hw.
    destruct (place_eq_dec (L, (i, j))
                (tile_elevation t - 1, (fst (index t), snd (index t))))
      as [E | Hne].
    + injection E as -> -> ->. eauto.
    + rewrite (Hothers _ _ _ Hne). apply (Hex _ _ _ _ Hw).
  - intros r tr Hr Htr.
    destruct (place_eq_dec
                (tile_elevation tr - 1, (fst (index tr), snd (index tr)))
                (tile_elevation t - 1, (fst (index t), snd (index t))))
      as [E | Hne].
    + injection E as -> -> ->. exact Hwritten.
    + rewrite (Hothers _ _ _ Hne). apply in_app_or in Hr.
      destruct Hr as [Hr | [<- | []]].
      * apply (Hdone r tr Hr Htr).
      * exfalso. apply Hne. congruence.
  - intros L i j Hfree.
    rewrite Hothers.
    + apply Hframe. intros r tr Hr. apply Hfree. apply in_or_app. auto.
    + intro E. apply (Hfree x t); [apply in_or_app; simpl; auto | exact Ht |].
      unfold place. rewrite (surjective_pairing (index t)). congruence.
  - intro Hb. apply Hbottom. cbn [terrain base_layer with_tiles]. auto.
Qed.

Lemma retype_loop :
  exists u,
    for_each (selected_tiles s) (retype_tile ty tile_images) s = Ok u /\
    retyping s ty (selected_tiles s) u.
Proof.
  apply (for_each_visited_total _ _ (retyping s ty)
           (retype_tile ty tile_images) (selected_tiles s) [] s).
  - intros vis x u Hx Hu. apply retype_tile_step; assumption.
  - unfold retyping. cbn [list_in existsb].
    split; [reflexivity |]. split; [reflexivity |].
    split; [reflexivity |]. split; [eauto |].
    split; [intros r t [] |]. split; [reflexivity | auto].
Qed.

End Retyping.

(** X24. Changing the type of the selected tiles: when the type has an
    image and every selected tile is an allocated tile of elevation 1 at
    least whose cell exists in its layer, the method returns; the
    selection is then empty and the tile list the same; every tile that
    was selected has the new type, is unselected and has kept its
    coordinates, index and elevation, and its cell of the stack holds the
    new type; every other tile is untouched, every cell that is the place
    of no selected tile is unchanged, and the base layer is still the
    bottom of the stack if it was. *)
Theorem change_selected_tile_type_retypes :
  forall (s : Terrain) (ty : TileType) (tile_images : dict string)
         (path : string),
    dict_get tile_images ty = Ok path ->
    (forall r, In r (selected_tiles s) ->
       exists t v,
         nth_error (heap s) r = Some t /\ 1 <= tile_elevation t /\
         cell s (tile_elevation t - 1) (fst (index t)) (snd (index t))
         = Ok v) ->
    exists s',
      change_selected_tile_type s ty tile_images = Ok s' /\
      selected_tiles s' = [] /\ tiles s' = tiles s /\
      (forall r t, nth_error (heap s) r = Some t ->
          (In r (selected_tiles s) ->
           nth_error (heap s') r = Some (retyped ty t) /\
           cell s' (tile_elevation t - 1) (fst (index t)) (snd (index t))
           = Ok ty) /\
          (~ In r (selected_tiles s) -> nth_error (heap s') r = Some t)) /\
      (forall L i j,
          (forall r t, In r (selected_tiles s) ->
                       nth_error (heap s) r = Some t ->
                       place t <> (L, (i, j))) ->
          cell s' L i j = cell s L i j) /\
      (nth_error (terrain s) 0 = Some (base_layer s) ->
       nth_error (terrain s') 0 = Some (base_layer s')).
Proof.
  intros s ty imgs path Himg Hplaced. unfold change_selected_tile_type.
  destruct (selected_tiles s) as [| r0 sel] eqn:Esel.
  - exists s. split; [reflexivity |]. split; [exact Esel |].
    split; [reflexivity |]. split; [| split; [reflexivity | auto]].
    intros r t Ht. split; [intros [] | auto].
  - destruct (retype_loop s ty imgs path Himg) as (u & Hrun & Hu).
    { rewrite Esel. exact Hplaced. }
    rewrite Esel in Hrun, Hu. rewrite Hrun. unfold bind.
    destruct Hu as (_ & Htiles & Hheap & _ & Hdone & Hframe & Hbase).
    eexists. split; [reflexivity |].
    cbn [heap tiles selected_tiles terrain base_layer with_selected_tiles].
    split; [reflexivity |]. split; [exact Htiles |].
    split; [| split; [exact Hframe | exact Hbase]].
    intros r t Ht. split.
    + intro Hr. split.
      * rewrite Hheap, Ht.
        replace (list_in r (r0 :: sel)) with true
          by (symmetry; apply list_in_In; exact Hr).
        reflexivity.
      * apply (Hdone r t Hr Ht).
    + intro Hr. rewrite Hheap, Ht.
      destruct (list_in r (r0 :: sel)) eqn:E; [| reflexivity].
      apply list_in_In in E. contradiction.
Qed.


(** X25. A type without an image: with an empty selection the method
    does nothing, whatever the type; with a selection of allocated tiles
    it raises [KeyError] for the type. *)
Theorem change_selected_tile_type_unknown_type :
  forall (s : Terrain) (ty : TileType) (tile_images : dict string),
    ~ In ty (keys tile_images) ->
    (forall r, In r (selected_tiles s) -> r < length (heap s)) ->
    change_selected_tile_type s ty tile_images
    = match selected_tiles s with
      | [] => Ok s
      | _ :: _ => Raise (KeyError ty)
      end.
Proof.
  intros s ty imgs Hty Halloc. unfold change_selected_tile_type.
  destruct (selected_tiles s) as [| r0 sel]; [reflexivity |].
  cbn [for_each]. unfold retype_tile at 1, deref, list_get.
  destruct (nth_error (heap s) r0) as [t |] eqn:E.
  - unfold bind at 3. rewrite (dict_get_missing _ _ _ Hty). reflexivity.
  - apply nth_error_None in E. specialize (Halloc r0 (or_introl eq_refl)).
    lia.
Qed.

Lemma change_selected_tile_type_retypes_witness :
  exists s',
    change_selected_tile_type (final one_selected) "2"%string demo_images
    = Ok s' /\
    selected_tiles s' = [] /\ tiles s' = tiles (final one_selected) /\
    (forall r t, nth_error (heap (final one_selected)) r = Some t ->
        (In r (selected_tiles (final one_selected)) ->
         nth_error (heap s') r = Some (retyped "2"%string t) /\
         cell s' (tile_elevation t - 1) (fst (index t)) (snd (index t))
         = Ok "2"%string) /\
        (~ In r (selected_tiles (final one_selected)) ->
         nth_error (heap s') r = Some t)) /\
    (forall L i j,
        (forall r t, In r (selected_tiles (final one_selected)) ->
                     nth_error (heap (final one_selected)) r = Some t ->
                     place t <> (L, (i, j))) ->
        cell s' L i j = cell (final one_selected) L i j) /\
    (nth_error (terrain (final one_selected)) 0
     = Some (base_layer (final one_selected)) ->
     nth_error (terrain s') 0 = Some (base_layer s')).
Proof.
  apply (change_selected_tile_type_retypes (final one_selected) "2"%string
           demo_images "tiles/2.png"%string).
  - vm_compute. reflexivity.
  - intros r Hr. vm_compute in Hr. destruct Hr as [<- | []].
    exists (mk_Tile "1"%string (0 # 2, -28 # 4)%Q (0, 0) 2 true), "1"%string.
    split; [vm_compute; reflexivity |].
    split; [cbn [tile_elevation]; lia | vm_compute; reflexivity].
Defined.

Lemma change_selected_tile_type_unknown_type_witness :
  change_selected_tile_type (final one_selected) "9"%string demo_images
  = Raise (KeyError "9"%string).
Proof.
  refine (eq_trans
            (change_selected_tile_type_unknown_type (final one_selected)
               "9"%string demo_images _ _) _).
  - vm_compute. intros [H | [H | []]]; discriminate H.
  - intros r Hr. vm_compute in Hr. destruct Hr as [<- | []].
    vm_compute. lia.
  - vm_compute. reflexivity.
Defined.


(** ** Zooming *)

Lemma update_zoom_floor (zoom_factor : Q) (ev : mouse_event) :
  (1 # 10 <= zoom_factor)%Q -> (1 # 10 <= update_zoom zoom_factor ev)%Q.
Proof.
  intro H. destruct ev as [button pos |]; [| exact H]. unfold update_zoom.
  destruct (button =? 4)%Z.
  - apply Qle_trans with zoom_factor; [exact H |].
    rewrite <- (Qplus_0_r zoom_factor) at 1.
    apply Qplus_le_compat; [apply Qle_refl | discriminate].
  - destruct (button =? 5)%Z; [| exact H].
    match goal with
    | |- context [flt ?z ?y] => destruct (flt z y) eqn:E
    end.
    + apply Qle_refl.
    + apply flt_ge in E. exact E.
Qed.

(** X26. The zoom factor never falls below 0.1: from a zoom factor of
    0.1 at least, whatever events [update_zoom] is given one after the
    other, the zoom factor is 0.1 at least afterwards. *)
Theorem update_zoom_never_below_tenth :
  forall (events : list mouse_event) (zoom_factor : Q),
    (1 # 10 <= zoom_factor)%Q ->
    (1 # 10 <= fold_left update_zoom events zoom_factor)%Q.
Proof.
  induction events as [| ev events IH]; intros z Hz; [exact Hz |].
  simpl. apply IH. apply update_zoom_floor. exact Hz.
Qed.

Lemma update_zoom_never_below_tenth_witness :
  (1 # 10 <= fold_left update_zoom
               [MouseButtonDown 5 (0, 0)%Z; MouseButtonDown 5 (0, 0)%Z;
                MouseButtonDown 4 (0, 0)%Z; NoMouseButtonDown;
                MouseButtonDown 5 (0, 0)%Z]
               1)%Q.
Proof.
  apply (update_zoom_never_below_tenth
           [MouseButtonDown 5 (0, 0)%Z; MouseButtonDown 5 (0, 0)%Z;
            MouseButtonDown 4 (0, 0)%Z; NoMouseButtonDown;
            MouseButtonDown 5 (0, 0)%Z]
           1).
  discriminate.
Defined.

(** ** The elevation checkboxes *)

Lemma check_eq (c : CheckBox) : check c = mk_CheckBox (rect c) true.
Proof. destruct c as [r [|]]; reflexivity. Qed.

Lemma uncheck_eq (c : CheckBox) : uncheck c = mk_CheckBox (rect c) false.
Proof. destruct c as [r [|]]; reflexivity. Qed.

Lemma on_click_clicked (collidepoint : Rect -> Z * Z -> bool)
  (c : CheckBox) (ev : mouse_event) :
  on_click collidepoint c ev
  = if clicked collidepoint ev c then (check c, true) else (c, false).
Proof.
  destruct ev as [button pos |]; simpl; [| reflexivity].
  destruct (button =? 1)%Z; simpl; [| reflexivity].
  destruct (collidepoint (rect c) pos); reflexivity.
Qed.

Lemma clicked_rect (collidepoint : Rect -> Z * Z -> bool) (ev : mouse_event)
  (c c' : CheckBox) :
  rect c' = rect c -> clicked collidepoint ev c' = clicked collidepoint ev c.
Proof. intro H. unfold clicked. rewrite H. reflexivity. Qed.

Lemma nth_error_uncheck_others (n : nat) :
  forall (d : dict CheckBox) (m i : nat),
    nth_error (uncheck_others n m d) i
    = option_map (fun item : string * CheckBox =>
                    (fst item,
                     if m + i =? n then snd item else uncheck (snd item)))
        (nth_error d i).
Proof.
  induction d as [| [k c] d IH]; intros m [| i]; simpl; try reflexivity.
  - rewrite Nat.add_0_r. reflexivity.
  - rewrite IH. replace (S m + i) with (m + S i) by lia. reflexivity.
Qed.

Lemma nth_error_boxes (d : dict CheckBox) (m : nat) :
  nth_error (boxes d) m
  = option_map (fun item : string * CheckBox => (fst item, rect (snd item)))
      (nth_error d m).
Proof. unfold boxes. apply nth_error_map. Qed.

Lemma boxes_uncheck_others (n : nat) :
  forall (d : dict CheckBox) (m : nat), boxes (uncheck_others n m d) = boxes d.
Proof.
  induction d as [| [k c] d IH]; intro m; simpl; [reflexivity |].
  rewrite IH. destruct (m =? n); [reflexivity |].
  rewrite uncheck_eq. reflexivity.
Qed.

Lemma boxes_list_update (d : dict CheckBox) (n : nat) (k : string)
  (c c' : CheckBox) :
  nth_error d n = Some (k, c) -> rect c' = rect c ->
  boxes (Np.list_update d n (k, c')) = boxes d.
Proof.
  revert n. induction d as [| item d IH]; intros [| n]; simpl; intros H Hr;
    try discriminate.
  - injection H as ->. simpl. rewrite Hr. reflexivity.
  - rewrite (IH n H Hr). reflexivity.
Qed.

Lemma boxes_click_round (collidepoint : Rect -> Z * Z -> bool)
  (ev : mouse_event) (d : dict CheckBox) (n : nat) :
  boxes (click_round collidepoint ev d n) = boxes d.
Proof.
  unfold click_round. destruct (nth_error d n) as [[k c] |] eqn:E;
    [| reflexivity].
  rewrite on_click_clicked. destruct (clicked collidepoint ev c).
  - rewrite boxes_uncheck_others. apply (boxes_list_update d n k c _ E).
    rewrite check_eq. reflexivity.
  - apply (boxes_list_update d n k c _ E). reflexivity.
Qed.

Lemma boxes_rounds (collidepoint : Rect -> Z * Z -> bool) (ev : mouse_event) :
  forall (l : list nat) (d : dict CheckBox),
    boxes (fold_left (click_round collidepoint ev) l d) = boxes d.
Proof.
  induction l as [| n l IH]; intro d; simpl; [reflexivity |].
  rewrite IH. apply boxes_click_round.
Qed.

(** Two dictionaries with the same keys and rectangles: a checkbox of
    the one has the key and the rectangle of the checkbox at the same
    position of the other. *)
Lemma boxes_nth (d d' : dict CheckBox) (m : nat) (k : string) (c' : CheckBox) :
  boxes d' = boxes d -> nth_error d' m = Some (k, c') ->
  exists c, nth_error d m = Some (k, c) /\ rect c = rect c'.
Proof.
  intros Hb H. pose proof (nth_error_boxes d' m) as H'.
  rewrite Hb, nth_error_boxes, H in H'. simpl in H'.
  destruct (nth_error d m) as [[k0 c] |]; [| discriminate].
  simpl in H'. injection H' as -> Hr. eauto.
Qed.

(** Rounds on checkboxes that the event does not hit change nothing. *)
Lemma rounds_without_hit (collidepoint : Rect -> Z * Z -> bool)
  (ev : mouse_event) :
  forall (l : list nat) (d : dict CheckBox),
    (forall m k c, In m l -> nth_error d m = Some (k, c) ->
                   clicked collidepoint ev c = false) ->
    fold_left (click_round collidepoint ev) l d = d.
Proof.
  induction l as [| n l IH]; intros d H; simpl; [reflexivity |].
  assert (Hn : click_round collidepoint ev d n = d).
  { unfold click_round. destruct (nth_error d n) as [[k c] |] eqn:E;
      [| reflexivity].
    rewrite on_click_clicked, (H n k c (or_introl eq_refl) E).
    apply list_update_same. exact E. }
  rewrite Hn. apply IH. intros m k c Hm. apply H. right. exact Hm.
Qed.

(** The checkboxes after an event whose last hit, in the order of the
    dictionary, is the checkbox at position [n]. *)
Lemma checkbox_rounds (collidepoint : Rect -> Z * Z -> bool)
  (d : dict CheckBox) (ev : mouse_event) (n : nat) (k : string)
  (c : CheckBox) :
  nth_error d n = Some (k, c) ->
  clicked collidepoint ev c = true ->
  (forall m k' c', n < m -> nth_error d m = Some (k', c') ->
                   clicked collidepoint ev c' = false) ->
  forall m,
    nth_error (handle_checkbox_events collidepoint d ev) m
    = option_map (fun item : string * CheckBox =>
                    (fst item, mk_CheckBox (rect (snd item)) (m =? n)))
        (nth_error d m).
Proof.
  intros Hn Hhit Hlast. unfold handle_checkbox_events.
  assert (Hlen : n < length d) by (apply nth_error_Some; congruence).
  replace (length d) with (n + (1 + (length d - n - 1))) by lia.
  rewrite seq_app, seq_app, !fold_left_app.
  set (d1 := fold_left (click_round collidepoint ev) (seq 0 n) d).
  assert (Hb1 : boxes d1 = boxes d) by apply boxes_rounds.
  cbn [seq fold_left].
  set (d2 := click_round collidepoint ev d1 (0 + n)).
  assert (Hd2 : forall m,
             nth_error d2 m
             = option_map (fun item : string * CheckBox =>
                             (fst item,
                              mk_CheckBox (rect (snd item)) (m =? n)))
                 (nth_error d m)).
  { intro m. subst d2. rewrite Nat.add_0_l. unfold click_round.
    pose proof (nth_error_boxes d1 n) as H1.
    rewrite Hb1, nth_error_boxes, Hn in H1. cbn [option_map fst snd] in H1.
    destruct (nth_error d1 n) as [[k1 c1] |] eqn:E1; [| discriminate].
    cbn [option_map fst snd] in H1. injection H1 as <- Hr1.
    rewrite on_click_clicked.
    rewrite (clicked_rect collidepoint ev c c1) by congruence.
    rewrite Hhit, nth_error_uncheck_others, nth_error_list_update, E1.
    cbn [Nat.add].
    pose proof (nth_error_boxes d1 m) as Hm.
    rewrite Hb1, nth_error_boxes in Hm.
    destruct (Nat.eqb_spec n m) as [<- | Hne].
    - rewrite Hn, Nat.eqb_refl. cbn [option_map fst snd].
      rewrite check_eq. congruence.
    - replace (m =? n) with false
        by (symmetry; apply Nat.eqb_neq; congruence).
      destruct (nth_error d1 m) as [[km cm] |];
        destruct (nth_error d m) as [[km' cm'] |]; try discriminate;
        [| reflexivity].
      cbn [option_map fst snd] in *. rewrite uncheck_eq.
      injection Hm as -> ->. reflexivity. }
  intro m. rewrite rounds_without_hit; [apply Hd2 |].
  intros i ki ci Hi Hci. apply in_seq in Hi.
  rewrite Hd2 in Hci.
  destruct (nth_error d i) as [[ki' ci'] |] eqn:Ei; [| discriminate].
  cbn [option_map fst snd] in Hci. injection Hci as <- <-.
  rewrite (clicked_rect collidepoint ev ci') by reflexivity.
  apply (Hlast i ki' ci'); [lia | exact Ei].
Qed.

(** The elevation symbol follows the last checked checkbox. *)
Lemma follow_last_checked :
  forall (d : dict CheckBox) (s : Terrain) (n : nat) (k : string)
         (c : CheckBox),
    nth_error d n = Some (k, c) -> checked c = true ->
    (forall m k' c', n < m -> nth_error d m = Some (k', c') ->
                     checked c' = false) ->
    elevation_symbol (follow_checkboxes d s) = Some k.
Proof.
  unfold follow_checkboxes.
  induction d as [| item d IH] using rev_ind; intros s n k c Hn Hc Hlast.
  - destruct n; discriminate.
  - rewrite fold_left_app. cbn [fold_left].
    destruct (Nat.eq_dec n (length d)) as [-> | Hne].
    + rewrite nth_error_app2, Nat.sub_diag in Hn by lia.
      injection Hn as ->. cbn [fst snd]. rewrite Hc. reflexivity.
    + assert (Hlt : n < length d).
      { assert (n < length (d ++ [item]))
          by (apply nth_error_Some; congruence).
        rewrite length_app in H. simpl in H. lia. }
      destruct item as [k' c']. cbn [fst snd].
      rewrite (Hlast (length d) k' c' Hlt)
        by (rewrite nth_error_app2, Nat.sub_diag by lia; reflexivity).
      rewrite nth_error_app1 in Hn by exact Hlt.
      apply (IH s n k c Hn Hc). intros m k2 c2 Hm Hm2.
      apply (Hlast m k2 c2 Hm).
      rewrite nth_error_app1; [exact Hm2 |].
      apply nth_error_Some. congruence.
Qed.

(** X27. The elevation checkboxes behave as a radio group: when the
    checkbox at position [n] is the last one, in the order of the
    dictionary, that a left click hits, handling the event keeps the keys
    and the rectangles of all checkboxes and leaves that checkbox checked
    and every other one unchecked. *)
Theorem handle_checkbox_events_radio :
  forall (collidepoint : Rect -> Z * Z -> bool) (d : dict CheckBox)
         (ev : mouse_event) (n : nat) (k : string) (c : CheckBox),
    nth_error d n = Some (k, c) ->
    clicked collidepoint ev c = true ->
    (forall m k' c', n < m -> nth_error d m = Some (k', c') ->
                     clicked collidepoint ev c' = false) ->
    boxes (handle_checkbox_events collidepoint d ev) = boxes d /\
    forall m k' c',
      nth_error (handle_checkbox_events collidepoint d ev) m = Some (k', c') ->
      checked c' = (m =? n).
Proof.
  intros col d ev n k c Hn Hhit Hlast. split.
  - apply boxes_rounds.
  - intros m k' c' H.
    rewrite (checkbox_rounds col d ev n k c Hn Hhit Hlast) in H.
    destruct (nth_error d m) as [[km cm] |]; [| discriminate].
    cbn [option_map fst snd] in H. injection H as _ <-. reflexivity.
Qed.

(** X28. An event that hits no checkbox, because it is no left click or
    because the click is outside every rectangle, leaves all the
    checkboxes as they are. *)
Theorem handle_checkbox_events_no_hit :
  forall (collidepoint : Rect -> Z * Z -> bool) (d : dict CheckBox)
         (ev : mouse_event),
    (forall m k c, nth_error d m = Some (k, c) ->
                   clicked collidepoint ev c = false) ->
    handle_checkbox_events collidepoint d ev = d.
Proof.
  intros col d ev H. unfold handle_checkbox_events.
  apply rounds_without_hit. intros m k c _. apply H.
Qed.

(** X29. Clicking a checkbox makes its key the elevation symbol: when
    the checkbox of key [k] is the last one that a left click hits, then
    after [handle_checkbox_events] and the loop of [main] that follows the
    checkboxes, the elevation symbol of the terrain is [k]. *)
Theorem click_sets_elevation_symbol :
  forall (collidepoint : Rect -> Z * Z -> bool) (d : dict CheckBox)
         (ev : mouse_event) (s : Terrain) (n : nat) (k : string)
         (c : CheckBox),
    nth_error d n = Some (k, c) ->
    clicked collidepoint ev c = true ->
    (forall m k' c', n < m -> nth_error d m = Some (k', c') ->
                     clicked collidepoint ev c' = false) ->
    elevation_symbol
      (follow_checkboxes (handle_checkbox_events collidepoint d ev) s)
    = Some k.
Proof.
  intros col d ev s n k c Hn Hhit Hlast.
  pose proof (checkbox_rounds col d ev n k c Hn Hhit Hlast) as Hafter.
  apply (follow_last_checked _ s n k (mk_CheckBox (rect c) true)).
  - rewrite Hafter, Hn. cbn [option_map fst snd]. rewrite Nat.eqb_refl.
    reflexivity.
  - reflexivity.
  - intros m k' c' Hm H. rewrite Hafter in H.
    destruct (nth_error d m) as [[km cm] |]; [| discriminate].
    cbn [option_map fst snd] in H. injection H as _ <-. cbn [checked].
    apply Nat.eqb_neq. lia.
Qed.

Lemma handle_checkbox_events_radio_witness :
  boxes (handle_checkbox_events inside demo_checkboxes
           (MouseButtonDown 1 (5, 25)%Z))
  = boxes demo_checkboxes /\
  forall m k' c',
    nth_error (handle_checkbox_events inside demo_checkboxes
                 (MouseButtonDown 1 (5, 25)%Z)) m = Some (k', c') ->
    checked c' = (m =? 1).
Proof.
  apply (handle_checkbox_events_radio inside demo_checkboxes
           (MouseButtonDown 1 (5, 25)%Z) 1 "2"%string
           (mk_CheckBox (0, 20, 10, 10)%Z false)).
  - reflexivity.
  - reflexivity.
  - intros [| [| [| m]]] k' c' Hm H; try lia; discriminate H.
Defined.

Lemma handle_checkbox_events_no_hit_witness :
  handle_checkbox_events inside demo_checkboxes (MouseButtonDown 1 (5, 15)%Z)
  = demo_checkboxes.
Proof.
  apply (handle_checkbox_events_no_hit inside demo_checkboxes
           (MouseButtonDown 1 (5, 15)%Z)).
  intros [| [| [| m]]] k c H; try discriminate H;
    injection H as _ <-; reflexivity.
Defined.

Lemma click_sets_elevation_symbol_witness :
  elevation_symbol
    (follow_checkboxes
       (handle_checkbox_events inside demo_checkboxes
          (MouseButtonDown 1 (5, 25)%Z))
       (final two_floors))
  = Some "2"%string.
Proof.
  apply (click_sets_elevation_symbol inside demo_checkboxes
           (MouseButtonDown 1 (5, 25)%Z) (final two_floors) 1 "2"%string
           (mk_CheckBox (0, 20, 10, 10)%Z false)).
  - reflexivity.
  - reflexivity.
  - intros [| [| [| m]]] k' c' Hm H; try lia; discriminate H.
Defined.
